(** * Agent coordination core: message bus, agent registry, task queue and
    pipeline coordinator.

    A shallow embedding of [core/MessageBus.ts], [core/AgentRegistry.ts],
    [core/TaskQueue.ts], [agents/AutonomousAgent.ts] and
    [agents/OrchestratorAgent.ts].

    Conventions of the embedding:
    - a JavaScript [Map<string, V>] is a [gmap string V]; a [Set<string>] is a
      duplicate-free list in insertion order (the order [Array.from] yields);
    - an optional property ([x?: T], possibly [undefined]) is an [option];
    - [new Date()] and [Date.now()] are read from a [now : N] argument
      (milliseconds), one reading per call of a public method;
    - stateful methods are functions from the state before to the state after,
      together with the returned value where there is one;
    - [processQueue] and the coordinator's handlers are [async] but reach no
      [await] before their last statement, so a call runs to its end before
      the caller continues, and they are plain functions; [start] and [stop]
      await the [onStart] and [onStop] hooks, which only write to the console,
      between setting [isRunning] and updating the registry, and are taken as
      one step each;
    - a closure that a worker or another component subscribes to the bus is
      opaque: the bus records that it is called, with which message and in
      which order, and its body is not run.  What such a body does to the core
      is a later call of a session (the source runs the part before its first
      [await] inside the [publish] that calls it);
    - left out, as no property below concerns them: [MessageBus.request] and
      [TaskQueue.waitForTask] (both run on timers), the listing and statistics
      methods of the registry and the queue, and the static [reset]
      methods. *)

From stdpp Require Import gmap strings list sorting pretty.
From Stdlib Require Import ZArith Ascii.

#[local] Open Scope string_scope.
#[local] Open Scope list_scope.

(** ** JavaScript values shared by the components *)

(** A value the core only stores and forwards ([unknown] in the source). *)
Definition Unknown : Type := string.

(** [Record<string, unknown>]. *)
Abbreviation Metadata := (gmap string Unknown).

(** Truthiness of a [string | undefined]: [undefined] and the empty string are
    falsy. *)
Definition truthy (o : option string) : bool :=
  match o with
  | Some s => negb (String.eqb s "")
  | None => false
  end.

(** [o || fallback] on a [string | undefined]. *)
Definition or_else (o : option string) (fallback : string) : string :=
  match o with
  | Some s => if String.eqb s "" then fallback else s
  | None => fallback
  end.

(** A [Set]: [add] appends unless present, [delete] removes, [has] tests. *)
Definition set_add `{EqDecision A} (x : A) (s : list A) : list A :=
  if bool_decide (x ∈ s) then s else s ++ [x].

Definition set_delete `{EqDecision A} (x : A) (s : list A) : list A :=
  filter (λ y, y ≠ x) s.

Definition set_has `{EqDecision A} (x : A) (s : list A) : bool :=
  bool_decide (x ∈ s).

(** A template literal's rendering of a [string | undefined]. *)
Definition show (o : option string) : string := default "undefined" o.

(** No character of the string is an underscore. *)
Fixpoint plain (s : string) : Prop :=
  match s with
  | EmptyString => True
  | String a s' => a ≠ "_"%char ∧ plain s'
  end.

(** ** MessageBus.ts *)

Module MessageBus.

Inductive MessageType : Set :=
  | AGENT_REGISTERED | AGENT_READY | AGENT_ERROR
  | RAW_DATA_RECEIVED | PRODUCT_MODEL_READY
  | QUESTIONS_REQUESTED | QUESTIONS_GENERATED
  | CONTENT_BLOCKS_REQUESTED | CONTENT_BLOCKS_READY
  | TEMPLATE_REQUESTED | TEMPLATE_READY
  | PAGE_ASSEMBLY_REQUESTED | PAGE_ASSEMBLED
  | PIPELINE_START | PIPELINE_COMPLETE | PIPELINE_ERROR
  | TASK_ASSIGNED | TASK_COMPLETED.

(** The string each enum member stands for. *)
Definition MessageType_value (t : MessageType) : string :=
  match t with
  | AGENT_REGISTERED => "agent:registered"
  | AGENT_READY => "agent:ready"
  | AGENT_ERROR => "agent:error"
  | RAW_DATA_RECEIVED => "data:raw_received"
  | PRODUCT_MODEL_READY => "data:product_ready"
  | QUESTIONS_REQUESTED => "questions:requested"
  | QUESTIONS_GENERATED => "questions:generated"
  | CONTENT_BLOCKS_REQUESTED => "content:blocks_requested"
  | CONTENT_BLOCKS_READY => "content:blocks_ready"
  | TEMPLATE_REQUESTED => "template:requested"
  | TEMPLATE_READY => "template:ready"
  | PAGE_ASSEMBLY_REQUESTED => "page:assembly_requested"
  | PAGE_ASSEMBLED => "page:assembled"
  | PIPELINE_START => "pipeline:start"
  | PIPELINE_COMPLETE => "pipeline:complete"
  | PIPELINE_ERROR => "pipeline:error"
  | TASK_ASSIGNED => "task:assigned"
  | TASK_COMPLETED => "task:completed"
  end.

Definition MessageType_code (t : MessageType) : nat :=
  match t with
  | AGENT_REGISTERED => 0 | AGENT_READY => 1 | AGENT_ERROR => 2
  | RAW_DATA_RECEIVED => 3 | PRODUCT_MODEL_READY => 4
  | QUESTIONS_REQUESTED => 5 | QUESTIONS_GENERATED => 6
  | CONTENT_BLOCKS_REQUESTED => 7 | CONTENT_BLOCKS_READY => 8
  | TEMPLATE_REQUESTED => 9 | TEMPLATE_READY => 10
  | PAGE_ASSEMBLY_REQUESTED => 11 | PAGE_ASSEMBLED => 12
  | PIPELINE_START => 13 | PIPELINE_COMPLETE => 14 | PIPELINE_ERROR => 15
  | TASK_ASSIGNED => 16 | TASK_COMPLETED => 17
  end.

Definition MessageType_of_code (n : nat) : MessageType :=
  match n with
  | 0 => AGENT_REGISTERED | 1 => AGENT_READY | 2 => AGENT_ERROR
  | 3 => RAW_DATA_RECEIVED | 4 => PRODUCT_MODEL_READY
  | 5 => QUESTIONS_REQUESTED | 6 => QUESTIONS_GENERATED
  | 7 => CONTENT_BLOCKS_REQUESTED | 8 => CONTENT_BLOCKS_READY
  | 9 => TEMPLATE_REQUESTED | 10 => TEMPLATE_READY
  | 11 => PAGE_ASSEMBLY_REQUESTED | 12 => PAGE_ASSEMBLED
  | 13 => PIPELINE_START | 14 => PIPELINE_COMPLETE | 15 => PIPELINE_ERROR
  | 16 => TASK_ASSIGNED | _ => TASK_COMPLETED
  end.

#[global] Instance MessageType_eq_dec : EqDecision MessageType.
Proof. solve_decision. Defined.

#[global] Instance MessageType_countable : Countable MessageType.
Proof.
  apply (inj_countable' MessageType_code MessageType_of_code).
  intros []; reflexivity.
Defined.

Section Bus.

(** [P] is the payload type ([T = unknown] in the source) and [H] the type of
    handler closures.  A handler's body belongs to the component that
    registered it; the bus only decides which handlers are called, with which
    message and in which order. *)
Context {P H : Type}.

Record AgentMessage := {
  id : string;
  type : MessageType;
  source : string;
  target : option string;
  payload : P;
  timestamp : N;
  correlationId : option string;
  replyTo : option string
}.

Record Subscription := {
  agentId : string;
  messageType : MessageType;
  handler : H
}.

(** The [options] argument of [publish]. *)
Record PublishOptions := {
  opt_target : option string;
  opt_correlationId : option string;
  opt_replyTo : option string
}.

(** One call [handler(message)] made by a listener. *)
Record Invocation := {
  inv_agentId : string;
  inv_handler : H;
  inv_message : AgentMessage
}.

(** The bus.  [emitter] is the [EventEmitter]: per event name, the listeners
    in the order [on] added them; each listener is the arrow function that
    [subscribe] creates, which closes over [agentId] and [handler].
    [dispatched] is the log of handler calls made so far. *)
Record t := {
  emitter : gmap MessageType (list (string * H));
  subscriptions : gmap MessageType (list Subscription);
  messageHistory : list AgentMessage;
  messageIdCounter : N;
  dispatched : list Invocation
}.

Definition new : t := {|
  emitter := ∅;
  subscriptions := ∅;
  messageHistory := [];
  messageIdCounter := 0;
  dispatched := []
|}.

(** [emitter.listeners(type)]. *)
Definition listeners (ty : MessageType) (b : t) : list (string * H) :=
  default [] (emitter b !! ty).

(** [emitter.on(type, listener)]. *)
Definition emitter_on (ty : MessageType) (l : string * H)
    (e : gmap MessageType (list (string * H))) : gmap MessageType (list (string * H)) :=
  <[ty := default [] (e !! ty) ++ [l]]> e.

Definition subscribe (agentId0 : string) (ty : MessageType) (h : H) (b : t) : t :=
  let subs := match subscriptions b !! ty with
              | Some l => subscriptions b
              | None => <[ty := []]> (subscriptions b)
              end in
  let subscription := {| agentId := agentId0; messageType := ty; handler := h |} in
  {| emitter := emitter_on ty (agentId0, h) (emitter b);
     subscriptions := <[ty := default [] (subs !! ty) ++ [subscription]]> subs;
     messageHistory := messageHistory b;
     messageIdCounter := messageIdCounter b;
     dispatched := dispatched b |}.

Definition unsubscribe (agentId0 : string) (ty : MessageType) (b : t) : t :=
  match subscriptions b !! ty with
  | Some subs =>
      {| emitter := emitter b;
         subscriptions :=
           <[ty := filter (λ s, agentId s ≠ agentId0) subs]> (subscriptions b);
         messageHistory := messageHistory b;
         messageIdCounter := messageIdCounter b;
         dispatched := dispatched b |}
  | None => b
  end.

(** The guard of the listener: [!message.target || message.target === agentId]. *)
Definition delivers (m : AgentMessage) (agentId0 : string) : bool :=
  negb (truthy (target m)) || bool_decide (target m = Some agentId0).

(** [emitter.emit(type, message)]: the listeners run in order; each one calls
    its handler when its guard holds. *)
Definition emit (ty : MessageType) (m : AgentMessage) (b : t) : list Invocation :=
  omap (λ l : string * H,
          if delivers m l.1
          then Some {| inv_agentId := l.1; inv_handler := l.2; inv_message := m |}
          else None)
       (listeners ty b).

Definition generateMessageId (now : N) (b : t) : string * N :=
  let c := (messageIdCounter b + 1)%N in
  ("msg_" +:+ pretty now +:+ "_" +:+ pretty c, c).

(** [publish]: returns the message, the handler calls the emit makes, and the
    bus after. *)
Definition publish (now : N) (source0 : string) (ty : MessageType) (payload0 : P)
    (options : option PublishOptions) (b : t) : AgentMessage * list Invocation * t :=
  let '(mid, c) := generateMessageId now b in
  let message := {|
    id := mid;
    type := ty;
    source := source0;
    target := options ≫= opt_target;
    payload := payload0;
    timestamp := now;
    correlationId := options ≫= opt_correlationId;
    replyTo := options ≫= opt_replyTo
  |} in
  let calls := emit ty message b in
  (message, calls,
   {| emitter := emitter b;
      subscriptions := subscriptions b;
      messageHistory := messageHistory b ++ [message];
      messageIdCounter := c;
      dispatched := dispatched b ++ calls |}).

Definition getHistory (b : t) : list AgentMessage := messageHistory b.

Definition getCorrelatedMessages (cid : string) (b : t) : list AgentMessage :=
  filter (λ m, correlationId m = Some cid) (messageHistory b).

Definition getSubscribers (ty : MessageType) (b : t) : list string :=
  match subscriptions b !! ty with
  | Some subs => agentId <$> subs
  | None => []
  end.

(** A session with the bus: the calls made on it since it was created. *)
Inductive Call :=
  | CallSubscribe (agentId0 : string) (ty : MessageType) (h : H)
  | CallUnsubscribe (agentId0 : string) (ty : MessageType)
  | CallPublish (now : N) (source0 : string) (ty : MessageType) (payload0 : P)
      (options : option PublishOptions).

Definition call (b : t) (c : Call) : t :=
  match c with
  | CallSubscribe a ty h => subscribe a ty h b
  | CallUnsubscribe a ty => unsubscribe a ty b
  | CallPublish now s ty p o => (publish now s ty p o b).2
  end.

Definition run (cs : list Call) : t := foldl call new cs.

(** The [(workerId, handler)] pairs that the calls [cs] subscribed to [ty], in
    subscription order. *)
Definition subscribed (ty : MessageType) (cs : list Call) : list (string * H) :=
  omap (λ c, match c with
             | CallSubscribe a ty' h => if bool_decide (ty' = ty) then Some (a, h) else None
             | _ => None
             end) cs.

End Bus.

Arguments AgentMessage : clear implicits.
Arguments Subscription : clear implicits.
Arguments Invocation : clear implicits.
Arguments t : clear implicits.
Arguments Call : clear implicits.

(** The fields of a message that the caller of [publish] chooses (all but the
    id). *)
Definition fields {P : Type} (m : AgentMessage P) :=
  (type m, source m, target m, payload m, timestamp m, correlationId m, replyTo m).

(** Every message of the history carries an id that [generateMessageId] made
    from a counter value already used, and no two carry the same id. *)
Definition stamped {P H : Type} (b : t P H) : Prop :=
  NoDup (id <$> messageHistory b)
  ∧ ∀ m, m ∈ messageHistory b →
         ∃ now c, id m = (generateMessageId now
                            {| emitter := emitter b; subscriptions := subscriptions b;
                               messageHistory := messageHistory b;
                               messageIdCounter := c; dispatched := dispatched b |}).1
                  ∧ (c < messageIdCounter b)%N.

End MessageBus.

(** ** Payloads and handlers of the coordination core *)

Module Wire.

(** [TaskResult] of TaskQueue.ts. *)
Record TaskResult := {
  taskId : string;
  success : bool;
  data : option Unknown;
  error : option string;
  executionTimeMs : Z
}.

(** The parts of the content models that the coordinator reads. *)
Record ProductModel := { name : string; productData : Unknown }.
Record QuestionSet := { totalCount : Z; questions : Unknown }.

(** [PipelineState.pages]. *)
Record Pages := {
  faq : option Unknown;
  product : option Unknown;
  comparison : option Unknown
}.

(** [OrchestratorOutput.summary]. *)
Record Summary := {
  totalEvents : nat;
  startedAt : N;
  completedAt : N;
  durationMs : Z;
  pagesGenerated : list (option string)
}.

(** The payload objects that the registry, the queue, the agents' base class
    and the coordinator publish or read; any other payload is
    [OtherPayload]. *)
Inductive Payload :=
  | AgentRegisteredPayload (agentId agentType : string) (capabilities : list string)
  | AgentReadyPayload (agentId agentType : string)
  | AgentErrorPayload (agentId error : string) (message : option string)
  | TaskAssignedPayload (taskId taskType : string) (payload : Unknown) (metadata : Metadata)
  | TaskCompletedPayload (taskId : string) (result : TaskResult)
  | RawDataPayload (rawData : Unknown)
  | ProductModelReadyPayload (product : ProductModel)
  | QuestionsGeneratedPayload (questionSet : QuestionSet)
  | ContentBlocksReadyPayload (blocks : Unknown)
  | PageAssembledPayload (pageType : string) (page : Unknown)
  | PipelineStartPayload (pagesToGenerate : list string) (timestamp : N)
  | PipelineCompletePayload (pages : Pages) (summary : Summary)
  | OtherPayload (value : Unknown).

(** The closures subscribed to the bus.  [TaskQueueHandler] is the arrow
    function of [TaskQueue.setupMessageHandlers]; [CoordinatorMessageHandler]
    and [CoordinatorTaskHandler] are the two closures that the constructor of
    [AutonomousAgent] creates for the coordinator (the wrapped handler of
    [subscribe] and the task-assignment handler).  An [ExternalHandler] is a
    closure of a worker or another component: the bus calls it (the call is
    logged in [MessageBus.dispatched]) and its body, which is not part of the
    core, is not run here. *)
Inductive Handler :=
  | TaskQueueHandler
  | CoordinatorMessageHandler
  | CoordinatorTaskHandler
  | ExternalHandler (tag : string).

#[global] Instance Handler_eq_dec : EqDecision Handler.
Proof. solve_decision. Defined.

Abbreviation Bus := (MessageBus.t Payload Handler).
Abbreviation Message := (MessageBus.AgentMessage Payload).

End Wire.

(** ** AgentRegistry.ts *)

Module AgentRegistry.

Record AgentCapability := {
  name : string;
  description : string;
  inputTypes : list string;
  outputTypes : list string
}.

Inductive AgentStatus : Set := INITIALIZING | READY | BUSY | ERROR | OFFLINE.

#[global] Instance AgentStatus_eq_dec : EqDecision AgentStatus.
Proof. solve_decision. Defined.

Record AgentRecord := {
  id : string;
  type : string;
  capabilities : list AgentCapability;
  status : AgentStatus;
  registeredAt : N;
  lastHeartbeat : N;
  metadata : Metadata
}.

(** The registry's own maps.  Its [messageBus] field refers to the bus
    singleton, which the methods that publish take and return. *)
Record t := {
  agents : gmap string AgentRecord;
  capabilityIndex : gmap string (list string)
}.

Definition new : t := {| agents := ∅; capabilityIndex := ∅ |}.

(** One turn of the indexing loop of [register]. *)
Definition index_capability (id0 : string) (idx : gmap string (list string))
    (capability : AgentCapability) : gmap string (list string) :=
  let idx1 := match idx !! name capability with
              | Some _ => idx
              | None => <[name capability := []]> idx
              end in
  <[name capability := set_add id0 (default [] (idx1 !! name capability))]> idx1.

Definition register (now : N) (id0 type0 : string) (capabilities0 : list AgentCapability)
    (metadata0 : Metadata) (r : t) (bus : Wire.Bus) : AgentRecord * t * Wire.Bus :=
  let record := {|
    id := id0;
    type := type0;
    capabilities := capabilities0;
    status := INITIALIZING;
    registeredAt := now;
    lastHeartbeat := now;
    metadata := metadata0
  |} in
  let r' := {|
    agents := <[id0 := record]> (agents r);
    capabilityIndex := foldl (index_capability id0) (capabilityIndex r) capabilities0
  |} in
  let '(_, _, bus') :=
    MessageBus.publish now "registry" MessageBus.AGENT_REGISTERED
      (Wire.AgentRegisteredPayload id0 type0 (name <$> capabilities0)) None bus in
  (record, r', bus').

(** One turn of the loop of [unregister]. *)
Definition unindex_capability (id0 : string) (idx : gmap string (list string))
    (capability : AgentCapability) : gmap string (list string) :=
  match idx !! name capability with
  | Some agentSet => <[name capability := set_delete id0 agentSet]> idx
  | None => idx
  end.

Definition unregister (id0 : string) (r : t) : bool * t :=
  match agents r !! id0 with
  | None => (false, r)
  | Some record =>
      (true,
       {| agents := delete id0 (agents r);
          capabilityIndex :=
            foldl (unindex_capability id0) (capabilityIndex r) (capabilities record) |})
  end.

Definition with_status (st : AgentStatus) (now : N) (a : AgentRecord) : AgentRecord :=
  {| id := id a; type := type a; capabilities := capabilities a;
     status := st; registeredAt := registeredAt a; lastHeartbeat := now;
     metadata := metadata a |}.

Definition updateStatus (now : N) (id0 : string) (st : AgentStatus) (r : t)
    (bus : Wire.Bus) : t * Wire.Bus :=
  match agents r !! id0 with
  | Some record =>
      let r' := {| agents := <[id0 := with_status st now record]> (agents r);
                   capabilityIndex := capabilityIndex r |} in
      if bool_decide (st = READY)
      then (r', (MessageBus.publish now "registry" MessageBus.AGENT_READY
                   (Wire.AgentReadyPayload id0 (type record)) None bus).2)
      else (r', bus)
  | None => (r, bus)
  end.

Definition heartbeat (now : N) (id0 : string) (r : t) : t :=
  match agents r !! id0 with
  | Some record =>
      {| agents := <[id0 := with_status (status record) now record]> (agents r);
         capabilityIndex := capabilityIndex r |}
  | None => r
  end.

Definition getAgent (id0 : string) (r : t) : option AgentRecord := agents r !! id0.

Definition findByCapability (capabilityName : string) (r : t) : list AgentRecord :=
  match capabilityIndex r !! capabilityName with
  | None => []
  | Some agentIds => omap (λ i, agents r !! i) agentIds
  end.

Definition findReadyByCapability (capabilityName : string) (r : t) : list AgentRecord :=
  filter (λ a, status a = READY) (findByCapability capabilityName r).

Definition hasCapability (capabilityName : string) (r : t) : bool :=
  bool_decide (0 < length (findReadyByCapability capabilityName r)).

(** Every record is stored under its own id, as [register] stores it. *)
Definition keyed (r : t) : Prop :=
  ∀ k a, agents r !! k = Some a → id a = k.

(** Every entry of the capability index is free of duplicates, as [Set.add]
    keeps it. *)
Definition indexed (r : t) : Prop :=
  ∀ n ids, capabilityIndex r !! n = Some ids → NoDup ids.

End AgentRegistry.

(** ** TaskQueue.ts *)

Module TaskQueue.

Inductive TaskPriority : Set := LOW | NORMAL | HIGH | CRITICAL.

(** The number each member of the numeric enum stands for. *)
Definition TaskPriority_value (p : TaskPriority) : Z :=
  match p with
  | LOW => 0
  | NORMAL => 1
  | HIGH => 2
  | CRITICAL => 3
  end.

Inductive TaskStatus : Set :=
  PENDING | ASSIGNED | IN_PROGRESS | COMPLETED | FAILED | CANCELLED.

#[global] Instance TaskPriority_eq_dec : EqDecision TaskPriority.
Proof. solve_decision. Defined.

#[global] Instance TaskStatus_eq_dec : EqDecision TaskStatus.
Proof. solve_decision. Defined.

Record Task := {
  id : string;
  type : string;
  requiredCapability : string;
  payload : Unknown;
  priority : TaskPriority;
  status : TaskStatus;
  assignedTo : option string;
  createdAt : N;
  startedAt : option N;
  completedAt : option N;
  result : option Unknown;
  error : option string;
  retryCount : Z;
  maxRetries : Z;
  dependencies : list string;
  metadata : Metadata
}.

(** The [options] argument of [submit]. *)
Record SubmitOptions := {
  opt_priority : option TaskPriority;
  opt_dependencies : option (list string);
  opt_maxRetries : option Z;
  opt_metadata : option Metadata
}.

(** The queue, with the two singletons its fields [messageBus] and [registry]
    refer to. *)
Record t := {
  messageBus : Wire.Bus;
  registry : AgentRegistry.t;
  tasks : gmap string Task;
  pendingQueue : list string;
  taskIdCounter : N
}.

(** Assignments to the mutable fields of a task object. *)
Definition assign (k : Task) (status0 : TaskStatus) (assignedTo0 : option string)
    (startedAt0 completedAt0 : option N) (result0 : option Unknown)
    (error0 : option string) (retryCount0 : Z) : Task :=
  {| id := id k; type := type k; requiredCapability := requiredCapability k;
     payload := payload k; priority := priority k;
     status := status0; assignedTo := assignedTo0;
     createdAt := createdAt k; startedAt := startedAt0; completedAt := completedAt0;
     result := result0; error := error0; retryCount := retryCount0;
     maxRetries := maxRetries k; dependencies := dependencies k;
     metadata := metadata k |}.

Definition with_tasks (m : gmap string Task) (s : t) : t :=
  {| messageBus := messageBus s; registry := registry s; tasks := m;
     pendingQueue := pendingQueue s; taskIdCounter := taskIdCounter s |}.

Definition with_pendingQueue (q : list string) (s : t) : t :=
  {| messageBus := messageBus s; registry := registry s; tasks := tasks s;
     pendingQueue := q; taskIdCounter := taskIdCounter s |}.

Definition with_registry (rb : AgentRegistry.t * Wire.Bus) (s : t) : t :=
  {| messageBus := rb.2; registry := rb.1; tasks := tasks s;
     pendingQueue := pendingQueue s; taskIdCounter := taskIdCounter s |}.

Definition with_messageBus (b : Wire.Bus) (s : t) : t :=
  {| messageBus := b; registry := registry s; tasks := tasks s;
     pendingQueue := pendingQueue s; taskIdCounter := taskIdCounter s |}.

(** The constructor, with [setupMessageHandlers]. *)
Definition new (bus : Wire.Bus) (reg : AgentRegistry.t) : t :=
  {| messageBus :=
       MessageBus.subscribe "task-queue" MessageBus.TASK_COMPLETED Wire.TaskQueueHandler bus;
     registry := reg;
     tasks := ∅;
     pendingQueue := [];
     taskIdCounter := 0 |}.

Definition generateTaskId (now : N) (counter : N) : string :=
  "task_" +:+ pretty now +:+ "_" +:+ pretty counter.

(** The insertion loop of [enqueue], with the final [push] when the loop
    inserted nothing. *)
Fixpoint enqueue_at (m : gmap string Task) (task : Task) (taskId : string)
    (q : list string) : list string :=
  match q with
  | [] => [taskId]
  | x :: rest =>
      match m !! x with
      | Some existingTask =>
          if bool_decide
               (TaskPriority_value (priority task) > TaskPriority_value (priority existingTask))%Z
          then taskId :: x :: rest
          else x :: enqueue_at m task taskId rest
      | None => x :: enqueue_at m task taskId rest
      end
  end.

Definition enqueue (taskId : string) (s : t) : t :=
  match tasks s !! taskId with
  | None => s
  | Some task => with_pendingQueue (enqueue_at (tasks s) task taskId (pendingQueue s)) s
  end.

Definition submit (now : N) (type0 requiredCapability0 : string) (payload0 : Unknown)
    (options : option SubmitOptions) (s : t) : Task * t :=
  let counter := (taskIdCounter s + 1)%N in
  let task := {|
    id := generateTaskId now counter;
    type := type0;
    requiredCapability := requiredCapability0;
    payload := payload0;
    priority := default NORMAL (options ≫= opt_priority);
    status := PENDING;
    assignedTo := None;
    createdAt := now;
    startedAt := None;
    completedAt := None;
    result := None;
    error := None;
    retryCount := 0;
    maxRetries := default 3%Z (options ≫= opt_maxRetries);
    dependencies := default [] (options ≫= opt_dependencies);
    metadata := default ∅ (options ≫= opt_metadata)
  |} in
  let s1 := {| messageBus := messageBus s; registry := registry s;
               tasks := <[id task := task]> (tasks s);
               pendingQueue := pendingQueue s; taskIdCounter := counter |} in
  (task, enqueue (id task) s1).

Definition areDependenciesMet (m : gmap string Task) (task : Task) : bool :=
  forallb (λ depId, match m !! depId with
                    | Some depTask => bool_decide (status depTask = COMPLETED)
                    | None => false
                    end)
          (dependencies task).

(** The task as [processQueue] leaves it when it assigns it to [worker]. *)
Definition assigned (task : Task) (worker : string) : Task :=
  assign task ASSIGNED (Some worker) (startedAt task) (completedAt task)
    (result task) (error task) (retryCount task).

(** The assignment that [processQueue] makes once it has found an agent:
    mark the task, mark the agent busy, notify the agent. *)
Definition assignTask (now : N) (taskId : string) (task : Task)
    (agent : AgentRegistry.AgentRecord) (s : t) : t :=
  let task' := assigned task (AgentRegistry.id agent) in
  let s1 := with_tasks (<[taskId := task']> (tasks s)) s in
  let s2 := with_registry
              (AgentRegistry.updateStatus now (AgentRegistry.id agent)
                 AgentRegistry.BUSY (registry s1) (messageBus s1)) s1 in
  with_messageBus
    (MessageBus.publish now "task-queue" MessageBus.TASK_ASSIGNED
       (Wire.TaskAssignedPayload (id task') (type task') (payload task') (metadata task'))
       (Some {| MessageBus.opt_target := Some (AgentRegistry.id agent);
                MessageBus.opt_correlationId := None;
                MessageBus.opt_replyTo := None |})
       (messageBus s2)).2 s2.

(** One turn of the loop of [processQueue]; the accumulator carries the state
    and [assignedTasks]. *)
Definition processQueue_step (now : N) (acc : t * list string) (taskId : string)
    : t * list string :=
  let '(s, assignedTasks) := acc in
  match tasks s !! taskId with
  | None => acc
  | Some task =>
      if negb (bool_decide (status task = PENDING)) then acc
      else if negb (areDependenciesMet (tasks s) task) then acc
      else
        match AgentRegistry.findReadyByCapability (requiredCapability task) (registry s) with
        | [] => acc
        | agent :: _ => (assignTask now taskId task agent s, assignedTasks ++ [taskId])
        end
  end.

(** The state in which the loop of [processQueue] reaches the entry that
    follows the entries [before]. *)
Definition scanned (now : N) (s : t) (before : list string) : t :=
  (foldl (processQueue_step now) (s, []) before).1.

Definition processQueue (now : N) (s : t) : t :=
  let '(s', assignedTasks) := foldl (processQueue_step now) (s, []) (pendingQueue s) in
  with_pendingQueue
    (filter (λ i, negb (bool_decide (i ∈ assignedTasks))) (pendingQueue s')) s'.

Definition handleTaskCompletion (now : N) (taskId : string) (res : Wire.TaskResult)
    (s : t) : t :=
  match tasks s !! taskId with
  | None => s
  | Some task =>
      let '(task1, s1) :=
        if Wire.success res then
          let k := assign task COMPLETED (assignedTo task) (startedAt task) (Some now)
                     (Wire.data res) (error task) (retryCount task) in
          (k, with_tasks (<[taskId := k]> (tasks s)) s)
        else
          let n := (retryCount task + 1)%Z in
          if bool_decide (n < maxRetries task)%Z then
            let k := assign task PENDING None (startedAt task) (completedAt task)
                       (result task) (error task) n in
            (k, enqueue taskId (with_tasks (<[taskId := k]> (tasks s)) s))
          else
            let k := assign task FAILED (assignedTo task) (startedAt task) (Some now)
                       (result task) (Wire.error res) n in
            (k, with_tasks (<[taskId := k]> (tasks s)) s) in
      let s2 :=
        match assignedTo task1 with
        | Some worker =>
            if truthy (Some worker)
            then with_registry
                   (AgentRegistry.updateStatus now worker AgentRegistry.READY
                      (registry s1) (messageBus s1)) s1
            else s1
        | None => s1
        end in
      processQueue now s2
  end.

Definition startTask (now : N) (taskId : string) (s : t) : t :=
  match tasks s !! taskId with
  | Some task =>
      if bool_decide (status task = ASSIGNED)
      then with_tasks
             (<[taskId := assign task IN_PROGRESS (assignedTo task) (Some now)
                            (completedAt task) (result task) (error task)
                            (retryCount task)]> (tasks s)) s
      else s
  | None => s
  end.

(** What the bus's call of a handler does to the queue.  The queue's own
    handler destructures [taskId] and [result] from the payload and calls
    [handleTaskCompletion]; on a payload without a [taskId] that call finds no
    task and returns.  ([completeTask] and [failTask] are the only publishers
    of [TASK_COMPLETED] in the repository, and their payload has both
    fields.) *)
Definition deliver (now : N) (s : t) (call : MessageBus.Invocation Wire.Payload Wire.Handler) : t :=
  match MessageBus.inv_handler call with
  | Wire.TaskQueueHandler =>
      match MessageBus.payload (MessageBus.inv_message call) with
      | Wire.TaskCompletedPayload taskId res => handleTaskCompletion now taskId res s
      | _ => s
      end
  | _ => s
  end.

(** A publish on the bus, by the queue or by any other component: the emit
    runs the subscribed handlers before [publish] returns. *)
Definition published (now : N) (source : string) (ty : MessageBus.MessageType)
    (payload0 : Wire.Payload) (options : option MessageBus.PublishOptions) (s : t) : t :=
  let '(_, calls, bus') := MessageBus.publish now source ty payload0 options (messageBus s) in
  foldl (deliver now) (with_messageBus bus' s) calls.

(** [messageBus.publish(source, TASK_COMPLETED, { taskId, result })] as
    [completeTask] and [failTask] make it. *)
Definition publishCompleted (now : N) (source : string) (taskId : string)
    (res : Wire.TaskResult) (s : t) : t :=
  published now source MessageBus.TASK_COMPLETED (Wire.TaskCompletedPayload taskId res) None s.

Definition executionTime (now : N) (task : Task) : Z :=
  match startedAt task with
  | Some started => (Z.of_N now - Z.of_N started)%Z
  | None => 0%Z
  end.

Definition completeTask (now : N) (taskId : string) (result0 : Unknown) (s : t) : t :=
  match tasks s !! taskId with
  | None => s
  | Some task =>
      publishCompleted now (or_else (assignedTo task) "unknown") taskId
        {| Wire.taskId := taskId; Wire.success := true; Wire.data := Some result0;
           Wire.error := None; Wire.executionTimeMs := executionTime now task |} s
  end.

Definition failTask (now : N) (taskId : string) (error0 : string) (s : t) : t :=
  match tasks s !! taskId with
  | None => s
  | Some task =>
      publishCompleted now (or_else (assignedTo task) "unknown") taskId
        {| Wire.taskId := taskId; Wire.success := false; Wire.data := None;
           Wire.error := Some error0; Wire.executionTimeMs := executionTime now task |} s
  end.

Definition getTask (taskId : string) (s : t) : option Task := tasks s !! taskId.

Definition getTaskResult (taskId : string) (s : t) : option Unknown :=
  tasks s !! taskId ≫= result.

(** A session with the core: the calls made on the queue, the registry and
    the bus since they were created. *)
Inductive Call :=
  | CallSubmit (now : N) (type0 requiredCapability0 : string) (payload0 : Unknown)
      (options : option SubmitOptions)
  | CallProcessQueue (now : N)
  | CallStartTask (now : N) (taskId : string)
  | CallCompleteTask (now : N) (taskId : string) (result0 : Unknown)
  | CallFailTask (now : N) (taskId : string) (error0 : string)
  | CallRegister (now : N) (id0 type0 : string)
      (capabilities0 : list AgentRegistry.AgentCapability) (metadata0 : Metadata)
  | CallUnregister (id0 : string)
  | CallUpdateStatus (now : N) (id0 : string) (st : AgentRegistry.AgentStatus)
  | CallHeartbeat (now : N) (id0 : string)
  | CallSubscribe (agentId : string) (ty : MessageBus.MessageType) (tag : string)
  | CallUnsubscribe (agentId : string) (ty : MessageBus.MessageType)
  | CallPublish (now : N) (source : string) (ty : MessageBus.MessageType)
      (payload0 : Wire.Payload) (options : option MessageBus.PublishOptions).

Definition call (s : t) (c : Call) : t :=
  match c with
  | CallSubmit now ty cap p o => (submit now ty cap p o s).2
  | CallProcessQueue now => processQueue now s
  | CallStartTask now i => startTask now i s
  | CallCompleteTask now i r => completeTask now i r s
  | CallFailTask now i e => failTask now i e s
  | CallRegister now i ty caps meta =>
      let '(_, r, b) := AgentRegistry.register now i ty caps meta (registry s) (messageBus s) in
      with_registry (r, b) s
  | CallUnregister i =>
      with_registry ((AgentRegistry.unregister i (registry s)).2, messageBus s) s
  | CallUpdateStatus now i st =>
      with_registry (AgentRegistry.updateStatus now i st (registry s) (messageBus s)) s
  | CallHeartbeat now i =>
      with_registry (AgentRegistry.heartbeat now i (registry s), messageBus s) s
  | CallSubscribe a ty tag =>
      with_messageBus (MessageBus.subscribe a ty (Wire.ExternalHandler tag) (messageBus s)) s
  | CallUnsubscribe a ty =>
      with_messageBus (MessageBus.unsubscribe a ty (messageBus s)) s
  | CallPublish now src ty p o => published now src ty p o s
  end.

(** The state after the calls [cs] on a freshly created bus, registry and
    queue. *)
Definition run (cs : list Call) : t :=
  foldl call (new MessageBus.new AgentRegistry.new) cs.

(** How a scan of the backlog may change the task map: every task is as it
    was, or was pending and is now assigned. *)
Definition scan_tasks (m m' : gmap string Task) : Prop :=
  ∀ x, m' !! x = m !! x
       ∨ ∃ k w, m !! x = Some k ∧ status k = PENDING ∧ m' !! x = Some (assigned k w).

(** How a scan may change the registry: the index is as it was, and every
    agent is as it was, or was ready and is now busy. *)
Definition scan_registry (now : N) (r r' : AgentRegistry.t) : Prop :=
  AgentRegistry.capabilityIndex r' = AgentRegistry.capabilityIndex r
  ∧ ∀ i, AgentRegistry.agents r' !! i = AgentRegistry.agents r !! i
         ∨ ∃ a, AgentRegistry.agents r !! i = Some a
                ∧ AgentRegistry.status a = AgentRegistry.READY
                ∧ AgentRegistry.agents r' !! i
                  = Some (AgentRegistry.with_status AgentRegistry.BUSY now a).

(** A change of the task map that keeps the set of task ids and every task's
    priority. *)
Definition steady (m m' : gmap string Task) : Prop :=
  ∀ x, match m !! x, m' !! x with
       | Some k, Some k' => priority k' = priority k
       | None, None => True
       | _, _ => False
       end.

(** Every task is stored under an id that [generateTaskId] made from a
    counter value already used. *)
Definition minted (s : t) : Prop :=
  ∀ x, is_Some (tasks s !! x) →
       ∃ now c, x = generateTaskId now c ∧ (c ≤ taskIdCounter s)%N.

(** [x] stands no lower than [y] in priority. *)
Definition outranks (m : gmap string Task) (x y : string) : Prop :=
  ∃ kx ky, m !! x = Some kx ∧ m !! y = Some ky
           ∧ (TaskPriority_value (priority ky) ≤ TaskPriority_value (priority kx))%Z.

(** The backlog runs from high to low priority, and holds known tasks only. *)
Definition ordered (s : t) : Prop :=
  StronglySorted (outranks (tasks s)) (pendingQueue s)
  ∧ Forall (λ x, is_Some (tasks s !! x)) (pendingQueue s).

(** The order of the backlog and the provenance of the task ids. *)
Definition sound (s : t) : Prop := ordered s ∧ minted s.

(** The queue's handler is subscribed to [TASK_COMPLETED] once, as the
    constructor leaves it. *)
Definition wired (s : t) : Prop :=
  length (filter (λ l, l.2 = Wire.TaskQueueHandler)
            (MessageBus.listeners MessageBus.TASK_COMPLETED (messageBus s))) = 1.

(** The task ids of the assignment messages published so far, in order, each
    with the worker the message is targeted at. *)
Definition assignments (s : t) : list (string * option string) :=
  omap (λ m, match MessageBus.payload m with
             | Wire.TaskAssignedPayload taskId _ _ _ => Some (taskId, MessageBus.target m)
             | _ => None
             end)
       (MessageBus.messageHistory (messageBus s)).

(** [getStats].  [Array.from(this.tasks.values())] lists the tasks in the
    order of their insertion; the counts do not depend on the order. *)
Record Stats := {
  totalTasks : nat;
  pending : nat;
  inProgress : nat;
  completed : nat;
  failed : nat
}.

Definition count (st : TaskStatus) (l : list Task) : nat :=
  length (filter (λ task, status task = st) l).

Definition getStats (s : t) : Stats :=
  let tasks0 := (map_to_list (tasks s)).*2 in
  {| totalTasks := length tasks0;
     pending := count PENDING tasks0;
     inProgress := count IN_PROGRESS tasks0;
     completed := count COMPLETED tasks0;
     failed := count FAILED tasks0 |}.

(** What holds of every stored task between calls: it is stored under its
    id; it is never cancelled; it has a worker exactly while it is not
    pending; a task in progress has a start time and a finished task an end
    time; and a failed task has used up its retries. *)
Definition sane (x : string) (k : Task) : Prop :=
  id k = x
  ∧ status k ≠ CANCELLED
  ∧ (status k = PENDING → assignedTo k = None)
  ∧ (status k = ASSIGNED ∨ status k = IN_PROGRESS → is_Some (assignedTo k))
  ∧ (status k = IN_PROGRESS → is_Some (startedAt k))
  ∧ (status k = COMPLETED ∨ status k = FAILED → is_Some (completedAt k))
  ∧ (0 ≤ retryCount k)%Z
  ∧ (status k = FAILED → (maxRetries k ≤ retryCount k)%Z).

Definition lifecycle (s : t) : Prop :=
  ∀ x k, tasks s !! x = Some k → sane x k.

(** An entry that a turn of the loop of [processQueue] passes over. *)
Definition skipped (s : t) (taskId : string) : Prop :=
  match tasks s !! taskId with
  | None => True
  | Some task =>
      status task ≠ PENDING
      ∨ areDependenciesMet (tasks s) task = false
      ∨ AgentRegistry.findReadyByCapability (requiredCapability task) (registry s) = []
  end.

End TaskQueue.

(** ** AutonomousAgent.ts: a worker's handling of a task assignment *)

Module AutonomousAgent.

(** How [processTask] ended: it returned a result, or it threw an error with
    a message.  [processTask] is abstract in the base class. *)
Inductive Outcome :=
  | Returned (result : Unknown)
  | Threw (message : string).

(** The [taskId] that [handleTaskAssignment] destructures from the payload. *)
Definition payload_taskId (p : Wire.Payload) : option string :=
  match p with
  | Wire.TaskAssignedPayload taskId _ _ _ => Some taskId
  | Wire.TaskCompletedPayload taskId _ => Some taskId
  | _ => None
  end.

(** [handleTaskAssignment] up to the call of [processTask], made by the agent
    [id0]: mark the agent busy and the task started.  With no [taskId] in the
    payload, [startTask(undefined)] finds no task. *)
Definition handleTaskAssignment_begin (now : N) (id0 : string) (m : Wire.Message)
    (s : TaskQueue.t) : TaskQueue.t :=
  let s1 := TaskQueue.with_registry
              (AgentRegistry.updateStatus now id0 AgentRegistry.BUSY
                 (TaskQueue.registry s) (TaskQueue.messageBus s)) s in
  match payload_taskId (MessageBus.payload m) with
  | Some taskId => TaskQueue.startTask now taskId s1
  | None => s1
  end.

(** [handleTaskAssignment] from the point where [processTask] has ended:
    report the outcome to the queue, then mark the agent ready. *)
Definition handleTaskAssignment_end (now : N) (id0 : string) (m : Wire.Message)
    (outcome : Outcome) (s : TaskQueue.t) : TaskQueue.t :=
  let s1 := match payload_taskId (MessageBus.payload m), outcome with
            | Some taskId, Returned result => TaskQueue.completeTask now taskId result s
            | Some taskId, Threw message => TaskQueue.failTask now taskId message s
            | None, _ => s
            end in
  TaskQueue.with_registry
    (AgentRegistry.updateStatus now id0 AgentRegistry.READY
       (TaskQueue.registry s1) (TaskQueue.messageBus s1)) s1.

(** The whole of [handleTaskAssignment] when nothing else touches the core
    while [processTask] runs; [started] and [ended] are the times read before
    and after it. *)
Definition handleTaskAssignment (started ended : N) (id0 : string) (m : Wire.Message)
    (outcome : Outcome) (s : TaskQueue.t) : TaskQueue.t :=
  handleTaskAssignment_end ended id0 m outcome (handleTaskAssignment_begin started id0 m s).

End AutonomousAgent.

(** ** AutonomousAgent.ts and OrchestratorAgent.ts: the coordinator *)

Module Orchestrator.

Inductive PipelineStatus : Set := idle | running | completed | failed.

#[global] Instance PipelineStatus_eq_dec : EqDecision PipelineStatus.
Proof. solve_decision. Defined.

Module ExecutionLogEntry.
Record t := {
  step : N;
  event : string;
  agentId : option string;
  status : string;
  timestamp : N;
  message : option string
}.
End ExecutionLogEntry.

Module Output.
Record t := {
  pages : Wire.Pages;
  executionLog : list ExecutionLogEntry.t;
  summary : Wire.Summary
}.
End Output.

(** [receivedPages] is declared [Set<string>]; the handler adds whatever
    [pageType] it destructured from the payload, [undefined] included. *)
Record PipelineState := {
  status : PipelineStatus;
  startedAt : option N;
  completedAt : option N;
  rawData : option Unknown;
  product : option Wire.ProductModel;
  questionSet : option Wire.QuestionSet;
  contentBlocks : option Unknown;
  pages : Wire.Pages;
  expectedPages : list string;
  receivedPages : list (option string)
}.

(** The promise that [runPipeline] returns. *)
Inductive Promise :=
  | Pending
  | Fulfilled (output : Output.t)
  | Rejected (error : string).

(** The coordinator, with the bus and the registry its fields refer to.
    [promises] holds the promises created so far (a promise is its index);
    [resolveCompletion] and [rejectCompletion] refer to the promise whose
    [resolve] and [reject] functions they hold.  [settleCalls] logs every
    call of such a function. *)
Record t := {
  id : string;
  isRunning : bool;
  pipelineState : PipelineState;
  executionLog : list ExecutionLogEntry.t;
  stepCounter : N;
  resolveCompletion : option nat;
  rejectCompletion : option nat;
  promises : list Promise;
  settleCalls : list (nat * Promise);
  messageBus : Wire.Bus;
  registry : AgentRegistry.t
}.

Definition CAPABILITIES : list AgentRegistry.AgentCapability := [
  {| AgentRegistry.name := "pipeline-orchestration";
     AgentRegistry.description := "Orchestrate multi-agent content generation pipeline";
     AgentRegistry.inputTypes := ["RawProductData"];
     AgentRegistry.outputTypes := ["OrchestratorOutput"] |};
  {| AgentRegistry.name := "event-coordination";
     AgentRegistry.description := "Coordinate agents through event-driven messaging";
     AgentRegistry.inputTypes := [];
     AgentRegistry.outputTypes := [] |}
].

Definition SUBSCRIPTIONS : list MessageBus.MessageType := [
  MessageBus.PRODUCT_MODEL_READY;
  MessageBus.QUESTIONS_GENERATED;
  MessageBus.CONTENT_BLOCKS_READY;
  MessageBus.PAGE_ASSEMBLED;
  MessageBus.AGENT_ERROR;
  MessageBus.PIPELINE_COMPLETE
].

Definition emptyPages : Wire.Pages :=
  {| Wire.faq := None; Wire.product := None; Wire.comparison := None |}.

Definition createInitialState : PipelineState := {|
  status := idle;
  startedAt := None;
  completedAt := None;
  rawData := None;
  product := None;
  questionSet := None;
  contentBlocks := None;
  pages := emptyPages;
  expectedPages := [];
  receivedPages := []
|}.

(** The constructors of [AutonomousAgent] and [OrchestratorAgent]: register,
    subscribe the wrapped handler to each declared message type, subscribe the
    task-assignment handler.  (The constructor also fetches the queue
    singleton; the queue's listener on [TASK_COMPLETED] does not touch the
    coordinator and is left to the bus passed in.) *)
Definition new (now : N) (id0 : string) (bus : Wire.Bus) (reg : AgentRegistry.t) : t :=
  let '(_, reg', bus1) :=
    AgentRegistry.register now id0 "OrchestratorAgent" CAPABILITIES ∅ reg bus in
  let bus2 :=
    foldl (λ b ty, MessageBus.subscribe id0 ty Wire.CoordinatorMessageHandler b)
          bus1 SUBSCRIPTIONS in
  let bus3 :=
    MessageBus.subscribe id0 MessageBus.TASK_ASSIGNED Wire.CoordinatorTaskHandler bus2 in
  {| id := id0;
     isRunning := false;
     pipelineState := createInitialState;
     executionLog := [];
     stepCounter := 0;
     resolveCompletion := None;
     rejectCompletion := None;
     promises := [];
     settleCalls := [];
     messageBus := bus3;
     registry := reg' |}.

Definition with_pipelineState (ps : PipelineState) (s : t) : t :=
  {| id := id s; isRunning := isRunning s; pipelineState := ps;
     executionLog := executionLog s; stepCounter := stepCounter s;
     resolveCompletion := resolveCompletion s; rejectCompletion := rejectCompletion s;
     promises := promises s; settleCalls := settleCalls s;
     messageBus := messageBus s; registry := registry s |}.

Definition with_isRunning (b : bool) (s : t) : t :=
  {| id := id s; isRunning := b; pipelineState := pipelineState s;
     executionLog := executionLog s; stepCounter := stepCounter s;
     resolveCompletion := resolveCompletion s; rejectCompletion := rejectCompletion s;
     promises := promises s; settleCalls := settleCalls s;
     messageBus := messageBus s; registry := registry s |}.

Definition with_bus (rb : AgentRegistry.t * Wire.Bus) (s : t) : t :=
  {| id := id s; isRunning := isRunning s; pipelineState := pipelineState s;
     executionLog := executionLog s; stepCounter := stepCounter s;
     resolveCompletion := resolveCompletion s; rejectCompletion := rejectCompletion s;
     promises := promises s; settleCalls := settleCalls s;
     messageBus := rb.2; registry := rb.1 |}.

(** Calling the [resolve] or [reject] function of promise [p] with outcome
    [v]: the call is logged, and it settles the promise if it is pending. *)
Definition settle (p : nat) (v : Promise) (s : t) : t :=
  {| id := id s; isRunning := isRunning s; pipelineState := pipelineState s;
     executionLog := executionLog s; stepCounter := stepCounter s;
     resolveCompletion := resolveCompletion s; rejectCompletion := rejectCompletion s;
     promises := match promises s !! p with
                 | Some Pending => <[p := v]> (promises s)
                 | _ => promises s
                 end;
     settleCalls := settleCalls s ++ [(p, v)];
     messageBus := messageBus s; registry := registry s |}.

Definition logEvent (now : N) (event0 : string) (agentId0 : option string)
    (status0 : string) (message0 : option string) (s : t) : t :=
  let c := (stepCounter s + 1)%N in
  {| id := id s; isRunning := isRunning s; pipelineState := pipelineState s;
     executionLog := executionLog s ++
       [{| ExecutionLogEntry.step := c; ExecutionLogEntry.event := event0;
           ExecutionLogEntry.agentId := agentId0; ExecutionLogEntry.status := status0;
           ExecutionLogEntry.timestamp := now; ExecutionLogEntry.message := message0 |}];
     stepCounter := c;
     resolveCompletion := resolveCompletion s; rejectCompletion := rejectCompletion s;
     promises := promises s; settleCalls := settleCalls s;
     messageBus := messageBus s; registry := registry s |}.

(** [this.publish(type, payload)] for the message types the coordinator
    publishes from [runPipeline] and [checkPipelineCompletion]
    ([PIPELINE_START], [RAW_DATA_RECEIVED], [PIPELINE_COMPLETE]).  The emit may
    call the coordinator's own wrapped handler; for these types [onMessage]
    takes its default branch, which only writes to the console, so the call
    leaves the coordinator as it is. *)
Definition publish (now : N) (ty : MessageBus.MessageType) (payload : Wire.Payload)
    (s : t) : t :=
  with_bus (registry s,
            (MessageBus.publish now (id s) ty payload None (messageBus s)).2) s.

Definition payload_product (p : Wire.Payload) : option Wire.ProductModel :=
  match p with Wire.ProductModelReadyPayload x => Some x | _ => None end.

Definition payload_questionSet (p : Wire.Payload) : option Wire.QuestionSet :=
  match p with Wire.QuestionsGeneratedPayload x => Some x | _ => None end.

Definition payload_blocks (p : Wire.Payload) : option Unknown :=
  match p with Wire.ContentBlocksReadyPayload x => Some x | _ => None end.

Definition payload_pageType (p : Wire.Payload) : option string :=
  match p with Wire.PageAssembledPayload x _ => Some x | _ => None end.

Definition payload_page (p : Wire.Payload) : option Unknown :=
  match p with Wire.PageAssembledPayload _ x => Some x | _ => None end.

Definition payload_agentId (p : Wire.Payload) : option string :=
  match p with
  | Wire.AgentErrorPayload x _ _ => Some x
  | Wire.AgentRegisteredPayload x _ _ => Some x
  | Wire.AgentReadyPayload x _ => Some x
  | _ => None
  end.

Definition payload_error (p : Wire.Payload) : option string :=
  match p with Wire.AgentErrorPayload _ x _ => Some x | _ => None end.

(** The state assignments of a handler up to the point where it returns or
    throws.  A handler that throws does so on reading a property of an
    [undefined] field; the [catch] clause of the wrapped handler then runs
    [handleError], which is the event [EvHandlerError] below. *)
Definition handleProductModelReady (now : N) (m : Wire.Message) (s : t) : t :=
  let ps := pipelineState s in
  let product0 := payload_product (MessageBus.payload m) in
  let s1 := with_pipelineState
              {| status := status ps; startedAt := startedAt ps;
                 completedAt := completedAt ps; rawData := rawData ps;
                 product := product0; questionSet := questionSet ps;
                 contentBlocks := contentBlocks ps; pages := pages ps;
                 expectedPages := expectedPages ps;
                 receivedPages := receivedPages ps |} s in
  match product0 with
  | Some x =>
      logEvent now "product-model-ready" (Some (MessageBus.source m)) "completed"
        (Some ("Product normalized: " +:+ Wire.name x)) s1
  | None => s1
  end.

Definition handleQuestionsGenerated (now : N) (m : Wire.Message) (s : t) : t :=
  let ps := pipelineState s in
  let questionSet0 := payload_questionSet (MessageBus.payload m) in
  let s1 := with_pipelineState
              {| status := status ps; startedAt := startedAt ps;
                 completedAt := completedAt ps; rawData := rawData ps;
                 product := product ps; questionSet := questionSet0;
                 contentBlocks := contentBlocks ps; pages := pages ps;
                 expectedPages := expectedPages ps;
                 receivedPages := receivedPages ps |} s in
  match questionSet0 with
  | Some x =>
      logEvent now "questions-generated" (Some (MessageBus.source m)) "completed"
        (Some ("Generated " +:+ pretty (Wire.totalCount x) +:+ " questions")) s1
  | None => s1
  end.

Definition handleContentBlocksReady (now : N) (m : Wire.Message) (s : t) : t :=
  let ps := pipelineState s in
  logEvent now "content-blocks-ready" (Some (MessageBus.source m)) "completed"
    (Some "Content blocks generated")
    (with_pipelineState
       {| status := status ps; startedAt := startedAt ps;
          completedAt := completedAt ps; rawData := rawData ps;
          product := product ps; questionSet := questionSet ps;
          contentBlocks := payload_blocks (MessageBus.payload m); pages := pages ps;
          expectedPages := expectedPages ps;
          receivedPages := receivedPages ps |} s).

(** [createOutput]; [startedAt!] is the source's assertion that the run has a
    start time, which [runPipeline] sets together with status [running]. *)
Definition createOutput (now : N) (s : t) : Output.t :=
  let ps := pipelineState s in
  let started := default 0%N (startedAt ps) in
  let finished := default now (completedAt ps) in
  {| Output.pages := pages ps;
     Output.executionLog := executionLog s;
     Output.summary :=
       {| Wire.totalEvents := length (executionLog s);
          Wire.startedAt := started;
          Wire.completedAt := finished;
          Wire.durationMs := (Z.of_N finished - Z.of_N started)%Z;
          Wire.pagesGenerated := receivedPages ps |} |}.

(** The assignments [status = 'completed'] and [completedAt = new Date()]. *)
Definition markCompleted (now : N) (s : t) : t :=
  let ps := pipelineState s in
  with_pipelineState
    {| status := completed; startedAt := startedAt ps;
       completedAt := Some now; rawData := rawData ps;
       product := product ps; questionSet := questionSet ps;
       contentBlocks := contentBlocks ps; pages := pages ps;
       expectedPages := expectedPages ps;
       receivedPages := receivedPages ps |} s.

(** The assignment [status = 'failed']. *)
Definition markFailed (s : t) : t :=
  let ps := pipelineState s in
  with_pipelineState
    {| status := failed; startedAt := startedAt ps;
       completedAt := completedAt ps; rawData := rawData ps;
       product := product ps; questionSet := questionSet ps;
       contentBlocks := contentBlocks ps; pages := pages ps;
       expectedPages := expectedPages ps;
       receivedPages := receivedPages ps |} s.

(** The output object as it is when [resolve] receives it.  Its [pages] and
    [executionLog] are not copies: they are the coordinator's own [pages]
    object and log array, so they hold what the coordinator holds at that
    moment (and what it writes to them later, until [runPipeline] replaces
    them). *)
Definition deliveredOutput (output : Output.t) (s : t) : Output.t :=
  {| Output.pages := pages (pipelineState s);
     Output.executionLog := executionLog s;
     Output.summary := Output.summary output |}.

Definition checkPipelineCompletion (now : N) (s : t) : t :=
  let ps := pipelineState s in
  let allReceived := forallb (λ p, set_has (Some p) (receivedPages ps)) (expectedPages ps) in
  if allReceived && bool_decide (status ps = running) then
    let s1 := markCompleted now s in
    let output := createOutput now s1 in
    let s2 := logEvent now "pipeline-complete" (Some (id s1)) "completed"
                (Some ("All " +:+ pretty (length (expectedPages ps)) +:+ " pages generated"))
                s1 in
    let s3 := publish now MessageBus.PIPELINE_COMPLETE
                (Wire.PipelineCompletePayload (pages (pipelineState s2))
                   (Output.summary output)) s2 in
    match resolveCompletion s3 with
    | Some p => settle p (Fulfilled (deliveredOutput output s3)) s3
    | None => s3
    end
  else s.

(** The output that [checkPipelineCompletion] resolves a completing run
    with. *)
Definition resolution (now : N) (s : t) : Output.t :=
  let s1 := markCompleted now s in
  let output := createOutput now s1 in
  let s2 := logEvent now "pipeline-complete" (Some (id s1)) "completed"
              (Some ("All " +:+ pretty (length (expectedPages (pipelineState s)))
                     +:+ " pages generated"))
              s1 in
  deliveredOutput output s2.

Definition store_page (pageType : option string) (page : option Unknown)
    (pg : Wire.Pages) : Wire.Pages :=
  match pageType with
  | Some "faq" =>
      {| Wire.faq := page; Wire.product := Wire.product pg;
         Wire.comparison := Wire.comparison pg |}
  | Some "product" =>
      {| Wire.faq := Wire.faq pg; Wire.product := page;
         Wire.comparison := Wire.comparison pg |}
  | Some "comparison" =>
      {| Wire.faq := Wire.faq pg; Wire.product := Wire.product pg;
         Wire.comparison := page |}
  | _ => pg
  end.

(** The first part of [handlePageAssembled]: store the page, add its type to
    the received set, log the event. *)
Definition recordPage (now : N) (m : Wire.Message) (s : t) : t :=
  let ps := pipelineState s in
  let pageType := payload_pageType (MessageBus.payload m) in
  let page := payload_page (MessageBus.payload m) in
  let s1 := with_pipelineState
              {| status := status ps; startedAt := startedAt ps;
                 completedAt := completedAt ps; rawData := rawData ps;
                 product := product ps; questionSet := questionSet ps;
                 contentBlocks := contentBlocks ps;
                 pages := store_page pageType page (pages ps);
                 expectedPages := expectedPages ps;
                 receivedPages := set_add pageType (receivedPages ps) |} s in
  logEvent now "page-assembled" (Some (MessageBus.source m)) "completed"
    (Some (show pageType +:+ " page assembled")) s1.

Definition handlePageAssembled (now : N) (m : Wire.Message) (s : t) : t :=
  checkPipelineCompletion now (recordPage now m s).

Definition handleAgentError (now : N) (m : Wire.Message) (s : t) : t :=
  let agentId := payload_agentId (MessageBus.payload m) in
  let error := payload_error (MessageBus.payload m) in
  let s1 := logEvent now "agent-error" agentId "failed" error s in
  if bool_decide (status (pipelineState s1) = running) then
    let s2 := markFailed s1 in
    match rejectCompletion s2 with
    | Some p => settle p (Rejected ("Pipeline failed: " +:+ show error)) s2
    | None => s2
    end
  else s1.

Definition onMessage (now : N) (m : Wire.Message) (s : t) : t :=
  match MessageBus.type m with
  | MessageBus.PRODUCT_MODEL_READY => handleProductModelReady now m s
  | MessageBus.QUESTIONS_GENERATED => handleQuestionsGenerated now m s
  | MessageBus.CONTENT_BLOCKS_READY => handleContentBlocksReady now m s
  | MessageBus.PAGE_ASSEMBLED => handlePageAssembled now m s
  | MessageBus.AGENT_ERROR => handleAgentError now m s
  | _ => s
  end.

(** The wrapped handler that [AutonomousAgent.subscribe] registers. *)
Definition wrappedHandler (now : N) (m : Wire.Message) (s : t) : t :=
  if negb (isRunning s) then s else onMessage now m s.

(** What the bus's call of a handler does to the coordinator.  The
    task-assignment handler reaches [runPipeline] through [processTask]; that
    entry is the event [EvRunPipeline] below. *)
Definition deliver (now : N) (s : t)
    (call : MessageBus.Invocation Wire.Payload Wire.Handler) : t :=
  match MessageBus.inv_handler call with
  | Wire.CoordinatorMessageHandler => wrappedHandler now (MessageBus.inv_message call) s
  | _ => s
  end.

(** A publish on the bus, by any component: the emit runs the subscribed
    handlers before [publish] returns. *)
Definition published (now : N) (source : string) (ty : MessageBus.MessageType)
    (payload : Wire.Payload) (options : option MessageBus.PublishOptions) (s : t) : t :=
  let '(_, calls, bus') := MessageBus.publish now source ty payload options (messageBus s) in
  foldl (deliver now) (with_bus (registry s, bus') s) calls.

(** [AutonomousAgent.handleError]. *)
Definition handleError (now : N) (error : string) (m : option Wire.Message) (s : t) : t :=
  published now (id s) MessageBus.AGENT_ERROR
    (Wire.AgentErrorPayload (id s) error (MessageBus.id <$> m)) None s.

Definition runPipeline (now : N) (rawData0 : Unknown)
    (pagesToGenerate : option (list string)) (s : t) : nat * t :=
  let pagesToGenerate0 := default ["faq"; "product"; "comparison"] pagesToGenerate in
  let p := length (promises s) in
  let s1 := {|
    id := id s; isRunning := isRunning s;
    pipelineState := {|
      status := running;
      startedAt := Some now;
      completedAt := None;
      rawData := Some rawData0;
      product := None;
      questionSet := None;
      contentBlocks := None;
      pages := emptyPages;
      expectedPages := foldl (λ acc x, set_add x acc) [] pagesToGenerate0;
      receivedPages := []
    |};
    executionLog := [];
    stepCounter := 0;
    resolveCompletion := Some p;
    rejectCompletion := Some p;
    promises := promises s ++ [Pending];
    settleCalls := settleCalls s;
    messageBus := messageBus s;
    registry := registry s
  |} in
  let s2 := logEvent now "pipeline-start" (Some (id s1)) "triggered"
              (Some "Pipeline started") s1 in
  let s3 := publish now MessageBus.PIPELINE_START
              (Wire.PipelineStartPayload pagesToGenerate0 now) s2 in
  let s4 := publish now MessageBus.RAW_DATA_RECEIVED (Wire.RawDataPayload rawData0) s3 in
  (p, logEvent now "raw-data-published" (Some (id s4)) "completed"
        (Some "Raw data published to message bus") s4).

Definition start (now : N) (s : t) : t :=
  let s1 := with_isRunning true s in
  with_bus (AgentRegistry.updateStatus now (id s1) AgentRegistry.READY
              (registry s1) (messageBus s1)) s1.

Definition stop (now : N) (s : t) : t :=
  let s1 := with_isRunning false s in
  with_bus (AgentRegistry.updateStatus now (id s1) AgentRegistry.OFFLINE
              (registry s1) (messageBus s1)) s1.

Definition getPipelineState (s : t) : PipelineState := pipelineState s.

(** What can happen to a coordinator: its public methods are called, some
    component publishes on the bus or changes its own subscriptions, or the
    [catch] clause of a wrapped handler runs. *)
Inductive Event :=
  | EvStart (now : N)
  | EvStop (now : N)
  | EvRunPipeline (now : N) (rawData0 : Unknown) (pagesToGenerate : option (list string))
  | EvPublish (now : N) (source : string) (ty : MessageBus.MessageType)
      (payload : Wire.Payload) (options : option MessageBus.PublishOptions)
  | EvSubscribe (agentId : string) (ty : MessageBus.MessageType) (tag : string)
  | EvUnsubscribe (agentId : string) (ty : MessageBus.MessageType)
  | EvHandlerError (now : N) (error : string) (m : option Wire.Message).

Definition step (s : t) (e : Event) : t :=
  match e with
  | EvStart now => start now s
  | EvStop now => stop now s
  | EvRunPipeline now raw pgs => (runPipeline now raw pgs s).2
  | EvPublish now src ty p o => published now src ty p o s
  | EvSubscribe a ty tag =>
      with_bus (registry s,
                MessageBus.subscribe a ty (Wire.ExternalHandler tag) (messageBus s)) s
  | EvUnsubscribe a ty =>
      with_bus (registry s, MessageBus.unsubscribe a ty (messageBus s)) s
  | EvHandlerError now err m => handleError now err m s
  end.

Definition steps (s : t) (es : list Event) : t := foldl step s es.

(** A coordinator created on a fresh bus and registry. *)
Definition init (now : N) (id0 : string) : t :=
  new now id0 MessageBus.new AgentRegistry.new.

(** The received set covers the expected set. *)
Definition covers (expected : list string) (received : list (option string)) : Prop :=
  ∀ p, p ∈ expected → Some p ∈ received.

(** A message published with [options] passes the guard of a listener of
    agent [agentId]. *)
Definition addressed (options : option MessageBus.PublishOptions) (agentId : string) : bool :=
  negb (truthy (options ≫= MessageBus.opt_target))
  || bool_decide (options ≫= MessageBus.opt_target = Some agentId).

(** The listeners of a message type that are the coordinator's wrapped
    handler. *)
Definition ownListeners (ty : MessageBus.MessageType) (s : t) : list (string * Wire.Handler) :=
  filter (λ l, l.2 = Wire.CoordinatorMessageHandler)
    (MessageBus.listeners ty (messageBus s)).

(** The coordinator's wrapped handler is subscribed once to each message type
    it declares and to no other, as the constructor leaves it. *)
Definition wired (s : t) : Prop :=
  ∀ ty, ownListeners ty s
        = if bool_decide (ty ∈ SUBSCRIPTIONS)
          then [(id s, Wire.CoordinatorMessageHandler)]
          else [].

(** The promises whose [resolve] or [reject] function has been called. *)
Definition settled (s : t) : list nat := (settleCalls s).*1.

(** What holds of a coordinator between events: it is wired; no promise was
    settled twice; the settled promises exist; and while a run is running, its
    promise is the one the coordinator holds, is pending and was never
    settled. *)
Definition consistent (s : t) : Prop :=
  wired s
  ∧ NoDup (settled s)
  ∧ (∀ p, p ∈ settled s → p < length (promises s))
  ∧ (status (pipelineState s) = running →
     ∃ p, resolveCompletion s = Some p ∧ rejectCompletion s = Some p
          ∧ promises s !! p = Some Pending ∧ p ∉ settled s).

(** A change of the coordinator that leaves the run's status, the promises
    and the coordinator's subscriptions as they were. *)
Definition quiet (s s' : t) : Prop :=
  id s' = id s
  ∧ status (pipelineState s') = status (pipelineState s)
  ∧ resolveCompletion s' = resolveCompletion s
  ∧ rejectCompletion s' = rejectCompletion s
  ∧ promises s' = promises s
  ∧ settleCalls s' = settleCalls s
  ∧ ∀ ty, ownListeners ty s' = ownListeners ty s.

(** The outcome that [handleAgentError] rejects the promise with. *)
Definition rejection (m : Wire.Message) : Promise :=
  Rejected ("Pipeline failed: " +:+ show (payload_error (MessageBus.payload m))).

(** The message that [publish] builds. *)
Definition messageOf (now : N) (source : string) (ty : MessageBus.MessageType)
    (payload : Wire.Payload) (options : option MessageBus.PublishOptions)
    (bus : Wire.Bus) : Wire.Message :=
  (MessageBus.publish now source ty payload options bus).1.1.

(** The coordinator right after the bus has recorded a message, before the
    handlers run. *)
Definition posted (now : N) (source : string) (ty : MessageBus.MessageType)
    (payload : Wire.Payload) (options : option MessageBus.PublishOptions) (s : t) : t :=
  with_bus (registry s, (MessageBus.publish now source ty payload options (messageBus s)).2) s.

(** What holds of a run's progress between events: a completed run has
    received every expected page type, and a running run that expects some
    page type has not received all of them. *)
Definition upToDate (s : t) : Prop :=
  let ps := pipelineState s in
  (status ps = completed → covers (expectedPages ps) (receivedPages ps))
  ∧ (status ps = running → covers (expectedPages ps) (receivedPages ps) →
     expectedPages ps = []).

(** The [resolve] and [reject] functions that the coordinator holds are
    those of the promise created last. *)
Definition current (s : t) : Prop :=
  ∀ q, resolveCompletion s = Some q ∨ rejectCompletion s = Some q →
       S q = length (promises s).

(** The entries of the execution log are numbered 1, 2, 3, ... and the step
    counter is the number of entries. *)
Definition numbered (s : t) : Prop :=
  ExecutionLogEntry.step <$> executionLog s
  = (λ i, N.of_nat i) <$> seq 1 (length (executionLog s))
  ∧ stepCounter s = N.of_nat (length (executionLog s)).

(** [getExecutionLog]. *)
Definition getExecutionLog (s : t) : list ExecutionLogEntry.t := executionLog s.

(** The events of pages arriving one after the other: each one a broadcast
    output-produced message, given by its time, its source and its payload. *)
Definition pagesArrive (l : list (N * string * Wire.Payload)) : list Event :=
  (λ a, EvPublish a.1.1 a.1.2 MessageBus.PAGE_ASSEMBLED a.2 None) <$> l.

(** The set of the page types of these messages, added in their order. *)
Definition arrived (l : list (N * string * Wire.Payload)) : list (option string) :=
  foldl (λ acc a, set_add (payload_pageType a.2) acc) [] l.

(** A run that was started has a start time. *)
Definition dated (s : t) : Prop :=
  status (pipelineState s) ≠ idle → is_Some (startedAt (pipelineState s)).

(** A change of the coordinator that keeps the start time of the run and
    leaves an idle coordinator idle. *)
Definition sameStart (s s' : t) : Prop :=
  startedAt (pipelineState s') = startedAt (pipelineState s)
  ∧ (status (pipelineState s) = idle → status (pipelineState s') = idle).

(** An event that is neither a new run, nor a thrown handler error, nor a
    published page or worker error. *)
Definition progress (e : Event) : Prop :=
  match e with
  | EvRunPipeline _ _ _ | EvHandlerError _ _ _ => False
  | EvPublish _ _ ty _ _ => ty ≠ MessageBus.PAGE_ASSEMBLED ∧ ty ≠ MessageBus.AGENT_ERROR
  | _ => True
  end.

(** No event of the list starts a new run. *)
Definition sameRun (es : list Event) : Prop :=
  Forall (λ e, match e with EvRunPipeline _ _ _ => False | _ => True end) es.

End Orchestrator.

(** ** Sessions used as examples *)

Abbreviation rank k := (TaskQueue.TaskPriority_value (TaskQueue.priority k)).

(** Evaluate the left-hand side of an equation about a closed state. *)
Ltac evaluate_lhs :=
  match goal with
  | |- ?l = _ => let v := eval vm_compute in l in change l with v
  end.

Definition renderer : AgentRegistry.AgentCapability :=
  {| AgentRegistry.name := "render"; AgentRegistry.description := "";
     AgentRegistry.inputTypes := []; AgentRegistry.outputTypes := [] |}.

Definition submitOptions (p : option TaskQueue.TaskPriority) (d : option (list string))
    (r : option Z) : option TaskQueue.SubmitOptions :=
  Some {| TaskQueue.opt_priority := p; TaskQueue.opt_dependencies := d;
          TaskQueue.opt_maxRetries := r; TaskQueue.opt_metadata := None |}.

(** One ready worker and one task with [maxRetries = 2], assigned to it. *)
Definition retrySession : list TaskQueue.Call := [
  TaskQueue.CallRegister 0 "w1" "Worker" [renderer] ∅;
  TaskQueue.CallUpdateStatus 1 "w1" AgentRegistry.READY;
  TaskQueue.CallSubmit 2 "job" "render" "page" (submitOptions None None (Some 2%Z));
  TaskQueue.CallProcessQueue 3
].

(** Three ready workers, and tasks submitted with priorities low, high,
    normal. *)
Definition prioritySession : list TaskQueue.Call := [
  TaskQueue.CallRegister 0 "w1" "Worker" [renderer] ∅;
  TaskQueue.CallRegister 0 "w2" "Worker" [renderer] ∅;
  TaskQueue.CallRegister 0 "w3" "Worker" [renderer] ∅;
  TaskQueue.CallUpdateStatus 1 "w1" AgentRegistry.READY;
  TaskQueue.CallUpdateStatus 1 "w2" AgentRegistry.READY;
  TaskQueue.CallUpdateStatus 1 "w3" AgentRegistry.READY;
  TaskQueue.CallSubmit 2 "job" "render" "low" (submitOptions (Some TaskQueue.LOW) None None);
  TaskQueue.CallSubmit 3 "job" "render" "high" (submitOptions (Some TaskQueue.HIGH) None None);
  TaskQueue.CallSubmit 4 "job" "render" "normal"
    (submitOptions (Some TaskQueue.NORMAL) None None)
].

(** One worker; a first task, completed; a low-priority task that depends on
    it; and a high-priority task. *)
Definition contendedSession : list TaskQueue.Call := [
  TaskQueue.CallRegister 0 "w1" "Worker" [renderer] ∅;
  TaskQueue.CallUpdateStatus 1 "w1" AgentRegistry.READY;
  TaskQueue.CallSubmit 2 "job" "render" "first" None;
  TaskQueue.CallProcessQueue 3;
  TaskQueue.CallCompleteTask 4 "task_2_1" "done";
  TaskQueue.CallSubmit 5 "job" "render" "dependent"
    (submitOptions (Some TaskQueue.LOW) (Some ["task_2_1"]) None);
  TaskQueue.CallSubmit 6 "job" "render" "urgent" (submitOptions (Some TaskQueue.HIGH) None None)
].

(** Two ready workers; a first task, assigned and not completed; a task that
    depends on it. *)
Definition gatedSession : list TaskQueue.Call := [
  TaskQueue.CallRegister 0 "w1" "Worker" [renderer] ∅;
  TaskQueue.CallRegister 0 "w2" "Worker" [renderer] ∅;
  TaskQueue.CallUpdateStatus 1 "w1" AgentRegistry.READY;
  TaskQueue.CallUpdateStatus 1 "w2" AgentRegistry.READY;
  TaskQueue.CallSubmit 2 "job" "render" "first" None;
  TaskQueue.CallProcessQueue 3;
  TaskQueue.CallSubmit 5 "job" "render" "dependent"
    (submitOptions None (Some ["task_2_1"]) None)
].

(** One worker; a first task, completed; a task that depends on it. *)
Definition releasedSession : list TaskQueue.Call := [
  TaskQueue.CallRegister 0 "w1" "Worker" [renderer] ∅;
  TaskQueue.CallUpdateStatus 1 "w1" AgentRegistry.READY;
  TaskQueue.CallSubmit 2 "job" "render" "first" None;
  TaskQueue.CallProcessQueue 3;
  TaskQueue.CallCompleteTask 4 "task_2_1" "done";
  TaskQueue.CallSubmit 5 "job" "render" "dependent"
    (submitOptions None (Some ["task_2_1"]) None)
].

(** Names used unqualified in the properties. *)
Import TaskQueue (assigned, scan_tasks, scan_registry, steady, outranks, ordered,
  minted, sound, wired, lifecycle, skipped).

Import Orchestrator (running, completed, failed, idle, covers, consistent, quiet, settled,
  rejection, messageOf, posted, upToDate, current, numbered, dated, sameStart).

(** * Properties *)

(** ** Message bus: delivery *)

Section BusFacts.

Context {P F : Type}.
Implicit Types (b : MessageBus.t P F) (cs : list (MessageBus.Call P F)).

Lemma listeners_call b c ty :
  MessageBus.listeners ty (MessageBus.call b c)
  = MessageBus.listeners ty b ++ MessageBus.subscribed ty [c].
Proof.
  destruct c as [a ty' h|a ty'|now src ty' p o]; simpl.
  - unfold MessageBus.listeners, MessageBus.subscribe, MessageBus.emitter_on; simpl.
    case_bool_decide as Hty.
    + subst ty'. by rewrite lookup_insert_eq.
    + rewrite lookup_insert_ne by done. by rewrite app_nil_r.
  - rewrite app_nil_r. unfold MessageBus.unsubscribe.
    by destruct (MessageBus.subscriptions b !! ty').
  - by rewrite app_nil_r.
Qed.

Lemma subscribed_app ty cs1 cs2 :
  MessageBus.subscribed ty (cs1 ++ cs2)
  = MessageBus.subscribed ty cs1 ++ MessageBus.subscribed ty cs2.
Proof. apply omap_app. Qed.

Lemma listeners_foldl cs b ty :
  MessageBus.listeners ty (foldl MessageBus.call b cs)
  = MessageBus.listeners ty b ++ MessageBus.subscribed ty cs.
Proof.
  revert b. induction cs as [|c cs IH]; intros b; simpl.
  - by rewrite app_nil_r.
  - rewrite IH, listeners_call. rewrite <- app_assoc. f_equal.
    by rewrite <- subscribed_app.
Qed.

(** The emit reaches the listeners that all subscribe calls made, whatever
    was unsubscribed since. *)
Lemma listeners_run cs ty :
  MessageBus.listeners ty (MessageBus.run cs) = MessageBus.subscribed ty cs.
Proof. unfold MessageBus.run. by rewrite listeners_foldl. Qed.

Lemma delivers_spec (m : MessageBus.AgentMessage P) a :
  MessageBus.delivers m a = true
  ↔ MessageBus.target m = None ∨ MessageBus.target m = Some ""
    ∨ MessageBus.target m = Some a.
Proof.
  unfold MessageBus.delivers, truthy.
  destruct (MessageBus.target m) as [s|]; simpl.
  - destruct (String.eqb_spec s "") as [->|Hne]; simpl.
    + split; [auto|done].
    + rewrite bool_decide_eq_true. split; [auto|].
      intros [?|[?|?]]; congruence.
  - split; auto.
Qed.

Lemma emit_spec ty (m : MessageBus.AgentMessage P) b a h :
  {| MessageBus.inv_agentId := a; MessageBus.inv_handler := h;
     MessageBus.inv_message := m |} ∈ MessageBus.emit ty m b
  ↔ (a, h) ∈ MessageBus.listeners ty b ∧ MessageBus.delivers m a = true.
Proof.
  unfold MessageBus.emit. rewrite list_elem_of_omap. split.
  - intros [[a' h'] [Hin Heq]]. simpl in Heq.
    destruct (MessageBus.delivers m a') eqn:Hd; [|done].
    by simplify_eq.
  - intros [Hin Hd]. exists (a, h). split; [done|]. simpl. by rewrite Hd.
Qed.

Lemma unsubscribe_listeners a ty ty' b :
  MessageBus.listeners ty' (MessageBus.unsubscribe a ty b) = MessageBus.listeners ty' b.
Proof. unfold MessageBus.unsubscribe. by destruct (MessageBus.subscriptions b !! ty). Qed.

(** After [unsubscribe], a publish still makes the handler calls it made
    before. *)
Lemma unsubscribe_keeps_delivery a ty now src ty' (p : P) o b :
  (MessageBus.publish now src ty' p o (MessageBus.unsubscribe a ty b)).1.2
  = (MessageBus.publish now src ty' p o b).1.2.
Proof.
  unfold MessageBus.publish, MessageBus.generateMessageId, MessageBus.emit. simpl.
  rewrite unsubscribe_listeners.
  unfold MessageBus.unsubscribe.
  by destruct (MessageBus.subscriptions b !! ty).
Qed.

End BusFacts.



(** C2 fails on the code: after [subscribe] and then [unsubscribe] of the same
    worker and topic, the worker no longer appears in [getSubscribers], and a
    publish on that topic still invokes the handler it had registered. *)
Theorem unsubscribe_handler_still_invoked :
  let b0 : MessageBus.t Wire.Payload Wire.Handler := MessageBus.new in
  let b1 := MessageBus.subscribe "worker-a" MessageBus.PAGE_ASSEMBLED
              (Wire.ExternalHandler "h") b0 in
  let b2 := MessageBus.unsubscribe "worker-a" MessageBus.PAGE_ASSEMBLED b1 in
  let '(message, calls, _) :=
    MessageBus.publish 0 "source" MessageBus.PAGE_ASSEMBLED (Wire.OtherPayload "x") None b2 in
  MessageBus.getSubscribers MessageBus.PAGE_ASSEMBLED b2 = []
  ∧ calls = [{| MessageBus.inv_agentId := "worker-a";
                MessageBus.inv_handler := Wire.ExternalHandler "h";
                MessageBus.inv_message := message |}].
Proof. vm_compute. done. Qed.

(** ** Agent registry *)

Section RegistryFacts.

Implicit Types (r : AgentRegistry.t) (idx : gmap string (list string)).

Lemma set_delete_idemp (x : string) (s : list string) :
  set_delete x (set_delete x s) = set_delete x s.
Proof.
  unfold set_delete. induction s as [|y s IH]; [done|].
  rewrite filter_cons. case_decide as Hy.
  - rewrite filter_cons. rewrite decide_True by done. by rewrite IH.
  - done.
Qed.

Lemma not_elem_of_set_delete (x : string) (s : list string) : x ∉ set_delete x s.
Proof. unfold set_delete. rewrite list_elem_of_filter. by intros [? _]. Qed.

Lemma elem_of_set_delete (x y : string) (s : list string) :
  y ∈ set_delete x s ↔ y ≠ x ∧ y ∈ s.
Proof. unfold set_delete. by rewrite list_elem_of_filter. Qed.

Lemma unindex_capability_lookup id0 idx c n :
  AgentRegistry.unindex_capability id0 idx c !! n
  = if bool_decide (n = AgentRegistry.name c)
    then set_delete id0 <$> idx !! n
    else idx !! n.
Proof.
  unfold AgentRegistry.unindex_capability.
  case_bool_decide as Hn.
  - subst n. destruct (idx !! AgentRegistry.name c) as [agentSet|] eqn:Hc.
    + by rewrite lookup_insert_eq.
    + by rewrite Hc.
  - destruct (idx !! AgentRegistry.name c) as [agentSet|]; [|done].
    by rewrite lookup_insert_ne.
Qed.

(** The loop of [unregister] removes the id from the index entry of every
    listed capability and leaves every other entry as it was. *)
Lemma unindex_fold_lookup id0 caps idx n :
  foldl (AgentRegistry.unindex_capability id0) idx caps !! n
  = if bool_decide (n ∈ AgentRegistry.name <$> caps)
    then set_delete id0 <$> idx !! n
    else idx !! n.
Proof.
  revert idx. induction caps as [|c caps IH]; intros idx.
  - by rewrite bool_decide_eq_false_2 by apply not_elem_of_nil.
  - rewrite fmap_cons. cbn [foldl].
    rewrite IH, unindex_capability_lookup.
    destruct (decide (n = AgentRegistry.name c)) as [Heq|Hne].
    + rewrite (bool_decide_eq_true_2 _ Heq).
      rewrite (bool_decide_eq_true_2 (n ∈ _ :: _)) by (rewrite Heq; apply list_elem_of_here).
      case_bool_decide; [|done].
      destruct (idx !! n); simpl; [|done].
      by rewrite set_delete_idemp.
    + rewrite (bool_decide_eq_false_2 _ Hne).
      rewrite (bool_decide_ext (n ∈ AgentRegistry.name c :: (AgentRegistry.name <$> caps))
                 (n ∈ AgentRegistry.name <$> caps)); [done|].
      rewrite elem_of_cons. tauto.
Qed.

Lemma keyed_new : AgentRegistry.keyed AgentRegistry.new.
Proof. intros k a. unfold AgentRegistry.new; simpl. by rewrite lookup_empty. Qed.

Lemma keyed_register now id0 ty caps meta r bus :
  AgentRegistry.keyed r → AgentRegistry.keyed (AgentRegistry.register now id0 ty caps meta r bus).1.2.
Proof.
  intros Hk k a. unfold AgentRegistry.register.
  destruct (MessageBus.publish _ _ _ _ _ _) as [[? ?] ?]. simpl.
  rewrite lookup_insert. case_decide as Hid.
  - intros [= <-]. done.
  - apply Hk.
Qed.

Lemma keyed_unregister id0 r : AgentRegistry.keyed r → AgentRegistry.keyed (AgentRegistry.unregister id0 r).2.
Proof.
  intros Hk k a. unfold AgentRegistry.unregister.
  destruct (AgentRegistry.agents r !! id0) as [record|]; simpl; [|apply Hk].
  rewrite lookup_delete. case_decide; [done|apply Hk].
Qed.

Lemma keyed_updateStatus now id0 st r bus :
  AgentRegistry.keyed r → AgentRegistry.keyed (AgentRegistry.updateStatus now id0 st r bus).1.
Proof.
  intros Hk k a. unfold AgentRegistry.updateStatus.
  destruct (AgentRegistry.agents r !! id0) as [record|] eqn:Hrec; [|apply Hk].
  assert (<[id0 := AgentRegistry.with_status st now record]> (AgentRegistry.agents r) !! k
          = Some a → AgentRegistry.id a = k) as Hgo.
  { rewrite lookup_insert. case_decide as Hid.
    - intros [= <-]. subst k. simpl. by apply Hk.
    - apply Hk. }
  case_bool_decide; simpl; apply Hgo.
Qed.

Lemma keyed_heartbeat now id0 r : AgentRegistry.keyed r → AgentRegistry.keyed (AgentRegistry.heartbeat now id0 r).
Proof.
  intros Hk k a. unfold AgentRegistry.heartbeat.
  destruct (AgentRegistry.agents r !! id0) as [record|] eqn:Hrec; [|apply Hk].
  simpl. rewrite lookup_insert. case_decide as Hid.
  - intros [= <-]. subst k. simpl. by apply Hk.
  - apply Hk.
Qed.

Lemma elem_of_findByCapability a n r :
  a ∈ AgentRegistry.findByCapability n r
  ↔ ∃ agentIds i, AgentRegistry.capabilityIndex r !! n = Some agentIds
                  ∧ i ∈ agentIds ∧ AgentRegistry.agents r !! i = Some a.
Proof.
  unfold AgentRegistry.findByCapability.
  destruct (AgentRegistry.capabilityIndex r !! n) as [agentIds|].
  - rewrite list_elem_of_omap. split.
    + intros (i & Hi & Ha). eauto.
    + intros (ids & i & [= <-] & Hi & Ha). eauto.
  - split; [by intros ?%elem_of_nil|]. by intros (? & ? & ? & _).
Qed.

Lemma unregister_agents id0 r :
  AgentRegistry.agents (AgentRegistry.unregister id0 r).2
  = delete id0 (AgentRegistry.agents r).
Proof.
  unfold AgentRegistry.unregister.
  destruct (AgentRegistry.agents r !! id0) as [record|] eqn:Hrec; simpl; [done|].
  symmetry. by apply delete_id.
Qed.

End RegistryFacts.

(** C9.  In a registry whose records are stored under their own ids (which
    [register] ensures), after [unregister id] the result of
    [findByCapability] holds no record with that id, for any capability name
    and so for every capability the worker had advertised. *)
Theorem unregister_findByCapability (r : AgentRegistry.t) (id0 capabilityName : string) :
  AgentRegistry.keyed r →
  id0 ∉ AgentRegistry.id <$>
          AgentRegistry.findByCapability capabilityName (AgentRegistry.unregister id0 r).2.
Proof.
  intros Hk. rewrite list_elem_of_fmap. intros (a & Hid & Ha).
  apply elem_of_findByCapability in Ha as (ids & i & _ & _ & Hlook).
  rewrite unregister_agents in Hlook.
  rewrite lookup_delete in Hlook. case_decide as Hi; [done|].
  apply Hk in Hlook. congruence.
Qed.

Lemma unregister_findByCapability_witness :
  let capability := {| AgentRegistry.name := "summarise";
                       AgentRegistry.description := "";
                       AgentRegistry.inputTypes := [];
                       AgentRegistry.outputTypes := [] |} in
  let r := (AgentRegistry.register 0 "worker-a" "Worker" [capability] ∅
              AgentRegistry.new MessageBus.new).1.2 in
  "worker-a" ∈ AgentRegistry.id <$> AgentRegistry.findByCapability "summarise" r
  ∧ "worker-a" ∉ AgentRegistry.id <$>
       AgentRegistry.findByCapability "summarise" (AgentRegistry.unregister "worker-a" r).2.
Proof.
  split.
  - vm_compute. apply list_elem_of_here.
  - apply (unregister_findByCapability _ "worker-a" "summarise").
    apply keyed_register, keyed_new.
Defined.


(** ** Task queue *)

Section QueueFacts.

Implicit Types (s : TaskQueue.t) (m : gmap string TaskQueue.Task) (k : TaskQueue.Task).

Lemma scan_tasks_refl m : scan_tasks m m.
Proof. intros x. by left. Qed.

Lemma scan_tasks_trans m1 m2 m3 : scan_tasks m1 m2 → scan_tasks m2 m3 → scan_tasks m1 m3.
Proof.
  intros H12 H23 x. destruct (H12 x) as [E12|(k & w & Hk & Hp & E12)].
  - destruct (H23 x) as [E23|(k & w & Hk & Hp & E23)].
    + left. congruence.
    + right. exists k, w. rewrite <- E12. done.
  - destruct (H23 x) as [E23|(k' & w' & Hk' & Hp' & E23)].
    + right. exists k, w. rewrite E23. done.
    + rewrite E12 in Hk'. injection Hk' as <-. discriminate Hp'.
Qed.

Lemma scan_registry_refl now r : scan_registry now r r.
Proof. split; [done|]. intros i. by left. Qed.

Lemma scan_registry_trans now r1 r2 r3 :
  scan_registry now r1 r2 → scan_registry now r2 r3 → scan_registry now r1 r3.
Proof.
  intros [I12 H12] [I23 H23]. split; [congruence|]. intros i.
  destruct (H12 i) as [E12|(a & Ha & Hr & E12)].
  - destruct (H23 i) as [E23|(a & Ha & Hr & E23)].
    + left. congruence.
    + right. exists a. rewrite <- E12. done.
  - destruct (H23 i) as [E23|(a' & Ha' & Hr' & E23)].
    + right. exists a. rewrite E23. done.
    + rewrite E12 in Ha'. injection Ha' as <-. discriminate Hr'.
Qed.

Lemma updateStatus_not_ready now i st r (bus : Wire.Bus) :
  st ≠ AgentRegistry.READY →
  AgentRegistry.updateStatus now i st r bus
  = (match AgentRegistry.agents r !! i with
     | Some record =>
         {| AgentRegistry.agents :=
              <[i := AgentRegistry.with_status st now record]> (AgentRegistry.agents r);
            AgentRegistry.capabilityIndex := AgentRegistry.capabilityIndex r |}
     | None => r
     end, bus).
Proof.
  intros Hst. unfold AgentRegistry.updateStatus.
  destruct (AgentRegistry.agents r !! i); [|done].
  by rewrite bool_decide_eq_false_2.
Qed.

Lemma elem_of_findReadyByCapability a n r :
  a ∈ AgentRegistry.findReadyByCapability n r
  ↔ AgentRegistry.status a = AgentRegistry.READY ∧ a ∈ AgentRegistry.findByCapability n r.
Proof. unfold AgentRegistry.findReadyByCapability. by rewrite list_elem_of_filter. Qed.

(** An agent that [findReadyByCapability] returns is registered under its id
    and is ready. *)
Lemma findReady_head n r a rest :
  AgentRegistry.keyed r →
  AgentRegistry.findReadyByCapability n r = a :: rest →
  AgentRegistry.agents r !! AgentRegistry.id a = Some a
  ∧ AgentRegistry.status a = AgentRegistry.READY.
Proof.
  intros Hk Hf.
  assert (a ∈ AgentRegistry.findReadyByCapability n r) as Hin
    by (rewrite Hf; apply list_elem_of_here).
  apply elem_of_findReadyByCapability in Hin as [Hst Hin].
  apply elem_of_findByCapability in Hin as (ids & i & _ & _ & Ha).
  split; [|done]. by rewrite (Hk _ _ Ha).
Qed.

Lemma assignTask_tasks now tid k a s :
  TaskQueue.tasks (TaskQueue.assignTask now tid k a s)
  = <[tid := assigned k (AgentRegistry.id a)]> (TaskQueue.tasks s).
Proof.
  unfold TaskQueue.assignTask. cbv zeta.
  rewrite updateStatus_not_ready by done. reflexivity.
Qed.

Lemma assignTask_registry now tid k a s :
  TaskQueue.registry (TaskQueue.assignTask now tid k a s)
  = (AgentRegistry.updateStatus now (AgentRegistry.id a) AgentRegistry.BUSY
       (TaskQueue.registry s) (TaskQueue.messageBus s)).1.
Proof. unfold TaskQueue.assignTask. cbv zeta. reflexivity. Qed.

Lemma assignTask_pendingQueue now tid k a s :
  TaskQueue.pendingQueue (TaskQueue.assignTask now tid k a s) = TaskQueue.pendingQueue s.
Proof. reflexivity. Qed.

Lemma assignTask_taskIdCounter now tid k a s :
  TaskQueue.taskIdCounter (TaskQueue.assignTask now tid k a s) = TaskQueue.taskIdCounter s.
Proof. reflexivity. Qed.

Lemma publish_listeners {P F} now src ty (p : P) o (b : MessageBus.t P F) ty' :
  MessageBus.listeners ty' (MessageBus.publish now src ty p o b).2
  = MessageBus.listeners ty' b.
Proof. reflexivity. Qed.

Lemma updateStatus_listeners now i st r (bus : Wire.Bus) ty :
  MessageBus.listeners ty (AgentRegistry.updateStatus now i st r bus).2
  = MessageBus.listeners ty bus.
Proof.
  unfold AgentRegistry.updateStatus.
  destruct (AgentRegistry.agents r !! i); [|done].
  by case_bool_decide.
Qed.

Lemma assignTask_listeners now tid k a s ty :
  MessageBus.listeners ty (TaskQueue.messageBus (TaskQueue.assignTask now tid k a s))
  = MessageBus.listeners ty (TaskQueue.messageBus s).
Proof.
  unfold TaskQueue.assignTask. cbv zeta.
  rewrite updateStatus_not_ready by done. reflexivity.
Qed.

(** The cases of one turn of the loop. *)
Lemma processQueue_step_cases now s acc tid :
  TaskQueue.processQueue_step now (s, acc) tid = (s, acc)
  ∨ ∃ k a rest,
      TaskQueue.tasks s !! tid = Some k
      ∧ TaskQueue.status k = TaskQueue.PENDING
      ∧ TaskQueue.areDependenciesMet (TaskQueue.tasks s) k = true
      ∧ AgentRegistry.findReadyByCapability (TaskQueue.requiredCapability k)
          (TaskQueue.registry s) = a :: rest
      ∧ TaskQueue.processQueue_step now (s, acc) tid
        = (TaskQueue.assignTask now tid k a s, acc ++ [tid]).
Proof.
  unfold TaskQueue.processQueue_step.
  destruct (TaskQueue.tasks s !! tid) as [k|] eqn:Hk; [|by left].
  case_bool_decide as Hp; simpl; [|by left].
  destruct (TaskQueue.areDependenciesMet (TaskQueue.tasks s) k) eqn:Hd; simpl; [|by left].
  destruct (AgentRegistry.findReadyByCapability _ _) as [|a rest] eqn:Hf; [by left|].
  right. by exists k, a, rest.
Qed.


Lemma step_tasks now s acc tid :
  scan_tasks (TaskQueue.tasks s)
    (TaskQueue.tasks (TaskQueue.processQueue_step now (s, acc) tid).1).
Proof.
  destruct (processQueue_step_cases now s acc tid)
    as [->|(k & a & rest & Hk & Hp & _ & _ & ->)]; cbn [fst snd].
  - apply scan_tasks_refl.
  - rewrite assignTask_tasks. intros x. rewrite lookup_insert.
    case_decide as Hx; [|by left]. subst x. right. by exists k, (AgentRegistry.id a).
Qed.

Lemma step_other now s acc tid x :
  x ≠ tid →
  TaskQueue.tasks (TaskQueue.processQueue_step now (s, acc) tid).1 !! x
  = TaskQueue.tasks s !! x.
Proof.
  intros Hx.
  destruct (processQueue_step_cases now s acc tid)
    as [->|(k & a & rest & _ & _ & _ & _ & ->)]; cbn [fst snd]; [done|].
  rewrite assignTask_tasks. by rewrite lookup_insert_ne.
Qed.

Lemma step_frame now s acc tid :
  let s' := (TaskQueue.processQueue_step now (s, acc) tid).1 in
  TaskQueue.pendingQueue s' = TaskQueue.pendingQueue s
  ∧ TaskQueue.taskIdCounter s' = TaskQueue.taskIdCounter s
  ∧ ∀ ty, MessageBus.listeners ty (TaskQueue.messageBus s')
          = MessageBus.listeners ty (TaskQueue.messageBus s).
Proof.
  destruct (processQueue_step_cases now s acc tid)
    as [->|(k & a & rest & _ & _ & _ & _ & ->)]; cbn [fst snd]; [done|].
  split_and!; [done|done|]. intros ty. apply assignTask_listeners.
Qed.

Lemma step_registry now s acc tid :
  AgentRegistry.keyed (TaskQueue.registry s) →
  let s' := (TaskQueue.processQueue_step now (s, acc) tid).1 in
  scan_registry now (TaskQueue.registry s) (TaskQueue.registry s')
  ∧ AgentRegistry.keyed (TaskQueue.registry s').
Proof.
  intros Hkey.
  destruct (processQueue_step_cases now s acc tid)
    as [->|(k & a & rest & _ & _ & _ & Hf & ->)]; cbn [fst snd].
  - split; [apply scan_registry_refl|done].
  - rewrite assignTask_registry. split; [|by apply keyed_updateStatus].
    destruct (findReady_head _ _ _ _ Hkey Hf) as [Ha Hst].
    rewrite updateStatus_not_ready by done. rewrite Ha. cbn [fst].
    split; [done|]. intros i. cbn [AgentRegistry.agents]. rewrite lookup_insert.
    case_decide as Hi; [|by left]. subst i. right. by exists a.
Qed.

Lemma step_acc now s acc tid x :
  x ∈ (TaskQueue.processQueue_step now (s, acc) tid).2 → x ∈ acc ∨ x = tid.
Proof.
  destruct (processQueue_step_cases now s acc tid)
    as [->|(k & a & rest & _ & _ & _ & _ & ->)]; cbn [fst snd]; [by left|].
  rewrite elem_of_app, list_elem_of_singleton. tauto.
Qed.

Lemma step_acc_mono now s acc tid x :
  x ∈ acc → x ∈ (TaskQueue.processQueue_step now (s, acc) tid).2.
Proof.
  destruct (processQueue_step_cases now s acc tid)
    as [->|(k & a & rest & _ & _ & _ & _ & ->)]; cbn [fst snd]; [done|].
  rewrite elem_of_app. tauto.
Qed.

(** What the loop of [processQueue] leaves alone, and how it may change the
    tasks. *)
Lemma scan_fold now l s acc :
  let s' := (foldl (TaskQueue.processQueue_step now) (s, acc) l).1 in
  scan_tasks (TaskQueue.tasks s) (TaskQueue.tasks s')
  ∧ TaskQueue.pendingQueue s' = TaskQueue.pendingQueue s
  ∧ TaskQueue.taskIdCounter s' = TaskQueue.taskIdCounter s
  ∧ ∀ ty, MessageBus.listeners ty (TaskQueue.messageBus s')
          = MessageBus.listeners ty (TaskQueue.messageBus s).
Proof.
  revert s acc. induction l as [|tid l IH]; intros s acc; cbn [foldl].
  - split_and!; [apply scan_tasks_refl|done..].
  - destruct (TaskQueue.processQueue_step now (s, acc) tid) as [s1 acc1] eqn:Hstep.
    pose proof (step_tasks now s acc tid) as Ht.
    pose proof (step_frame now s acc tid) as (Hq & Hc & Hl).
    rewrite Hstep in Ht, Hq, Hc, Hl. cbn [fst snd] in *.
    destruct (IH s1 acc1) as (Ht' & Hq' & Hc' & Hl').
    split_and!; [exact (scan_tasks_trans _ _ _ Ht Ht')|congruence|congruence|].
    intros ty. by rewrite Hl', Hl.
Qed.

Lemma scan_fold_registry now l s acc :
  AgentRegistry.keyed (TaskQueue.registry s) →
  let s' := (foldl (TaskQueue.processQueue_step now) (s, acc) l).1 in
  scan_registry now (TaskQueue.registry s) (TaskQueue.registry s')
  ∧ AgentRegistry.keyed (TaskQueue.registry s').
Proof.
  revert s acc. induction l as [|tid l IH]; intros s acc Hkey; cbn [foldl].
  - split; [apply scan_registry_refl|done].
  - destruct (TaskQueue.processQueue_step now (s, acc) tid) as [s1 acc1] eqn:Hstep.
    pose proof (step_registry now s acc tid Hkey) as [Hr Hk1].
    rewrite Hstep in Hr, Hk1. cbn [fst snd] in *.
    destruct (IH s1 acc1 Hk1) as [Hr' Hk'].
    split; [exact (scan_registry_trans _ _ _ _ Hr Hr')|done].
Qed.

Lemma scan_fold_other now l s acc x :
  x ∉ l →
  TaskQueue.tasks (foldl (TaskQueue.processQueue_step now) (s, acc) l).1 !! x
  = TaskQueue.tasks s !! x.
Proof.
  revert s acc. induction l as [|tid l IH]; intros s acc Hx; cbn [foldl]; [done|].
  apply not_elem_of_cons in Hx as [Hne Hx].
  destruct (TaskQueue.processQueue_step now (s, acc) tid) as [s1 acc1] eqn:Hstep.
  rewrite IH by done.
  pose proof (step_other now s acc tid x Hne) as Ho. by rewrite Hstep in Ho.
Qed.

Lemma scan_fold_acc now l s acc x :
  x ∈ (foldl (TaskQueue.processQueue_step now) (s, acc) l).2 → x ∈ acc ∨ x ∈ l.
Proof.
  revert s acc. induction l as [|tid l IH]; intros s acc; cbn [foldl]; [by left|].
  destruct (TaskQueue.processQueue_step now (s, acc) tid) as [s1 acc1] eqn:Hstep.
  intros [Hin|Hin]%IH.
  - pose proof (step_acc now s acc tid x) as Ha. rewrite Hstep in Ha.
    destruct (Ha Hin) as [?|Heq]; [by left|]. subst x. right. apply list_elem_of_here.
  - right. by apply list_elem_of_further.
Qed.

Lemma scan_fold_acc_mono now l s acc x :
  x ∈ acc → x ∈ (foldl (TaskQueue.processQueue_step now) (s, acc) l).2.
Proof.
  revert s acc. induction l as [|tid l IH]; intros s acc Hin; cbn [foldl]; [done|].
  destruct (TaskQueue.processQueue_step now (s, acc) tid) as [s1 acc1] eqn:Hstep.
  apply IH. pose proof (step_acc_mono now s acc tid x Hin) as Ha.
  by rewrite Hstep in Ha.
Qed.

Lemma processQueue_unfold now s :
  TaskQueue.processQueue now s
  = let r := foldl (TaskQueue.processQueue_step now) (s, []) (TaskQueue.pendingQueue s) in
    TaskQueue.with_pendingQueue
      (filter (λ i, negb (bool_decide (i ∈ r.2))) (TaskQueue.pendingQueue r.1)) r.1.
Proof.
  unfold TaskQueue.processQueue.
  by destruct (foldl _ _ _) as [s' acc'].
Qed.

Lemma processQueue_tasks now s :
  TaskQueue.tasks (TaskQueue.processQueue now s)
  = TaskQueue.tasks (TaskQueue.scanned now s (TaskQueue.pendingQueue s)).
Proof. by rewrite processQueue_unfold. Qed.

Lemma processQueue_registry now s :
  TaskQueue.registry (TaskQueue.processQueue now s)
  = TaskQueue.registry (TaskQueue.scanned now s (TaskQueue.pendingQueue s)).
Proof. by rewrite processQueue_unfold. Qed.

(** [processQueue] changes the tasks as a scan does, leaves the id counter
    and the subscriptions alone, and keeps a sub-list of the backlog. *)
Lemma processQueue_scan now s :
  let s' := TaskQueue.processQueue now s in
  scan_tasks (TaskQueue.tasks s) (TaskQueue.tasks s')
  ∧ sublist (TaskQueue.pendingQueue s') (TaskQueue.pendingQueue s)
  ∧ TaskQueue.taskIdCounter s' = TaskQueue.taskIdCounter s
  ∧ ∀ ty, MessageBus.listeners ty (TaskQueue.messageBus s')
          = MessageBus.listeners ty (TaskQueue.messageBus s).
Proof.
  cbv zeta. rewrite processQueue_unfold. cbv zeta.
  destruct (scan_fold now (TaskQueue.pendingQueue s) s []) as (Ht & Hq & Hc & Hl).
  simpl. split_and!; [done| |done|done].
  rewrite Hq. apply sublist_filter.
Qed.

Lemma processQueue_keyed now s :
  AgentRegistry.keyed (TaskQueue.registry s) →
  scan_registry now (TaskQueue.registry s) (TaskQueue.registry (TaskQueue.processQueue now s))
  ∧ AgentRegistry.keyed (TaskQueue.registry (TaskQueue.processQueue now s)).
Proof.
  intros Hk. rewrite processQueue_registry.
  apply (scan_fold_registry now _ s [] Hk).
Qed.

End QueueFacts.

Section QueueGating.

Implicit Types (s : TaskQueue.t) (m : gmap string TaskQueue.Task) (k : TaskQueue.Task).

(** *** Dependency gating *)

Lemma forallb_false {A} (f : A → bool) (l : list A) :
  forallb f l = false ↔ ∃ x, x ∈ l ∧ f x = false.
Proof.
  induction l as [|y l IH]; cbn [forallb].
  - split; [done|]. by intros (x & ?%elem_of_nil & _).
  - rewrite andb_false_iff, IH. split.
    + intros [Hy|(x & Hx & Hf)].
      * exists y. split; [apply list_elem_of_here|done].
      * exists x. split; [by apply list_elem_of_further|done].
    + intros (x & [->|Hx]%elem_of_cons & Hf); [by left|]. right. eauto.
Qed.

Lemma forallb_true {A} (f : A → bool) (l : list A) :
  forallb f l = true ↔ ∀ x, x ∈ l → f x = true.
Proof.
  rewrite forallb_forall. apply forall_proper. intros x.
  by rewrite list_elem_of_In.
Qed.

Lemma areDependenciesMet_false m k :
  TaskQueue.areDependenciesMet m k = false
  ↔ ∃ d, d ∈ TaskQueue.dependencies k
         ∧ ∀ kd, m !! d = Some kd → TaskQueue.status kd ≠ TaskQueue.COMPLETED.
Proof.
  unfold TaskQueue.areDependenciesMet. rewrite forallb_false.
  apply exist_proper. intros d. apply and_iff_compat_l.
  destruct (m !! d) as [kd|].
  - rewrite bool_decide_eq_false. split.
    + intros Hn kd' [= <-]. done.
    + intros Hn. by apply Hn.
  - split; [|done]. by intros _ kd.
Qed.

Lemma areDependenciesMet_true m k :
  TaskQueue.areDependenciesMet m k = true
  ↔ ∀ d, d ∈ TaskQueue.dependencies k
         → ∃ kd, m !! d = Some kd ∧ TaskQueue.status kd = TaskQueue.COMPLETED.
Proof.
  unfold TaskQueue.areDependenciesMet. rewrite forallb_true.
  apply forall_proper. intros d. apply imp_iff_compat_l.
  destruct (m !! d) as [kd|].
  - rewrite bool_decide_eq_true. split.
    + intros Hc. by exists kd.
    + by intros (kd' & [= <-] & Hc).
  - split; [done|]. by intros (kd & ? & _).
Qed.

Lemma deps_unmet_scan m m' k :
  scan_tasks m m' →
  TaskQueue.areDependenciesMet m k = false → TaskQueue.areDependenciesMet m' k = false.
Proof.
  intros Hs. rewrite !areDependenciesMet_false. intros (d & Hd & Hn).
  exists d. split; [done|]. intros kd Hkd.
  destruct (Hs d) as [E|(k0 & w & Hk0 & Hp & E)].
  - apply Hn. congruence.
  - rewrite E in Hkd. injection Hkd as <-. done.
Qed.

Lemma deps_met_scan m m' k :
  scan_tasks m m' →
  TaskQueue.areDependenciesMet m k = true → TaskQueue.areDependenciesMet m' k = true.
Proof.
  intros Hs. rewrite !areDependenciesMet_true. intros Hall d Hd.
  destruct (Hall d Hd) as (kd & Hkd & Hc).
  destruct (Hs d) as [E|(k0 & w & Hk0 & Hp & E)].
  - exists kd. by rewrite E.
  - rewrite Hkd in Hk0. injection Hk0 as <-. congruence.
Qed.

Lemma step_unmet now s acc t tid k :
  TaskQueue.tasks s !! tid = Some k →
  TaskQueue.areDependenciesMet (TaskQueue.tasks s) k = false →
  let r := TaskQueue.processQueue_step now (s, acc) t in
  TaskQueue.tasks r.1 !! tid = Some k
  ∧ TaskQueue.areDependenciesMet (TaskQueue.tasks r.1) k = false
  ∧ (tid ∈ r.2 → tid ∈ acc).
Proof.
  intros Hk Hd. cbv zeta.
  pose proof (step_tasks now s acc t) as Hscan.
  destruct (processQueue_step_cases now s acc t)
    as [->|(k0 & a & rest & Hk0 & Hp & Hd0 & Hf & Heq)]; cbn [fst snd]; [done|].
  rewrite Heq in Hscan |- *. cbn [fst snd] in *.
  destruct (decide (tid = t)) as [->|Hne].
  - rewrite Hk in Hk0. injection Hk0 as <-. congruence.
  - split_and!.
    + rewrite assignTask_tasks, lookup_insert_ne; done.
    + by eapply deps_unmet_scan.
    + rewrite elem_of_app, list_elem_of_singleton. intros [?|?]; done.
Qed.

Lemma scan_fold_unmet now l s acc tid k :
  TaskQueue.tasks s !! tid = Some k →
  TaskQueue.areDependenciesMet (TaskQueue.tasks s) k = false →
  let r := foldl (TaskQueue.processQueue_step now) (s, acc) l in
  TaskQueue.tasks r.1 !! tid = Some k ∧ (tid ∈ r.2 → tid ∈ acc).
Proof.
  revert s acc. induction l as [|t l IH]; intros s acc Hk Hd; cbn [foldl]; [done|].
  destruct (step_unmet now s acc t tid k Hk Hd) as (Hk1 & Hd1 & Hacc1).
  destruct (TaskQueue.processQueue_step now (s, acc) t) as [s1 acc1].
  cbn [fst snd] in *.
  destruct (IH s1 acc1 Hk1 Hd1) as [Hk2 Hacc2].
  split; [done|]. intros Hin. by apply Hacc1, Hacc2.
Qed.

(** A task with a dependency that is unknown or not completed is left as it
    is by [processQueue], and stays in the backlog. *)
Lemma processQueue_unmet now s tid k :
  TaskQueue.tasks s !! tid = Some k →
  TaskQueue.areDependenciesMet (TaskQueue.tasks s) k = false →
  TaskQueue.tasks (TaskQueue.processQueue now s) !! tid = Some k
  ∧ (tid ∈ TaskQueue.pendingQueue s →
     tid ∈ TaskQueue.pendingQueue (TaskQueue.processQueue now s)).
Proof.
  intros Hk Hd. rewrite processQueue_unfold. cbv zeta.
  destruct (scan_fold_unmet now (TaskQueue.pendingQueue s) s [] tid k Hk Hd) as [Hk' Hacc].
  destruct (scan_fold now (TaskQueue.pendingQueue s) s []) as (_ & Hq & _).
  split; [done|]. intros Hin. cbn [TaskQueue.pendingQueue TaskQueue.with_pendingQueue].
  rewrite Hq. apply list_elem_of_filter. split; [|done].
  rewrite negb_True, bool_decide_spec. intros Hin'. apply Hacc in Hin'.
  by apply elem_of_nil in Hin'.
Qed.

Lemma assignments_assignTask now tid k a s :
  TaskQueue.assignments (TaskQueue.assignTask now tid k a s)
  = TaskQueue.assignments s ++ [(TaskQueue.id k, Some (AgentRegistry.id a))].
Proof.
  unfold TaskQueue.assignTask. cbv zeta.
  rewrite updateStatus_not_ready by done.
  unfold TaskQueue.assignments, MessageBus.publish, MessageBus.generateMessageId.
  cbn. rewrite omap_app. reflexivity.
Qed.

Lemma scan_fold_assignments now l s acc :
  ∃ more, TaskQueue.assignments (foldl (TaskQueue.processQueue_step now) (s, acc) l).1
          = TaskQueue.assignments s ++ more.
Proof.
  revert s acc. induction l as [|t l IH]; intros s acc; cbn [foldl].
  - exists []. by rewrite app_nil_r.
  - destruct (processQueue_step_cases now s acc t)
      as [->|(k0 & a & rest & _ & _ & _ & _ & ->)]; [apply IH|].
    destruct (IH (TaskQueue.assignTask now t k0 a s) (acc ++ [t])) as [more ->].
    rewrite assignments_assignTask, <- app_assoc. eauto.
Qed.

(** When the scan reaches a pending task whose dependencies are all
    completed and finds a ready agent for it, the task is assigned to the
    first such agent, the agent is busy, the task leaves the backlog and the
    assignment message is targeted at the agent. *)
Lemma processQueue_assigns now s before tid after k a rest :
  TaskQueue.pendingQueue s = before ++ tid :: after →
  tid ∉ before →
  AgentRegistry.keyed (TaskQueue.registry s) →
  TaskQueue.tasks s !! tid = Some k →
  TaskQueue.status k = TaskQueue.PENDING →
  TaskQueue.areDependenciesMet (TaskQueue.tasks s) k = true →
  AgentRegistry.findReadyByCapability (TaskQueue.requiredCapability k)
    (TaskQueue.registry (TaskQueue.scanned now s before)) = a :: rest →
  let s' := TaskQueue.processQueue now s in
  TaskQueue.tasks s' !! tid = Some (assigned k (AgentRegistry.id a))
  ∧ AgentRegistry.agents (TaskQueue.registry s') !! (AgentRegistry.id a)
    = Some (AgentRegistry.with_status AgentRegistry.BUSY now a)
  ∧ (tid ∉ TaskQueue.pendingQueue s')
  ∧ (TaskQueue.id k, Some (AgentRegistry.id a)) ∈ TaskQueue.assignments s'.
Proof.
  intros Hq Hnotin Hkey Hk Hp Hd Hf. cbv zeta.
  rewrite processQueue_unfold. cbv zeta. rewrite Hq, foldl_app. cbn [foldl].
  unfold TaskQueue.scanned in Hf.
  pose proof (scan_fold now before s []) as (Hscan1 & _ & _ & _).
  pose proof (scan_fold_registry now before s [] Hkey) as [_ Hkey1].
  pose proof (scan_fold_other now before s [] tid Hnotin) as Hk1.
  destruct (foldl (TaskQueue.processQueue_step now) (s, []) before) as [s1 acc1].
  cbn [fst snd] in *. rewrite Hk in Hk1.
  assert (TaskQueue.processQueue_step now (s1, acc1) tid
          = (TaskQueue.assignTask now tid k a s1, acc1 ++ [tid])) as Hstep.
  { unfold TaskQueue.processQueue_step. rewrite Hk1.
    rewrite (bool_decide_eq_true_2 _ Hp). cbn [negb].
    rewrite (deps_met_scan _ _ _ Hscan1 Hd). cbn [negb]. by rewrite Hf. }
  rewrite Hstep. set (s2 := TaskQueue.assignTask now tid k a s1).
  destruct (findReady_head _ _ _ _ Hkey1 Hf) as [Ha Hst].
  assert (AgentRegistry.keyed (TaskQueue.registry s2)) as Hkey2.
  { unfold s2. rewrite assignTask_registry. by apply keyed_updateStatus. }
  pose proof (scan_fold now after s2 (acc1 ++ [tid])) as (Hscan3 & Hq3 & _ & _).
  pose proof (scan_fold_registry now after s2 (acc1 ++ [tid]) Hkey2) as [[_ Hreg3] _].
  pose proof (scan_fold_acc_mono now after s2 (acc1 ++ [tid]) tid) as Hacc3.
  pose proof (scan_fold_assignments now after s2 (acc1 ++ [tid])) as [more Hmsgs].
  destruct (foldl (TaskQueue.processQueue_step now) (s2, acc1 ++ [tid]) after) as [s3 acc3].
  cbn [fst snd] in *.
  cbn [TaskQueue.tasks TaskQueue.registry TaskQueue.pendingQueue TaskQueue.with_pendingQueue].
  split_and!.
  - destruct (Hscan3 tid) as [E|(k' & w & Hk' & Hp' & _)].
    + rewrite E. unfold s2. by rewrite assignTask_tasks, lookup_insert_eq.
    + unfold s2 in Hk'. rewrite assignTask_tasks, lookup_insert_eq in Hk'.
      injection Hk' as <-. discriminate Hp'.
  - assert (AgentRegistry.agents (TaskQueue.registry s2) !! (AgentRegistry.id a)
            = Some (AgentRegistry.with_status AgentRegistry.BUSY now a)) as Ha2.
    { unfold s2. rewrite assignTask_registry, updateStatus_not_ready by done.
      rewrite Ha. cbn. by rewrite lookup_insert_eq. }
    destruct (Hreg3 (AgentRegistry.id a)) as [E|(a0 & Ha0 & Hr0 & _)].
    + by rewrite E.
    + rewrite Ha2 in Ha0. injection Ha0 as <-. discriminate Hr0.
  - rewrite list_elem_of_filter, negb_True, bool_decide_spec.
    intros [Hn _]. apply Hn, Hacc3. rewrite elem_of_app, list_elem_of_singleton. by right.
  - unfold TaskQueue.assignments in *. cbn [TaskQueue.messageBus TaskQueue.with_pendingQueue].
    rewrite Hmsgs. unfold s2.
    pose proof (assignments_assignTask now tid k a s1) as Hm. unfold TaskQueue.assignments in Hm.
    rewrite Hm. rewrite !elem_of_app, list_elem_of_singleton. left. by right.
Qed.

End QueueGating.

Section QueueOrder.

Implicit Types (s : TaskQueue.t) (m : gmap string TaskQueue.Task) (k : TaskQueue.Task)
  (q : list string).

(** *** Priority order of the backlog *)

Lemma steady_refl m : steady m m.
Proof. intros x. by destruct (m !! x). Qed.

Lemma steady_trans m1 m2 m3 : steady m1 m2 → steady m2 m3 → steady m1 m3.
Proof.
  intros H12 H23 x. specialize (H12 x). specialize (H23 x).
  destruct (m1 !! x), (m2 !! x), (m3 !! x); try done. congruence.
Qed.

Lemma steady_scan m m' : scan_tasks m m' → steady m m'.
Proof.
  intros Hs x. destruct (Hs x) as [->|(k & w & -> & _ & ->)]; [|done].
  by destruct (m !! x).
Qed.

(** Assigning to the mutable fields of a stored task. *)
Lemma steady_assign m x k st w sa ca res err rc :
  m !! x = Some k →
  steady m (<[x := TaskQueue.assign k st w sa ca res err rc]> m).
Proof.
  intros Hk y. rewrite lookup_insert. case_decide as Hy.
  - subst y. by rewrite Hk.
  - by destruct (m !! y).
Qed.

Lemma steady_outranks m m' x y : steady m m' → outranks m x y → outranks m' x y.
Proof.
  intros Hs (kx & ky & Hx & Hy & Hle).
  pose proof (Hs x) as Hsx. pose proof (Hs y) as Hsy. rewrite Hx in Hsx. rewrite Hy in Hsy.
  destruct (m' !! x) as [kx'|] eqn:Hx'; [|done].
  destruct (m' !! y) as [ky'|] eqn:Hy'; [|done].
  exists kx', ky'. split_and!; [done..|]. by rewrite Hsx, Hsy.
Qed.

Lemma steady_known m m' x : steady m m' → is_Some (m !! x) ↔ is_Some (m' !! x).
Proof.
  intros Hs. specialize (Hs x).
  destruct (m !! x), (m' !! x); try done; split; intros [? ?]; done.
Qed.

Lemma Forall_sublist {A} (Q : A → Prop) (l1 l2 : list A) :
  sublist l1 l2 → Forall Q l2 → Forall Q l1.
Proof.
  rewrite !Forall_forall. intros Hsub Hall x Hx. apply Hall.
  by eapply elem_of_sublist.
Qed.

Lemma StronglySorted_sublist {A} (R : relation A) (l1 l2 : list A) :
  sublist l1 l2 → StronglySorted R l2 → StronglySorted R l1.
Proof.
  induction 1 as [|x l1 l2 Hsub IH|x l1 l2 Hsub IH]; intros Hss; [done|..].
  - apply StronglySorted_inv in Hss as [Hss Hall]. constructor; [by apply IH|].
    by eapply Forall_sublist.
  - apply StronglySorted_inv in Hss as [Hss _]. by apply IH.
Qed.

(** The order of the backlog survives a change of state that keeps the task
    ids and priorities and drops entries from the backlog. *)
Lemma ordered_steady s s' :
  steady (TaskQueue.tasks s) (TaskQueue.tasks s') →
  sublist (TaskQueue.pendingQueue s') (TaskQueue.pendingQueue s) →
  ordered s → ordered s'.
Proof.
  intros Hs Hsub [Hsorted Hknown]. split.
  - eapply StronglySorted_sublist; [done|].
    clear Hsub Hknown. induction Hsorted as [|x l Hss IH Hall]; constructor; [done|].
    eapply Forall_impl; [done|]. intros y. by apply steady_outranks.
  - eapply Forall_sublist; [done|].
    eapply Forall_impl; [done|]. intros x. cbv beta. by rewrite (steady_known _ _ x Hs).
Qed.

Lemma elem_of_enqueue_at m k tid q x :
  x ∈ TaskQueue.enqueue_at m k tid q ↔ x = tid ∨ x ∈ q.
Proof.
  induction q as [|y q IH]; cbn [TaskQueue.enqueue_at].
  - rewrite list_elem_of_singleton. split; [by left|]. by intros [?|?%elem_of_nil].
  - destruct (m !! y) as [ky|].
    + case_bool_decide.
      * by rewrite elem_of_cons.
      * rewrite !elem_of_cons, IH. tauto.
    + rewrite !elem_of_cons, IH. tauto.
Qed.

(** Where [enqueue] puts the id: after the longest prefix of entries that are
    not strictly lower in priority, that is, right before the first entry
    that is. *)
Lemma enqueue_at_position m k tid q :
  ∃ front back,
    q = front ++ back
    ∧ TaskQueue.enqueue_at m k tid q = front ++ tid :: back
    ∧ Forall (λ x, ∀ kx, m !! x = Some kx → (rank k ≤ rank kx)%Z) front
    ∧ match back with
      | [] => True
      | y :: _ => ∃ ky, m !! y = Some ky ∧ (rank ky < rank k)%Z
      end.
Proof.
  induction q as [|y q (front & back & Hq & He & Hfront & Hback)];
    cbn [TaskQueue.enqueue_at].
  - by exists [], [].
  - destruct (m !! y) as [ky|] eqn:Hy.
    + case_bool_decide as Hgt.
      * exists [], (y :: q). split_and!; [done|done|constructor|].
        exists ky. split; [done|lia].
      * exists (y :: front), back. rewrite Hq at 1. rewrite He.
        split_and!; [done|done| |done].
        constructor; [|done]. intros kx. rewrite Hy. intros [= <-]. lia.
    + exists (y :: front), back. rewrite Hq at 1. rewrite He.
      split_and!; [done|done| |done].
      constructor; [|done]. intros kx. by rewrite Hy.
Qed.

Lemma enqueue_at_sorted m k tid q :
  m !! tid = Some k →
  StronglySorted (outranks m) q →
  Forall (λ x, is_Some (m !! x)) q →
  StronglySorted (outranks m) (TaskQueue.enqueue_at m k tid q).
Proof.
  intros Hk Hss Hknown. induction Hss as [|y q Hss IH Hall]; cbn [TaskQueue.enqueue_at].
  - repeat constructor.
  - apply Forall_cons in Hknown as [Hy Hknown]. destruct Hy as [ky Hy]. rewrite Hy.
    case_bool_decide as Hgt.
    + constructor; [by constructor|]. constructor.
      * exists k, ky. split_and!; [done..|lia].
      * eapply Forall_impl; [exact Hall|]. intros z (ky' & kz & Hy' & Hz & Hle).
        rewrite Hy in Hy'. injection Hy' as <-.
        exists k, kz. split_and!; [done..|lia].
    + constructor; [by apply IH|].
      apply Forall_forall. intros z [->|Hz]%elem_of_enqueue_at.
      * exists ky, k. split_and!; [done..|lia].
      * by eapply Forall_forall in Hall.
Qed.

Lemma enqueue_ordered tid s :
  ordered s → ordered (TaskQueue.enqueue tid s).
Proof.
  intros [Hss Hknown]. unfold TaskQueue.enqueue.
  destruct (TaskQueue.tasks s !! tid) as [k|] eqn:Hk; [|done].
  split; cbn [TaskQueue.tasks TaskQueue.pendingQueue TaskQueue.with_pendingQueue].
  - by apply enqueue_at_sorted.
  - apply Forall_forall. intros z [->|Hz]%elem_of_enqueue_at; [by rewrite Hk|].
    by eapply Forall_forall in Hknown.
Qed.

End QueueOrder.

Section TaskIds.

(** *** Generated task ids *)

Lemma pretty_N_char_plain x : pretty_N_char x ≠ "_"%char.
Proof. unfold pretty_N_char. by repeat case_match. Qed.

Lemma pretty_N_go_plain x s : plain s → plain (pretty_N_go x s).
Proof.
  revert s. induction (N.lt_wf_0 x) as [x _ IH]; intros s Hs.
  destruct (decide (x = 0)%N) as [->|Hx].
  - by rewrite pretty_N_go_0.
  - rewrite pretty_N_go_step by lia. apply IH.
    + apply N.div_lt; lia.
    + split; [apply pretty_N_char_plain|done].
Qed.

Lemma pretty_N_plain (x : N) : plain (pretty x).
Proof.
  unfold pretty, pretty_N. case_decide.
  - repeat split; discriminate.
  - by apply pretty_N_go_plain.
Qed.

(** Two strings without underscores, each followed by an underscore and a
    rest, are equal only if the parts are. *)
Lemma plain_split d1 d2 r1 r2 :
  plain d1 → plain d2 →
  d1 +:+ String "_" r1 = d2 +:+ String "_" r2 → d1 = d2 ∧ r1 = r2.
Proof.
  revert d2. induction d1 as [|a d1 IH]; intros [|b d2] H1 H2; cbn.
  - by intros [= ->].
  - intros [= <- _]. by destruct H2.
  - intros [= -> _]. by destruct H1.
  - intros [= -> Heq]. destruct H1 as [_ H1], H2 as [_ H2].
    destruct (IH d2 H1 H2 Heq) as [-> ->]. done.
Qed.

Lemma generateTaskId_inj now1 c1 now2 c2 :
  TaskQueue.generateTaskId now1 c1 = TaskQueue.generateTaskId now2 c2 →
  now1 = now2 ∧ c1 = c2.
Proof.
  unfold TaskQueue.generateTaskId. intros Heq.
  change ("task_" +:+ ?x) with (String "t" (String "a" (String "s" (String "k" (String "_" x))))) in Heq.
  injection Heq as Heq.
  change ("_" +:+ ?x) with (String "_" x) in Heq.
  apply plain_split in Heq as [Hn Hc]; [|apply pretty_N_plain..].
  split; by apply (inj pretty).
Qed.

End TaskIds.

Section QueueInvariant.

Implicit Types (s : TaskQueue.t) (m : gmap string TaskQueue.Task) (k : TaskQueue.Task)
  (q : list string).

(** *** The backlog is ordered in every reachable state *)

Lemma sound_steady s s' :
  steady (TaskQueue.tasks s) (TaskQueue.tasks s') →
  sublist (TaskQueue.pendingQueue s') (TaskQueue.pendingQueue s) →
  TaskQueue.taskIdCounter s' = TaskQueue.taskIdCounter s →
  sound s → sound s'.
Proof.
  intros Hs Hsub Hc [Ho Hm]. split; [by eapply ordered_steady|].
  intros x Hx. rewrite Hc. apply Hm. by rewrite (steady_known _ _ x Hs).
Qed.

(** A state that differs in the bus and the registry only. *)
Lemma sound_frame s s' :
  TaskQueue.tasks s' = TaskQueue.tasks s →
  TaskQueue.pendingQueue s' = TaskQueue.pendingQueue s →
  TaskQueue.taskIdCounter s' = TaskQueue.taskIdCounter s →
  sound s → sound s'.
Proof.
  intros Ht Hq Hc. apply sound_steady; [|by rewrite Hq|done].
  rewrite Ht. apply steady_refl.
Qed.

Lemma sound_enqueue tid s : sound s → sound (TaskQueue.enqueue tid s).
Proof.
  intros [Ho Hm]. split; [by apply enqueue_ordered|].
  unfold TaskQueue.enqueue. by destruct (TaskQueue.tasks s !! tid).
Qed.

Lemma sound_processQueue now s : sound s → sound (TaskQueue.processQueue now s).
Proof.
  destruct (processQueue_scan now s) as (Ht & Hq & Hc & _).
  apply sound_steady; [by apply steady_scan|done..].
Qed.

Lemma sound_assign s tid k st w sa ca res err rc :
  TaskQueue.tasks s !! tid = Some k →
  sound s →
  sound (TaskQueue.with_tasks
           (<[tid := TaskQueue.assign k st w sa ca res err rc]> (TaskQueue.tasks s)) s).
Proof. intros Hk. apply sound_steady; [by apply steady_assign|done..]. Qed.

Lemma sound_handleTaskCompletion now tid res s :
  sound s → sound (TaskQueue.handleTaskCompletion now tid res s).
Proof.
  intros Hs. unfold TaskQueue.handleTaskCompletion.
  destruct (TaskQueue.tasks s !! tid) as [k|] eqn:Hk; [|done].
  match goal with
  | |- sound (let '(task1, s1) := ?X in _) =>
      assert (sound X.2) as Hs1; [|destruct X as [task1 s1]]
  end.
  { destruct (Wire.success res); cbn [snd]; [by apply sound_assign|].
    case_bool_decide; cbn [snd]; [|by apply sound_assign].
    by apply sound_enqueue, sound_assign. }
  cbn [snd] in Hs1. apply sound_processQueue.
  destruct (TaskQueue.assignedTo task1) as [worker|]; [|done].
  destruct (truthy (Some worker)); [|done].
  revert Hs1. by apply sound_frame.
Qed.

Lemma sound_deliver now s call : sound s → sound (TaskQueue.deliver now s call).
Proof.
  intros Hs. unfold TaskQueue.deliver.
  destruct (MessageBus.inv_handler call); try done.
  destruct (MessageBus.payload _); try done.
  by apply sound_handleTaskCompletion.
Qed.

Lemma sound_published now src ty p o s :
  sound s → sound (TaskQueue.published now src ty p o s).
Proof.
  intros Hs. unfold TaskQueue.published.
  destruct (MessageBus.publish _ _ _ _ _ _) as [[msg calls] bus'].
  assert (sound (TaskQueue.with_messageBus bus' s)) as Hs' by (revert Hs; by apply sound_frame).
  revert Hs'. generalize (TaskQueue.with_messageBus bus' s).
  induction calls as [|c calls IH]; intros s0 Hs0; cbn [foldl]; [done|].
  by apply IH, sound_deliver.
Qed.

Lemma sound_publishCompleted now src tid res s :
  sound s → sound (TaskQueue.publishCompleted now src tid res s).
Proof. apply sound_published. Qed.

Lemma sound_submit now ty cap p o s : sound s → sound (TaskQueue.submit now ty cap p o s).2.
Proof.
  intros [[Hss Hknown] Hm]. unfold TaskQueue.submit. cbv zeta. cbn [snd].
  set (c := (TaskQueue.taskIdCounter s + 1)%N).
  assert (TaskQueue.tasks s !! TaskQueue.generateTaskId now c = None) as Hfresh.
  { destruct (TaskQueue.tasks s !! TaskQueue.generateTaskId now c) eqn:Hl; [|done].
    destruct (Hm (TaskQueue.generateTaskId now c)) as (now' & c' & Heq & Hle); [by rewrite Hl|].
    apply generateTaskId_inj in Heq as [_ <-]. unfold c in Hle. lia. }
  apply sound_enqueue. cbn [TaskQueue.id]. split; [split|];
    cbn [TaskQueue.tasks TaskQueue.pendingQueue TaskQueue.taskIdCounter].
  - clear Hknown. induction Hss as [|x l Hss IH Hall]; constructor; [done|].
    eapply Forall_impl; [exact Hall|]. intros y (kx & ky & Hx & Hy & Hle).
    exists kx, ky. split_and!; [| |done].
    + rewrite lookup_insert. case_decide; [congruence|done].
    + rewrite lookup_insert. case_decide; [congruence|done].
  - eapply Forall_impl; [exact Hknown|]. intros x [kx Hx]. cbv beta.
    rewrite lookup_insert. case_decide; [congruence|by rewrite Hx].
  - intros x. cbn [TaskQueue.tasks TaskQueue.taskIdCounter].
    rewrite lookup_insert. case_decide as Hx.
    + subst x. intros _. exists now, c. split; [done|lia].
    + intros Hsome. destruct (Hm x Hsome) as (now' & c' & -> & Hle).
      exists now', c'. split; [done|]. unfold c. lia.
Qed.

Lemma sound_startTask now tid s : sound s → sound (TaskQueue.startTask now tid s).
Proof.
  intros Hs. unfold TaskQueue.startTask.
  destruct (TaskQueue.tasks s !! tid) as [k|] eqn:Hk; [|done].
  case_bool_decide; [|done]. by apply sound_assign.
Qed.

Lemma sound_new bus reg : sound (TaskQueue.new bus reg).
Proof.
  split; [split|].
  - constructor.
  - constructor.
  - intros x [k Hk]. cbn in Hk. by rewrite lookup_empty in Hk.
Qed.

Lemma sound_call s c : sound s → sound (TaskQueue.call s c).
Proof.
  intros Hs. destruct c; cbn [TaskQueue.call].
  - by apply sound_submit.
  - by apply sound_processQueue.
  - by apply sound_startTask.
  - unfold TaskQueue.completeTask. destruct (TaskQueue.tasks s !! taskId); [|done].
    by apply sound_publishCompleted.
  - unfold TaskQueue.failTask. destruct (TaskQueue.tasks s !! taskId); [|done].
    by apply sound_publishCompleted.
  - destruct (AgentRegistry.register _ _ _ _ _ _ _) as [[? r] b].
    revert Hs. by apply sound_frame.
  - revert Hs. by apply sound_frame.
  - revert Hs. by apply sound_frame.
  - revert Hs. by apply sound_frame.
  - revert Hs. by apply sound_frame.
  - revert Hs. by apply sound_frame.
  - by apply sound_published.
Qed.

Lemma sound_run cs : sound (TaskQueue.run cs).
Proof.
  unfold TaskQueue.run. generalize (sound_new MessageBus.new AgentRegistry.new).
  generalize (TaskQueue.new MessageBus.new AgentRegistry.new).
  induction cs as [|c cs IH]; intros s Hs; cbn [foldl]; [done|].
  by apply IH, sound_call.
Qed.

End QueueInvariant.

Section QueueCompletion.

Implicit Types (s : TaskQueue.t) (m : gmap string TaskQueue.Task) (k : TaskQueue.Task)
  (q : list string).

(** *** Completion reports *)

Lemma handleTaskCompletion_listeners now tid res s ty :
  MessageBus.listeners ty (TaskQueue.messageBus (TaskQueue.handleTaskCompletion now tid res s))
  = MessageBus.listeners ty (TaskQueue.messageBus s).
Proof.
  unfold TaskQueue.handleTaskCompletion.
  destruct (TaskQueue.tasks s !! tid) as [k|]; [|done].
  match goal with
  | |- context [let '(task1, s1) := ?X in _] =>
      assert (MessageBus.listeners ty (TaskQueue.messageBus X.2)
              = MessageBus.listeners ty (TaskQueue.messageBus s)) as Hs1;
      [|destruct X as [task1 s1]]
  end.
  { destruct (Wire.success res); cbn [snd]; [done|].
    case_bool_decide; cbn [snd]; [|done].
    unfold TaskQueue.enqueue. by destruct (TaskQueue.tasks _ !! tid). }
  cbn [snd] in Hs1.
  destruct (processQueue_scan now
    (match TaskQueue.assignedTo task1 with
     | Some worker =>
         if truthy (Some worker)
         then TaskQueue.with_registry
                (AgentRegistry.updateStatus now worker AgentRegistry.READY
                   (TaskQueue.registry s1) (TaskQueue.messageBus s1)) s1
         else s1
     | None => s1
     end)) as (_ & _ & _ & Hl).
  rewrite Hl.
  destruct (TaskQueue.assignedTo task1) as [worker|]; [|done].
  destruct (truthy (Some worker)); [|done].
  cbn [TaskQueue.messageBus TaskQueue.with_registry snd].
  by rewrite updateStatus_listeners.
Qed.

(** A broadcast completion message reaches the queue's handler once for each
    time it is subscribed; the other handlers leave the queue alone. *)
Lemma deliver_completion now tid res (msg : Wire.Message) (ls : list (string * Wire.Handler)) s :
  MessageBus.payload msg = Wire.TaskCompletedPayload tid res →
  MessageBus.target msg = None →
  foldl (TaskQueue.deliver now) s
    (omap (λ l : string * Wire.Handler,
             if MessageBus.delivers msg l.1
             then Some {| MessageBus.inv_agentId := l.1; MessageBus.inv_handler := l.2;
                          MessageBus.inv_message := msg |}
             else None) ls)
  = Nat.iter (length (filter (λ l, l.2 = Wire.TaskQueueHandler) ls))
      (TaskQueue.handleTaskCompletion now tid res) s.
Proof.
  intros Hp Ht. revert s. induction ls as [|[a h] ls IH]; intros s; [done|].
  cbn [omap list_omap]. unfold MessageBus.delivers at 1. rewrite Ht. cbn [truthy negb orb fst snd].
  cbn [foldl]. rewrite IH. rewrite filter_cons. cbn [snd].
  unfold TaskQueue.deliver. cbn [MessageBus.inv_handler MessageBus.inv_message].
  destruct h; cbn [decide]; try (rewrite decide_False by discriminate; reflexivity).
  rewrite decide_True by done. rewrite Hp. cbn [length]. by rewrite Nat.iter_succ_r.
Qed.

Lemma publishCompleted_wired now src tid res s :
  wired s →
  TaskQueue.publishCompleted now src tid res s
  = TaskQueue.handleTaskCompletion now tid res
      (TaskQueue.with_messageBus
         (MessageBus.publish now src MessageBus.TASK_COMPLETED
            (Wire.TaskCompletedPayload tid res) None (TaskQueue.messageBus s)).2 s).
Proof.
  intros Hw. unfold TaskQueue.publishCompleted, TaskQueue.published.
  unfold MessageBus.publish, MessageBus.generateMessageId. cbv zeta. cbn [snd].
  unfold MessageBus.emit. rewrite (deliver_completion now tid res) by done.
  unfold wired in Hw. by rewrite Hw.
Qed.

Lemma wired_handleTaskCompletion now tid res s :
  wired s → wired (TaskQueue.handleTaskCompletion now tid res s).
Proof. unfold wired. by rewrite handleTaskCompletion_listeners. Qed.

(** What a failure report does to the reported task: the retry counter goes
    up by one; while it stays below [maxRetries] the task is pending again (and
    may be assigned again at once), otherwise the task is failed and keeps the
    reported error. *)
Lemma failTask_spec now tid e s k :
  wired s →
  TaskQueue.tasks s !! tid = Some k →
  let s' := TaskQueue.failTask now tid e s in
  wired s'
  ∧ ∃ k', TaskQueue.tasks s' !! tid = Some k'
          ∧ TaskQueue.retryCount k' = (TaskQueue.retryCount k + 1)%Z
          ∧ TaskQueue.maxRetries k' = TaskQueue.maxRetries k
          ∧ if bool_decide (TaskQueue.retryCount k + 1 < TaskQueue.maxRetries k)%Z
            then TaskQueue.status k' = TaskQueue.PENDING
                 ∨ TaskQueue.status k' = TaskQueue.ASSIGNED
            else TaskQueue.status k' = TaskQueue.FAILED
                 ∧ TaskQueue.error k' = Some e.
Proof.
  intros Hw Hk. cbv zeta. unfold TaskQueue.failTask. rewrite Hk.
  rewrite publishCompleted_wired by done.
  split.
  { apply wired_handleTaskCompletion. exact Hw. }
  unfold TaskQueue.handleTaskCompletion.
  cbn [TaskQueue.tasks TaskQueue.with_messageBus Wire.success]. rewrite Hk.
  case_bool_decide as Hlt.
  - cbn [TaskQueue.assignedTo TaskQueue.assign].
    match goal with |- context [TaskQueue.processQueue now ?S] => set (s1 := S) end.
    assert (TaskQueue.tasks s1 !! tid
            = Some (TaskQueue.assign k TaskQueue.PENDING None (TaskQueue.startedAt k)
                      (TaskQueue.completedAt k) (TaskQueue.result k) (TaskQueue.error k)
                      (TaskQueue.retryCount k + 1))) as Hk1.
    { unfold s1, TaskQueue.enqueue. cbn [TaskQueue.tasks TaskQueue.with_tasks].
      rewrite lookup_insert_eq. cbn [TaskQueue.tasks TaskQueue.with_pendingQueue TaskQueue.with_tasks].
      by rewrite lookup_insert_eq. }
    destruct (processQueue_scan now s1) as (Hscan & _).
    destruct (Hscan tid) as [E|(k0 & w & Hk0 & _ & E)].
    + rewrite E, Hk1. eexists. split; [done|]. cbn. auto.
    + rewrite Hk1 in Hk0. injection Hk0 as <-. rewrite E. eexists. split; [done|]. cbn. auto.
  - match goal with |- context [TaskQueue.processQueue now ?S] => set (s2 := S) end.
    assert (TaskQueue.tasks s2 !! tid
            = Some (TaskQueue.assign k TaskQueue.FAILED (TaskQueue.assignedTo k)
                      (TaskQueue.startedAt k) (Some now) (TaskQueue.result k) (Some e)
                      (TaskQueue.retryCount k + 1))) as Hk2.
    { unfold s2. cbn [TaskQueue.assignedTo TaskQueue.assign Wire.error].
      destruct (TaskQueue.assignedTo k) as [worker|];
        [destruct (truthy (Some worker))|];
        cbn [TaskQueue.tasks TaskQueue.with_tasks TaskQueue.with_registry];
        by rewrite lookup_insert_eq. }
    destruct (processQueue_scan now s2) as (Hscan & _).
    destruct (Hscan tid) as [E|(k0 & w & Hk0 & Hp0 & E)].
    + rewrite E, Hk2. eexists. split; [done|]. cbn. auto.
    + rewrite Hk2 in Hk0. injection Hk0 as <-. discriminate Hp0.
Qed.

End QueueCompletion.

Section QueueSessions.

Implicit Types (s : TaskQueue.t) (m : gmap string TaskQueue.Task) (k : TaskQueue.Task)
  (q : list string).

Lemma published_listeners now src ty p o s ty' :
  MessageBus.listeners ty' (TaskQueue.messageBus (TaskQueue.published now src ty p o s))
  = MessageBus.listeners ty' (TaskQueue.messageBus s).
Proof.
  unfold TaskQueue.published.
  pose proof (publish_listeners now src ty p o (TaskQueue.messageBus s) ty') as Hl.
  destruct (MessageBus.publish _ _ _ _ _ _) as [[msg calls] bus']. cbn [snd] in Hl.
  rewrite <- Hl.
  change bus' with (TaskQueue.messageBus (TaskQueue.with_messageBus bus' s)) at 2.
  generalize (TaskQueue.with_messageBus bus' s).
  induction calls as [|c calls IH]; intros s0; cbn [foldl]; [done|].
  rewrite IH. unfold TaskQueue.deliver.
  destruct (MessageBus.inv_handler c); try done.
  destruct (MessageBus.payload _); try done.
  apply handleTaskCompletion_listeners.
Qed.

Lemma wired_call s c : wired s → wired (TaskQueue.call s c).
Proof.
  unfold wired. intros Hw. destruct c; cbn [TaskQueue.call].
  - unfold TaskQueue.submit, TaskQueue.enqueue. cbv zeta. cbn [snd].
    by destruct (_ !! _).
  - destruct (processQueue_scan now s) as (_ & _ & _ & Hl). by rewrite Hl.
  - unfold TaskQueue.startTask. destruct (_ !! _); [|done]. by case_bool_decide.
  - unfold TaskQueue.completeTask. destruct (_ !! _); [|done].
    unfold TaskQueue.publishCompleted. by rewrite published_listeners.
  - unfold TaskQueue.failTask. destruct (_ !! _); [|done].
    unfold TaskQueue.publishCompleted. by rewrite published_listeners.
  - unfold AgentRegistry.register. cbv zeta.
    pose proof (publish_listeners now "registry" MessageBus.AGENT_REGISTERED
      (Wire.AgentRegisteredPayload id0 type0 (AgentRegistry.name <$> capabilities0)) None
      (TaskQueue.messageBus s) MessageBus.TASK_COMPLETED) as Hl.
    destruct (MessageBus.publish _ _ _ _ _ _) as [[? ?] b]. cbn [snd] in Hl.
    cbn [TaskQueue.messageBus TaskQueue.with_registry snd]. by rewrite Hl.
  - done.
  - cbn [TaskQueue.messageBus TaskQueue.with_registry]. by rewrite updateStatus_listeners.
  - done.
  - cbn [TaskQueue.messageBus TaskQueue.with_messageBus].
    change (MessageBus.subscribe agentId ty (Wire.ExternalHandler tag) (TaskQueue.messageBus s))
      with (MessageBus.call (TaskQueue.messageBus s)
              (MessageBus.CallSubscribe agentId ty (Wire.ExternalHandler tag))).
    rewrite listeners_call, filter_app, length_app, Hw.
    cbn. case_bool_decide; cbn; [|done]. by rewrite decide_False by discriminate.
  - cbn [TaskQueue.messageBus TaskQueue.with_messageBus]. by rewrite unsubscribe_listeners.
  - by rewrite published_listeners.
Qed.

(** After any calls on a fresh core the queue's handler is subscribed once. *)
Lemma wired_run cs : wired (TaskQueue.run cs).
Proof.
  unfold TaskQueue.run.
  assert (wired (TaskQueue.new MessageBus.new AgentRegistry.new)) as H0 by reflexivity.
  revert H0. generalize (TaskQueue.new MessageBus.new AgentRegistry.new).
  induction cs as [|c cs IH]; intros s Hs; cbn [foldl]; [done|].
  by apply IH, wired_call.
Qed.

Lemma keyed_handleTaskCompletion now tid res s :
  AgentRegistry.keyed (TaskQueue.registry s) →
  AgentRegistry.keyed (TaskQueue.registry (TaskQueue.handleTaskCompletion now tid res s)).
Proof.
  intros Hk. unfold TaskQueue.handleTaskCompletion.
  destruct (TaskQueue.tasks s !! tid) as [k|]; [|done].
  match goal with
  | |- context [let '(task1, s1) := ?X in _] =>
      assert (TaskQueue.registry X.2 = TaskQueue.registry s) as Hs1;
      [|destruct X as [task1 s1]]
  end.
  { destruct (Wire.success res); cbn [snd]; [done|].
    case_bool_decide; cbn [snd]; [|done].
    unfold TaskQueue.enqueue. by destruct (TaskQueue.tasks _ !! tid). }
  cbn [snd] in Hs1. apply processQueue_keyed.
  destruct (TaskQueue.assignedTo task1) as [worker|]; [|by rewrite Hs1].
  destruct (truthy (Some worker)); [|by rewrite Hs1].
  cbn [TaskQueue.registry TaskQueue.with_registry]. rewrite Hs1.
  by apply keyed_updateStatus.
Qed.

Lemma keyed_published now src ty p o s :
  AgentRegistry.keyed (TaskQueue.registry s) →
  AgentRegistry.keyed (TaskQueue.registry (TaskQueue.published now src ty p o s)).
Proof.
  intros Hk. unfold TaskQueue.published.
  destruct (MessageBus.publish _ _ _ _ _ _) as [[msg calls] bus'].
  change (TaskQueue.registry s)
    with (TaskQueue.registry (TaskQueue.with_messageBus bus' s)) in Hk.
  revert Hk. generalize (TaskQueue.with_messageBus bus' s).
  induction calls as [|c calls IH]; intros s0 Hk; cbn [foldl]; [done|].
  apply IH. unfold TaskQueue.deliver.
  destruct (MessageBus.inv_handler c); try done.
  destruct (MessageBus.payload _); try done.
  by apply keyed_handleTaskCompletion.
Qed.

Lemma keyed_call s c :
  AgentRegistry.keyed (TaskQueue.registry s) →
  AgentRegistry.keyed (TaskQueue.registry (TaskQueue.call s c)).
Proof.
  intros Hk. destruct c; cbn [TaskQueue.call].
  - unfold TaskQueue.submit, TaskQueue.enqueue. cbv zeta. cbn [snd].
    by destruct (_ !! _).
  - by apply processQueue_keyed.
  - unfold TaskQueue.startTask. destruct (_ !! _); [|done]. by case_bool_decide.
  - unfold TaskQueue.completeTask. destruct (_ !! _); [|done]. by apply keyed_published.
  - unfold TaskQueue.failTask. destruct (_ !! _); [|done]. by apply keyed_published.
  - pose proof (keyed_register now id0 type0 capabilities0 metadata0
      (TaskQueue.registry s) (TaskQueue.messageBus s) Hk) as Hk'.
    by destruct (AgentRegistry.register _ _ _ _ _ _ _) as [[? r] b].
  - by apply keyed_unregister.
  - by apply keyed_updateStatus.
  - by apply keyed_heartbeat.
  - done.
  - done.
  - by apply keyed_published.
Qed.

(** After any calls on a fresh core every agent is stored under its id. *)
Lemma keyed_run cs : AgentRegistry.keyed (TaskQueue.registry (TaskQueue.run cs)).
Proof.
  unfold TaskQueue.run.
  assert (AgentRegistry.keyed
            (TaskQueue.registry (TaskQueue.new MessageBus.new AgentRegistry.new))) as H0
    by apply keyed_new.
  revert H0. generalize (TaskQueue.new MessageBus.new AgentRegistry.new).
  induction cs as [|c cs IH]; intros s Hs; cbn [foldl]; [done|].
  by apply IH, keyed_call.
Qed.

End QueueSessions.

Section AssignmentOrder.

Implicit Types (s : TaskQueue.t) (m : gmap string TaskQueue.Task) (k : TaskQueue.Task)
  (q : list string).

(** The loop of [processQueue] publishes one assignment message for each
    entry it assigns, in the order of the backlog. *)
Lemma scan_fold_order now l s acc :
  let r := foldl (TaskQueue.processQueue_step now) (s, acc) l in
  ∃ keys more,
    r.2 = acc ++ keys
    ∧ sublist keys l
    ∧ TaskQueue.assignments r.1 = TaskQueue.assignments s ++ more
    ∧ Forall2 (λ key a, ∃ k, TaskQueue.tasks s !! key = Some k ∧ a.1 = TaskQueue.id k)
        keys more.
Proof.
  revert s acc. induction l as [|t l IH]; intros s acc; cbn [foldl].
  - exists [], []. by rewrite !app_nil_r.
  - destruct (processQueue_step_cases now s acc t)
      as [->|(k0 & a & rest & Hk0 & Hp0 & _ & _ & Heq)].
    + destruct (IH s acc) as (keys & more & Hacc & Hsub & Hmsg & Hall).
      exists keys, more. split_and!; [done| |done|done]. by apply sublist_cons.
    + pose proof (step_tasks now s acc t) as Hscan. rewrite Heq in Hscan |- *.
      cbn [fst] in Hscan.
      destruct (IH (TaskQueue.assignTask now t k0 a s) (acc ++ [t]))
        as (keys & more & Hacc & Hsub & Hmsg & Hall).
      exists (t :: keys), ((TaskQueue.id k0, Some (AgentRegistry.id a)) :: more).
      split_and!.
      * by rewrite Hacc, <- app_assoc.
      * by apply sublist_skip.
      * by rewrite Hmsg, assignments_assignTask, <- app_assoc.
      * constructor; [by exists k0|].
        eapply Forall2_impl; [exact Hall|]. intros key msg (k & Hk & Hid).
        destruct (Hscan key) as [E|(k' & w & Hk' & _ & E)].
        -- exists k. by rewrite <- E.
        -- exists k'. rewrite E in Hk. injection Hk as <-. done.
Qed.

Lemma processQueue_order now s :
  ∃ keys more,
    sublist keys (TaskQueue.pendingQueue s)
    ∧ TaskQueue.assignments (TaskQueue.processQueue now s) = TaskQueue.assignments s ++ more
    ∧ Forall2 (λ key a, ∃ k, TaskQueue.tasks s !! key = Some k ∧ a.1 = TaskQueue.id k)
        keys more.
Proof.
  rewrite processQueue_unfold. cbv zeta.
  destruct (scan_fold_order now (TaskQueue.pendingQueue s) s [])
    as (keys & more & _ & Hsub & Hmsg & Hall).
  by exists keys, more.
Qed.

End AssignmentOrder.

(** *** The claims about the queue *)

(** C3, as amended.  A task with [maxRetries = 2] and no failure yet (as
    [submit] creates it, whether or not it has been assigned since) is [FAILED]
    with [retryCount = 2] after the second failure report; a third failure
    report leaves it [FAILED] and raises [retryCount] to 3. *)
Theorem retry_exhaustion (s : TaskQueue.t) (tid : string) (k : TaskQueue.Task)
    (now1 now2 now3 : N) (error1 error2 error3 : string) :
  wired s →
  TaskQueue.tasks s !! tid = Some k →
  TaskQueue.retryCount k = 0%Z →
  TaskQueue.maxRetries k = 2%Z →
  let s2 := TaskQueue.failTask now2 tid error2 (TaskQueue.failTask now1 tid error1 s) in
  let s3 := TaskQueue.failTask now3 tid error3 s2 in
  (∃ k2, TaskQueue.tasks s2 !! tid = Some k2
         ∧ TaskQueue.status k2 = TaskQueue.FAILED ∧ TaskQueue.retryCount k2 = 2%Z)
  ∧ (∃ k3, TaskQueue.tasks s3 !! tid = Some k3
           ∧ TaskQueue.status k3 = TaskQueue.FAILED ∧ TaskQueue.retryCount k3 = 3%Z).
Proof.
  intros Hw Hk Hrc Hmax. cbv zeta.
  destruct (failTask_spec now1 tid error1 s k Hw Hk) as (Hw1 & k1 & Hk1 & Hrc1 & Hmax1 & _).
  destruct (failTask_spec now2 tid error2 _ k1 Hw1 Hk1)
    as (Hw2 & k2 & Hk2 & Hrc2 & Hmax2 & Hst2).
  destruct (failTask_spec now3 tid error3 _ k2 Hw2 Hk2)
    as (Hw3 & k3 & Hk3 & Hrc3 & Hmax3 & Hst3).
  rewrite bool_decide_eq_false_2 in Hst2 by lia.
  rewrite bool_decide_eq_false_2 in Hst3 by lia.
  split.
  - exists k2. split_and!; [done|by destruct Hst2|lia].
  - exists k3. split_and!; [done|by destruct Hst3|lia].
Qed.

Lemma retry_exhaustion_witness :
  let s := TaskQueue.run retrySession in
  let s2 := TaskQueue.failTask 5 "task_2_1" "second"
              (TaskQueue.failTask 4 "task_2_1" "first" s) in
  let s3 := TaskQueue.failTask 6 "task_2_1" "third" s2 in
  (∃ k2, TaskQueue.tasks s2 !! "task_2_1" = Some k2
         ∧ TaskQueue.status k2 = TaskQueue.FAILED ∧ TaskQueue.retryCount k2 = 2%Z)
  ∧ (∃ k3, TaskQueue.tasks s3 !! "task_2_1" = Some k3
           ∧ TaskQueue.status k3 = TaskQueue.FAILED ∧ TaskQueue.retryCount k3 = 3%Z).
Proof.
  eapply (retry_exhaustion (TaskQueue.run retrySession) "task_2_1" _ 4 5 6
            "first" "second" "third").
  - apply wired_run.
  - evaluate_lhs. reflexivity.
  - reflexivity.
  - reflexivity.
Defined.

(** C3, as stated, fails: after three failure reports on a task submitted
    with [maxRetries = 2], the task is [FAILED] and its [retryCount] is 3. *)
Lemma retry_count_after_three_failures :
  let s := TaskQueue.run retrySession in
  let s3 := TaskQueue.failTask 6 "task_2_1" "third"
              (TaskQueue.failTask 5 "task_2_1" "second"
                 (TaskQueue.failTask 4 "task_2_1" "first" s)) in
  ¬ (∃ k3, TaskQueue.tasks s3 !! "task_2_1" = Some k3
           ∧ TaskQueue.status k3 = TaskQueue.FAILED ∧ TaskQueue.retryCount k3 = 2%Z).
Proof.
  cbv zeta. intros (k3 & Hk3 & _ & Hrc).
  assert (TaskQueue.retryCount <$>
            TaskQueue.tasks
              (TaskQueue.failTask 6 "task_2_1" "third"
                 (TaskQueue.failTask 5 "task_2_1" "second"
                    (TaskQueue.failTask 4 "task_2_1" "first" (TaskQueue.run retrySession))))
            !! "task_2_1" = Some 3%Z) as H3 by (vm_compute; reflexivity).
  rewrite Hk3 in H3. injection H3 as H3. lia.
Qed.

(** C4 fails on the code in the branch that re-enqueues the task.  A task
    with the default [maxRetries] is assigned to the ready worker ["w1"], which
    becomes busy; after the first failure report the task is pending again with
    its [assignedTo] cleared, and ["w1"] is still busy.  In the branch that
    marks the task failed (a task with [maxRetries = 1]) the worker is ready
    again. *)
Theorem retry_leaves_worker_busy :
  let observe (s : TaskQueue.t) :=
    ((λ k, (TaskQueue.status k, TaskQueue.assignedTo k, TaskQueue.retryCount k))
       <$> TaskQueue.tasks s !! "task_2_1",
     AgentRegistry.status <$> AgentRegistry.agents (TaskQueue.registry s) !! "w1") in
  let session (maxRetries : option Z) := [
    TaskQueue.CallRegister 0 "w1" "Worker" [renderer] ∅;
    TaskQueue.CallUpdateStatus 1 "w1" AgentRegistry.READY;
    TaskQueue.CallSubmit 2 "job" "render" "page" (submitOptions None None maxRetries);
    TaskQueue.CallProcessQueue 3 ] in
  observe (TaskQueue.run (session None))
  = (Some (TaskQueue.ASSIGNED, Some "w1", 0%Z), Some AgentRegistry.BUSY)
  ∧ observe (TaskQueue.failTask 4 "task_2_1" "boom" (TaskQueue.run (session None)))
    = (Some (TaskQueue.PENDING, None, 1%Z), Some AgentRegistry.BUSY)
  ∧ observe (TaskQueue.failTask 4 "task_2_1" "boom" (TaskQueue.run (session (Some 1%Z))))
    = (Some (TaskQueue.FAILED, Some "w1", 1%Z), Some AgentRegistry.READY).
Proof. vm_compute. done. Qed.

(** C5.  [submit] puts the new task right before the first backlog entry of
    strictly lower priority, behind every entry of the same or a higher
    priority; after any calls on a fresh core the backlog runs from high to low
    priority; [processQueue] publishes its assignments in backlog order; and
    tasks submitted with priorities low, high, normal are assigned in the order
    high, normal, low when three ready workers advertise the capability. *)
Theorem backlog_priority_order :
  (∀ s now ty cap p o,
     let '(task, s') := TaskQueue.submit now ty cap p o s in
     ∃ front back,
       TaskQueue.pendingQueue s = front ++ back
       ∧ TaskQueue.pendingQueue s' = front ++ TaskQueue.id task :: back
       ∧ Forall (λ x, ∀ kx, TaskQueue.tasks s' !! x = Some kx → (rank task ≤ rank kx)%Z)
           front
       ∧ match back with
         | [] => True
         | y :: _ => ∃ ky, TaskQueue.tasks s' !! y = Some ky ∧ (rank ky < rank task)%Z
         end)
  ∧ (∀ cs, TaskQueue.ordered (TaskQueue.run cs))
  ∧ (∀ cs now,
       let s := TaskQueue.run cs in
       ∃ keys more,
         sublist keys (TaskQueue.pendingQueue s)
         ∧ StronglySorted (TaskQueue.outranks (TaskQueue.tasks s)) keys
         ∧ TaskQueue.assignments (TaskQueue.processQueue now s)
           = TaskQueue.assignments s ++ more
         ∧ Forall2 (λ key a, ∃ k, TaskQueue.tasks s !! key = Some k ∧ a.1 = TaskQueue.id k)
             keys more)
  ∧ (let s := TaskQueue.processQueue 5 (TaskQueue.run prioritySession) in
     (λ a, TaskQueue.priority <$> TaskQueue.tasks s !! a.1) <$> TaskQueue.assignments s
     = [Some TaskQueue.HIGH; Some TaskQueue.NORMAL; Some TaskQueue.LOW]).
Proof.
  split_and!.
  - intros s now ty cap p o. unfold TaskQueue.submit. cbv zeta.
    unfold TaskQueue.enqueue. cbn [TaskQueue.tasks TaskQueue.id].
    rewrite lookup_insert_eq.
    cbn [TaskQueue.pendingQueue TaskQueue.with_pendingQueue TaskQueue.tasks].
    apply enqueue_at_position.
  - intros cs. apply sound_run.
  - intros cs now. cbv zeta.
    destruct (processQueue_order now (TaskQueue.run cs)) as (keys & more & Hsub & Hmsg & Hall).
    exists keys, more. split_and!; [done| |done|done].
    eapply StronglySorted_sublist; [done|]. apply sound_run.
  - vm_compute. reflexivity.
Qed.




(** ** Pipeline coordinator *)

Section CoordinatorFacts.

Implicit Types (s : Orchestrator.t) (m : Wire.Message).

Lemma quiet_refl s : quiet s s.
Proof. by repeat split. Qed.

Lemma quiet_trans s1 s2 s3 : quiet s1 s2 → quiet s2 s3 → quiet s1 s3.
Proof.
  intros (?&?&?&?&?&?&Hl1) (?&?&?&?&?&?&Hl2).
  split_and!; try congruence.
Qed.

Lemma consistent_quiet s s' : quiet s s' → consistent s → consistent s'.
Proof.
  intros (Hid & Hst & Hres & Hrej & Hpr & Hset & Hl) (Hw & Hnd & Hlt & Hrun).
  unfold consistent, Orchestrator.wired, settled in *.
  rewrite Hid, Hst, Hres, Hrej, Hpr, Hset. split_and!; [|done..].
  intros ty. by rewrite Hl.
Qed.

Lemma quiet_logEvent now ev a st msg s : quiet s (Orchestrator.logEvent now ev a st msg s).
Proof. by repeat split. Qed.

Lemma quiet_publish now ty p s : quiet s (Orchestrator.publish now ty p s).
Proof. by repeat split. Qed.

Lemma quiet_handleProductModelReady now m s :
  quiet s (Orchestrator.handleProductModelReady now m s).
Proof.
  unfold Orchestrator.handleProductModelReady. cbv zeta.
  destruct (Orchestrator.payload_product _); by repeat split.
Qed.

Lemma quiet_handleQuestionsGenerated now m s :
  quiet s (Orchestrator.handleQuestionsGenerated now m s).
Proof.
  unfold Orchestrator.handleQuestionsGenerated. cbv zeta.
  destruct (Orchestrator.payload_questionSet _); by repeat split.
Qed.

Lemma quiet_handleContentBlocksReady now m s :
  quiet s (Orchestrator.handleContentBlocksReady now m s).
Proof. by repeat split. Qed.

(** The test of [checkPipelineCompletion]. *)
Lemma allReceived_covers (expected : list string) (received : list (option string)) :
  forallb (λ p, set_has (Some p) received) expected = true ↔ covers expected received.
Proof.
  rewrite forallb_true. unfold covers, set_has.
  apply forall_proper. intros p. by rewrite bool_decide_eq_true.
Qed.

Lemma covers_cases (expected : list string) (received : list (option string)) :
  covers expected received ∨ ¬ covers expected received.
Proof.
  destruct (forallb (λ p, set_has (Some p) received) expected) eqn:Hall.
  - left. by apply allReceived_covers.
  - right. rewrite <- allReceived_covers. congruence.
Qed.

(** [checkPipelineCompletion] on a run that is not running, or whose
    received set does not cover the expected set, does nothing. *)
Lemma checkPipelineCompletion_idle now s :
  ¬ (Orchestrator.status (Orchestrator.pipelineState s) = running
     ∧ covers (Orchestrator.expectedPages (Orchestrator.pipelineState s))
              (Orchestrator.receivedPages (Orchestrator.pipelineState s))) →
  Orchestrator.checkPipelineCompletion now s = s.
Proof.
  intros Hn. unfold Orchestrator.checkPipelineCompletion. cbv zeta.
  destruct (forallb _ _) eqn:Hall; [|done].
  case_bool_decide as Hst; [|done].
  destruct Hn. split; [done|]. by apply allReceived_covers.
Qed.

(** [checkPipelineCompletion] on a running run whose received set covers the
    expected set: the run is completed, the completion message is published,
    and the [resolve] function the coordinator holds is called with the
    output. *)
Lemma checkPipelineCompletion_done now s :
  Orchestrator.status (Orchestrator.pipelineState s) = running →
  covers (Orchestrator.expectedPages (Orchestrator.pipelineState s))
         (Orchestrator.receivedPages (Orchestrator.pipelineState s)) →
  let output := Orchestrator.resolution now s in
  let s' := Orchestrator.checkPipelineCompletion now s in
  let ps := Orchestrator.pipelineState s in
  let ps' := Orchestrator.pipelineState s' in
  Orchestrator.status ps' = completed
  ∧ Orchestrator.completedAt ps' = Some now
  ∧ Orchestrator.pages ps' = Orchestrator.pages ps
  ∧ Orchestrator.expectedPages ps' = Orchestrator.expectedPages ps
  ∧ Orchestrator.receivedPages ps' = Orchestrator.receivedPages ps
  ∧ Orchestrator.id s' = Orchestrator.id s
  ∧ Orchestrator.isRunning s' = Orchestrator.isRunning s
  ∧ Orchestrator.resolveCompletion s' = Orchestrator.resolveCompletion s
  ∧ Orchestrator.rejectCompletion s' = Orchestrator.rejectCompletion s
  ∧ (∀ ty, Orchestrator.ownListeners ty s' = Orchestrator.ownListeners ty s)
  ∧ (∃ msg, last (MessageBus.messageHistory (Orchestrator.messageBus s')) = Some msg
            ∧ MessageBus.type msg = MessageBus.PIPELINE_COMPLETE
            ∧ MessageBus.source msg = Orchestrator.id s
            ∧ MessageBus.target msg = None)
  ∧ match Orchestrator.resolveCompletion s with
    | Some p =>
        Orchestrator.settleCalls s'
        = Orchestrator.settleCalls s ++ [(p, Orchestrator.Fulfilled output)]
        ∧ Orchestrator.promises s'
          = match Orchestrator.promises s !! p with
            | Some Orchestrator.Pending =>
                <[p := Orchestrator.Fulfilled output]> (Orchestrator.promises s)
            | _ => Orchestrator.promises s
            end
    | None =>
        Orchestrator.settleCalls s' = Orchestrator.settleCalls s
        ∧ Orchestrator.promises s' = Orchestrator.promises s
    end.
Proof.
  intros Hst Hcov. unfold Orchestrator.checkPipelineCompletion. cbv zeta.
  rewrite (proj2 (allReceived_covers _ _) Hcov), (bool_decide_eq_true_2 _ Hst).
  cbn [andb].
  cbn [Orchestrator.resolveCompletion Orchestrator.publish Orchestrator.with_bus
       Orchestrator.logEvent Orchestrator.with_pipelineState Orchestrator.markCompleted].
  destruct (Orchestrator.resolveCompletion s) as [p|] eqn:Hres;
    (split_and!; try done;
     eexists; split;
       [unfold MessageBus.publish, MessageBus.generateMessageId; cbn;
        apply last_snoc|split_and!; reflexivity]).
Qed.

(** The output that a completing run resolves with: the collected pages, the
    received page types, and the log with the completion entry. *)
Lemma resolution_spec now s :
  let output := Orchestrator.resolution now s in
  Orchestrator.Output.pages output = Orchestrator.pages (Orchestrator.pipelineState s)
  ∧ Wire.pagesGenerated (Orchestrator.Output.summary output)
    = Orchestrator.receivedPages (Orchestrator.pipelineState s)
  ∧ Wire.totalEvents (Orchestrator.Output.summary output)
    = length (Orchestrator.executionLog s)
  ∧ Wire.completedAt (Orchestrator.Output.summary output) = now
  ∧ length (Orchestrator.Output.executionLog output)
    = S (length (Orchestrator.executionLog s)).
Proof.
  cbv zeta. split_and!; try reflexivity.
  cbn. rewrite length_app. cbn. lia.
Qed.

End CoordinatorFacts.

Section CoordinatorHandlers.

Implicit Types (s : Orchestrator.t) (m : Wire.Message).

Lemma quiet_recordPage now m s : quiet s (Orchestrator.recordPage now m s).
Proof. by repeat split. Qed.

Lemma handleAgentError_running now m s :
  Orchestrator.status (Orchestrator.pipelineState s) = running →
  let s' := Orchestrator.handleAgentError now m s in
  Orchestrator.status (Orchestrator.pipelineState s') = failed
  ∧ Orchestrator.id s' = Orchestrator.id s
  ∧ Orchestrator.resolveCompletion s' = Orchestrator.resolveCompletion s
  ∧ Orchestrator.rejectCompletion s' = Orchestrator.rejectCompletion s
  ∧ (∀ ty, Orchestrator.ownListeners ty s' = Orchestrator.ownListeners ty s)
  ∧ match Orchestrator.rejectCompletion s with
    | Some p =>
        Orchestrator.settleCalls s' = Orchestrator.settleCalls s ++ [(p, rejection m)]
        ∧ Orchestrator.promises s'
          = match Orchestrator.promises s !! p with
            | Some Orchestrator.Pending => <[p := rejection m]> (Orchestrator.promises s)
            | _ => Orchestrator.promises s
            end
    | None =>
        Orchestrator.settleCalls s' = Orchestrator.settleCalls s
        ∧ Orchestrator.promises s' = Orchestrator.promises s
    end.
Proof.
  intros Hst. unfold Orchestrator.handleAgentError. cbv zeta.
  cbn [Orchestrator.pipelineState Orchestrator.logEvent].
  rewrite (bool_decide_eq_true_2 _ Hst).
  cbn [Orchestrator.rejectCompletion Orchestrator.markFailed Orchestrator.with_pipelineState
       Orchestrator.logEvent].
  destruct (Orchestrator.rejectCompletion s) as [p|] eqn:Hrej; by split_and!.
Qed.

Lemma handleAgentError_not_running now m s :
  Orchestrator.status (Orchestrator.pipelineState s) ≠ running →
  quiet s (Orchestrator.handleAgentError now m s).
Proof.
  intros Hst. unfold Orchestrator.handleAgentError. cbv zeta.
  cbn [Orchestrator.pipelineState Orchestrator.logEvent].
  rewrite (bool_decide_eq_false_2 _ Hst). by repeat split.
Qed.

(** A handler that is not [running] leaves the run as it is. *)
Lemma onMessage_not_running now m s :
  Orchestrator.status (Orchestrator.pipelineState s) ≠ running →
  quiet s (Orchestrator.onMessage now m s).
Proof.
  intros Hst. unfold Orchestrator.onMessage.
  destruct (MessageBus.type m);
    first [ exact (quiet_refl s)
          | exact (handleAgentError_not_running now m s Hst)
          | exact (quiet_handleProductModelReady now m s)
          | exact (quiet_handleQuestionsGenerated now m s)
          | exact (quiet_handleContentBlocksReady now m s)
          | idtac ].
  unfold Orchestrator.handlePageAssembled.
  rewrite checkPipelineCompletion_idle; [apply quiet_recordPage|].
  by intros [? _].
Qed.

(** Settling the promise of the running run keeps the coordinator
    consistent. *)
Lemma consistent_settled s s' v :
  consistent s →
  Orchestrator.status (Orchestrator.pipelineState s) = running →
  Orchestrator.status (Orchestrator.pipelineState s') ≠ running →
  Orchestrator.id s' = Orchestrator.id s →
  (∀ ty, Orchestrator.ownListeners ty s' = Orchestrator.ownListeners ty s) →
  (∀ p, Orchestrator.resolveCompletion s = Some p →
        Orchestrator.settleCalls s' = Orchestrator.settleCalls s ++ [(p, v)]
        ∧ length (Orchestrator.promises s') = length (Orchestrator.promises s)) →
  consistent s'.
Proof.
  intros (Hw & Hnd & Hlt & Hrun) Hst Hst' Hid Hl Hset.
  destruct (Hrun Hst) as (p & Hres & Hrej & Hp & Hnotin).
  destruct (Hset p Hres) as [Hcalls Hlen].
  unfold consistent, Orchestrator.wired, settled in *.
  rewrite Hcalls, Hlen, Hid, fmap_app. cbn [fmap list_fmap fst].
  split_and!.
  - intros ty. by rewrite Hl.
  - apply NoDup_app. split_and!; [done| |apply NoDup_singleton].
    intros q Hq ->%list_elem_of_singleton. done.
  - intros q [Hq| ->%list_elem_of_singleton]%elem_of_app; [by apply Hlt|].
    by eapply lookup_lt_Some.
  - done.
Qed.

Lemma settle_length (l : list Orchestrator.Promise) p v :
  length (match l !! p with
          | Some Orchestrator.Pending => <[p := v]> l
          | _ => l
          end) = length l.
Proof. destruct (l !! p) as [[| |]|]; by rewrite ?length_insert. Qed.

Lemma consistent_handleAgentError now m s :
  consistent s → consistent (Orchestrator.handleAgentError now m s).
Proof.
  intros Hc.
  destruct (decide (Orchestrator.status (Orchestrator.pipelineState s) = running)) as [Hst|Hst].
  - destruct (handleAgentError_running now m s Hst) as (Hst' & Hid & _ & _ & Hl & Hp).
    destruct Hc as (Hw & Hnd & Hlt & Hrun).
    destruct (Hrun Hst) as (p & Hres & Hrej & Hpend & Hnotin).
    eapply (consistent_settled s _ (rejection m)); [by split_and!|done| |done|done|].
    + rewrite Hst'. discriminate.
    + intros q Hq. rewrite Hrej in Hp. destruct Hp as [-> ->].
      rewrite Hres in Hq. injection Hq as <-. split; [done|]. apply settle_length.
  - eapply consistent_quiet; [|done]. by apply handleAgentError_not_running.
Qed.

Lemma consistent_handlePageAssembled now m s :
  consistent s → consistent (Orchestrator.handlePageAssembled now m s).
Proof.
  intros Hc. unfold Orchestrator.handlePageAssembled.
  pose proof (consistent_quiet _ _ (quiet_recordPage now m s) Hc) as Hc1.
  set (s1 := Orchestrator.recordPage now m s) in *.
  assert ((Orchestrator.status (Orchestrator.pipelineState s1) = running
           ∧ covers (Orchestrator.expectedPages (Orchestrator.pipelineState s1))
                    (Orchestrator.receivedPages (Orchestrator.pipelineState s1)))
          ∨ ¬ (Orchestrator.status (Orchestrator.pipelineState s1) = running
               ∧ covers (Orchestrator.expectedPages (Orchestrator.pipelineState s1))
                        (Orchestrator.receivedPages (Orchestrator.pipelineState s1))))
    as [[Hst Hcov]|Hn].
  { destruct (decide (Orchestrator.status (Orchestrator.pipelineState s1) = running));
      [|right; tauto].
    destruct (covers_cases (Orchestrator.expectedPages (Orchestrator.pipelineState s1))
                (Orchestrator.receivedPages (Orchestrator.pipelineState s1)));
      [by left|right; tauto]. }
  - destruct (checkPipelineCompletion_done now s1 Hst Hcov)
      as (Hst' & _ & _ & _ & _ & Hid & _ & _ & _ & Hl & _ & Hp).
    eapply (consistent_settled s1 _ _ Hc1 Hst); [|done|done|].
    + rewrite Hst'. discriminate.
    + intros q Hq. rewrite Hq in Hp. destruct Hp as [-> ->].
      split; [done|]. apply settle_length.
  - by rewrite checkPipelineCompletion_idle.
Qed.

Lemma consistent_onMessage now m s :
  consistent s → consistent (Orchestrator.onMessage now m s).
Proof.
  intros Hc. unfold Orchestrator.onMessage.
  destruct (MessageBus.type m);
    first [ exact Hc
          | by apply consistent_handleAgentError
          | exact (consistent_quiet _ _ (quiet_handleProductModelReady now m s) Hc)
          | exact (consistent_quiet _ _ (quiet_handleQuestionsGenerated now m s) Hc)
          | exact (consistent_quiet _ _ (quiet_handleContentBlocksReady now m s) Hc)
          | by apply consistent_handlePageAssembled ].
Qed.

Lemma consistent_wrappedHandler now m s :
  consistent s → consistent (Orchestrator.wrappedHandler now m s).
Proof.
  intros Hc. unfold Orchestrator.wrappedHandler.
  destruct (Orchestrator.isRunning s); cbn [negb]; [|done].
  by apply consistent_onMessage.
Qed.

Lemma wrappedHandler_not_running now m s :
  Orchestrator.status (Orchestrator.pipelineState s) ≠ running →
  quiet s (Orchestrator.wrappedHandler now m s).
Proof.
  intros Hst. unfold Orchestrator.wrappedHandler.
  destruct (Orchestrator.isRunning s); cbn [negb]; [|apply quiet_refl].
  by apply onMessage_not_running.
Qed.

End CoordinatorHandlers.

Section CoordinatorEvents.

Implicit Types (s : Orchestrator.t) (m : Wire.Message).

Lemma quiet_posted now src ty p o s : quiet s (posted now src ty p o s).
Proof. by repeat split. Qed.

Lemma publish_eta now src ty p o (bus : Wire.Bus) :
  MessageBus.publish now src ty p o bus
  = (messageOf now src ty p o bus,
     MessageBus.emit ty (messageOf now src ty p o bus) bus,
     (MessageBus.publish now src ty p o bus).2).
Proof. reflexivity. Qed.

Lemma delivers_messageOf now src ty p o (bus : Wire.Bus) a :
  MessageBus.delivers (messageOf now src ty p o bus) a = Orchestrator.addressed o a.
Proof. reflexivity. Qed.

(** The handler calls of an emit reach the coordinator through its own
    listeners only. *)
Lemma deliver_fold now (msg : Wire.Message) (ls : list (string * Wire.Handler)) s :
  foldl (Orchestrator.deliver now) s
    (omap (λ l : string * Wire.Handler,
             if MessageBus.delivers msg l.1
             then Some {| MessageBus.inv_agentId := l.1; MessageBus.inv_handler := l.2;
                          MessageBus.inv_message := msg |}
             else None) ls)
  = foldl (λ s0 _, Orchestrator.wrappedHandler now msg s0) s
      (filter (λ l, MessageBus.delivers msg l.1 = true)
         (filter (λ l, l.2 = Wire.CoordinatorMessageHandler) ls)).
Proof.
  revert s. induction ls as [|[a h] ls IH]; intros s; [done|].
  cbn [omap list_omap]. rewrite (filter_cons (λ l, l.2 = _)). cbn [fst snd].
  destruct (decide (h = Wire.CoordinatorMessageHandler)) as [->|Hh].
  - rewrite filter_cons. cbn [fst].
    destruct (MessageBus.delivers msg a) eqn:Hd.
    + rewrite decide_True by done. cbn [foldl]. by rewrite IH.
    + rewrite decide_False by done. by rewrite IH.
  - destruct (MessageBus.delivers msg a); [|by rewrite IH].
    cbn [foldl]. rewrite IH. f_equal. unfold Orchestrator.deliver.
    cbn [MessageBus.inv_handler]. by destruct h.
Qed.

(** A publish on the bus of a wired coordinator runs its wrapped handler
    once if the coordinator subscribes to the message type and the message is
    addressed to it, and not at all otherwise. *)
Lemma published_wired now src ty p o s :
  Orchestrator.wired s →
  Orchestrator.published now src ty p o s
  = if bool_decide (ty ∈ Orchestrator.SUBSCRIPTIONS) && Orchestrator.addressed o (Orchestrator.id s)
    then Orchestrator.wrappedHandler now
           (messageOf now src ty p o (Orchestrator.messageBus s)) (posted now src ty p o s)
    else posted now src ty p o s.
Proof.
  intros Hw. unfold Orchestrator.published.
  rewrite (publish_eta now src ty p o (Orchestrator.messageBus s)).
  fold (posted now src ty p o s).
  unfold MessageBus.emit. rewrite deliver_fold.
  specialize (Hw ty). unfold Orchestrator.ownListeners in Hw. rewrite Hw.
  case_bool_decide as Hty; cbn [andb]; [|done].
  rewrite filter_cons, filter_nil. cbn [fst].
  rewrite delivers_messageOf.
  destruct (Orchestrator.addressed o (Orchestrator.id s)).
  - by rewrite decide_True.
  - by rewrite decide_False.
Qed.

Lemma consistent_published now src ty p o s :
  consistent s → consistent (Orchestrator.published now src ty p o s).
Proof.
  intros Hc. rewrite published_wired by apply Hc.
  pose proof (consistent_quiet _ _ (quiet_posted now src ty p o s) Hc) as Hc1.
  destruct (_ && _); [|done]. by apply consistent_wrappedHandler.
Qed.

Lemma published_not_running now src ty p o s :
  Orchestrator.wired s →
  Orchestrator.status (Orchestrator.pipelineState s) ≠ running →
  quiet s (Orchestrator.published now src ty p o s).
Proof.
  intros Hw Hst. rewrite published_wired by done.
  destruct (_ && _); [|apply quiet_posted].
  eapply quiet_trans; [apply quiet_posted|].
  by apply wrappedHandler_not_running.
Qed.

Lemma own_updateStatus now st s :
  quiet s (Orchestrator.with_bus
             (AgentRegistry.updateStatus now (Orchestrator.id s) st
                (Orchestrator.registry s) (Orchestrator.messageBus s)) s).
Proof.
  unfold quiet, Orchestrator.ownListeners. split_and!; try done.
  intros ty. cbn [Orchestrator.messageBus Orchestrator.with_bus].
  by rewrite updateStatus_listeners.
Qed.

Lemma quiet_start now s : quiet s (Orchestrator.start now s).
Proof. apply (own_updateStatus now AgentRegistry.READY (Orchestrator.with_isRunning true s)). Qed.

Lemma quiet_stop now s : quiet s (Orchestrator.stop now s).
Proof. apply (own_updateStatus now AgentRegistry.OFFLINE (Orchestrator.with_isRunning false s)). Qed.

Lemma quiet_subscribe a ty tag s :
  quiet s (Orchestrator.with_bus
             (Orchestrator.registry s,
              MessageBus.subscribe a ty (Wire.ExternalHandler tag) (Orchestrator.messageBus s)) s).
Proof.
  unfold quiet, Orchestrator.ownListeners. split_and!; try done.
  intros ty'. cbn [Orchestrator.messageBus Orchestrator.with_bus snd].
  change (MessageBus.subscribe a ty (Wire.ExternalHandler tag) (Orchestrator.messageBus s))
    with (MessageBus.call (Orchestrator.messageBus s)
            (MessageBus.CallSubscribe a ty (Wire.ExternalHandler tag))).
  rewrite listeners_call, filter_app. cbn.
  case_bool_decide; cbn; [|by rewrite app_nil_r].
  rewrite decide_False by discriminate. by rewrite app_nil_r.
Qed.

Lemma quiet_unsubscribe a ty s :
  quiet s (Orchestrator.with_bus
             (Orchestrator.registry s,
              MessageBus.unsubscribe a ty (Orchestrator.messageBus s)) s).
Proof.
  unfold quiet, Orchestrator.ownListeners. split_and!; try done.
  intros ty'. cbn [Orchestrator.messageBus Orchestrator.with_bus snd].
  by rewrite unsubscribe_listeners.
Qed.

(** After a run has left the status [running], no event other than a new
    [runPipeline] changes its status or its promise. *)
Lemma step_not_running s e :
  Orchestrator.wired s →
  Orchestrator.status (Orchestrator.pipelineState s) ≠ running →
  match e with Orchestrator.EvRunPipeline _ _ _ => False | _ => True end →
  quiet s (Orchestrator.step s e).
Proof.
  intros Hw Hst He. destruct e; cbn [Orchestrator.step]; try done.
  - apply quiet_start.
  - apply quiet_stop.
  - by apply published_not_running.
  - apply quiet_subscribe.
  - apply quiet_unsubscribe.
  - by apply published_not_running.
Qed.

Lemma quiet_wired s s' : quiet s s' → Orchestrator.wired s → Orchestrator.wired s'.
Proof.
  intros (Hid & _ & _ & _ & _ & _ & Hl) Hw ty. by rewrite Hl, Hid.
Qed.

Lemma steps_not_running s es :
  Orchestrator.wired s →
  Orchestrator.status (Orchestrator.pipelineState s) ≠ running →
  Orchestrator.sameRun es →
  quiet s (Orchestrator.steps s es).
Proof.
  intros Hw Hst Hes. revert s Hw Hst.
  induction Hes as [|e es He Hes IH]; intros s Hw Hst; cbn [Orchestrator.steps foldl].
  - apply quiet_refl.
  - pose proof (step_not_running s e Hw Hst He) as Hq.
    eapply quiet_trans; [exact Hq|]. apply IH.
    + by eapply quiet_wired.
    + destruct Hq as (_ & -> & _). done.
Qed.

Lemma consistent_runPipeline now raw pgs s :
  consistent s → consistent (Orchestrator.runPipeline now raw pgs s).2.
Proof.
  intros (Hw & Hnd & Hlt & Hrun).
  unfold Orchestrator.runPipeline. cbv zeta. cbn [snd].
  unfold consistent, Orchestrator.wired, settled, Orchestrator.ownListeners in *.
  cbn. split_and!; [done|done| |].
  - intros p Hp. rewrite length_app. cbn. specialize (Hlt p Hp). lia.
  - intros _. exists (length (Orchestrator.promises s)). split_and!; [done|done| |].
    + rewrite lookup_app_r by lia. by rewrite Nat.sub_diag.
    + intros Hin. specialize (Hlt _ Hin). lia.
Qed.

Lemma consistent_step s e : consistent s → consistent (Orchestrator.step s e).
Proof.
  intros Hc. destruct e; cbn [Orchestrator.step].
  - exact (consistent_quiet _ _ (quiet_start now s) Hc).
  - exact (consistent_quiet _ _ (quiet_stop now s) Hc).
  - by apply consistent_runPipeline.
  - by apply consistent_published.
  - exact (consistent_quiet _ _ (quiet_subscribe agentId ty tag s) Hc).
  - exact (consistent_quiet _ _ (quiet_unsubscribe agentId ty s) Hc).
  - by apply consistent_published.
Qed.

Lemma consistent_init now id0 : consistent (Orchestrator.init now id0).
Proof.
  unfold consistent, settled. split_and!.
  - intros ty. destruct ty; vm_compute; reflexivity.
  - constructor.
  - intros p Hp. by apply elem_of_nil in Hp.
  - discriminate.
Qed.

(** Every state that the events lead to from a fresh coordinator is
    consistent. *)
Lemma consistent_steps now id0 es :
  consistent (Orchestrator.steps (Orchestrator.init now id0) es).
Proof.
  unfold Orchestrator.steps. generalize (consistent_init now id0).
  generalize (Orchestrator.init now id0).
  induction es as [|e es IH]; intros s Hs; cbn [foldl]; [done|].
  by apply IH, consistent_step.
Qed.

End CoordinatorEvents.

Section CoordinatorProgress.

Implicit Types (s : Orchestrator.t) (m : Wire.Message).

Lemma covers_set_add (expected : list string) (received : list (option string)) x :
  covers expected received → covers expected (set_add x received).
Proof.
  intros Hcov p Hp. unfold set_add. case_bool_decide; [by apply Hcov|].
  apply elem_of_app. left. by apply Hcov.
Qed.

(** A change that keeps the expected and the received set, and keeps the
    status or makes it [failed], keeps the progress up to date. *)
Lemma upToDate_frame s s' :
  Orchestrator.expectedPages (Orchestrator.pipelineState s')
  = Orchestrator.expectedPages (Orchestrator.pipelineState s) →
  Orchestrator.receivedPages (Orchestrator.pipelineState s')
  = Orchestrator.receivedPages (Orchestrator.pipelineState s) →
  Orchestrator.status (Orchestrator.pipelineState s')
  = Orchestrator.status (Orchestrator.pipelineState s)
  ∨ Orchestrator.status (Orchestrator.pipelineState s') = failed →
  upToDate s → upToDate s'.
Proof.
  unfold upToDate. cbv zeta. intros He Hr Hst [Hdone Hrun]. rewrite He, Hr.
  destruct Hst as [Hst|Hst]; rewrite Hst; [done|]. split; discriminate.
Qed.

Lemma upToDate_handleAgentError now m s :
  upToDate s → upToDate (Orchestrator.handleAgentError now m s).
Proof.
  apply upToDate_frame; unfold Orchestrator.handleAgentError; cbv zeta;
    cbn [Orchestrator.pipelineState Orchestrator.logEvent];
    case_bool_decide; try destruct (Orchestrator.rejectCompletion _); try done;
    by (left + right).
Qed.

Lemma upToDate_handlePageAssembled now m s :
  upToDate s → upToDate (Orchestrator.handlePageAssembled now m s).
Proof.
  intros [Hdone Hrun]. unfold Orchestrator.handlePageAssembled.
  set (s1 := Orchestrator.recordPage now m s).
  destruct (decide (Orchestrator.status (Orchestrator.pipelineState s1) = running)) as [Hst|Hst].
  - destruct (covers_cases (Orchestrator.expectedPages (Orchestrator.pipelineState s1))
                (Orchestrator.receivedPages (Orchestrator.pipelineState s1))) as [Hcov|Hcov].
    + destruct (checkPipelineCompletion_done now s1 Hst Hcov) as (Hst' & _ & _ & He & Hr & _).
      unfold upToDate. cbv zeta. rewrite Hst', He, Hr. split; [done|discriminate].
    + rewrite checkPipelineCompletion_idle by (by intros [_ ?]).
      split; [by rewrite Hst|done].
  - rewrite checkPipelineCompletion_idle by (by intros [? _]).
    split; [|done]. intros Hc. apply covers_set_add. by apply Hdone.
Qed.

Lemma upToDate_wrappedHandler now m s :
  upToDate s → upToDate (Orchestrator.wrappedHandler now m s).
Proof.
  intros Hu. unfold Orchestrator.wrappedHandler.
  destruct (Orchestrator.isRunning s); cbn [negb]; [|done].
  unfold Orchestrator.onMessage.
  destruct (MessageBus.type m);
    first [ exact Hu
          | by apply upToDate_handleAgentError
          | by apply upToDate_handlePageAssembled
          | idtac ].
  - revert Hu. apply upToDate_frame; unfold Orchestrator.handleProductModelReady; cbv zeta;
      destruct (Orchestrator.payload_product _); try done; by left.
  - revert Hu. apply upToDate_frame; unfold Orchestrator.handleQuestionsGenerated; cbv zeta;
      destruct (Orchestrator.payload_questionSet _); try done; by left.
Qed.

Lemma upToDate_published now src ty p o s :
  upToDate s → upToDate (Orchestrator.published now src ty p o s).
Proof.
  intros Hu. unfold Orchestrator.published.
  rewrite (publish_eta now src ty p o (Orchestrator.messageBus s)).
  fold (posted now src ty p o s).
  assert (upToDate (posted now src ty p o s)) as Hp by exact Hu.
  revert Hp. generalize (posted now src ty p o s).
  induction (MessageBus.emit _ _ _) as [|c cs IH]; intros s0 Hs0; cbn [foldl]; [done|].
  apply IH. unfold Orchestrator.deliver.
  destruct (MessageBus.inv_handler c); try done. by apply upToDate_wrappedHandler.
Qed.

Lemma upToDate_runPipeline now raw pgs s :
  upToDate (Orchestrator.runPipeline now raw pgs s).2.
Proof.
  unfold upToDate, Orchestrator.runPipeline. cbv zeta.
  cbn [snd Orchestrator.pipelineState Orchestrator.logEvent Orchestrator.publish
       Orchestrator.with_bus Orchestrator.status Orchestrator.expectedPages
       Orchestrator.receivedPages].
  split; [discriminate|]. intros _ Hcov.
  destruct (foldl _ _ _) as [|x l]; [done|].
  specialize (Hcov x (list_elem_of_here _ _)). by apply elem_of_nil in Hcov.
Qed.

Lemma upToDate_step s e : upToDate s → upToDate (Orchestrator.step s e).
Proof.
  intros Hu. destruct e; cbn [Orchestrator.step];
    first [ exact Hu
          | by apply upToDate_published
          | by apply upToDate_runPipeline
          | idtac ].
Qed.

(** In every state that the events lead to from a fresh coordinator, the
    progress is up to date. *)
Lemma upToDate_steps now id0 es :
  upToDate (Orchestrator.steps (Orchestrator.init now id0) es).
Proof.
  unfold Orchestrator.steps.
  assert (upToDate (Orchestrator.init now id0)) as Hi by (split; discriminate).
  revert Hi. generalize (Orchestrator.init now id0).
  induction es as [|e es IH]; intros s Hs; cbn [foldl]; [done|].
  by apply IH, upToDate_step.
Qed.

End CoordinatorProgress.

Lemma published_observed now src ty p o s :
  Orchestrator.wired s →
  Orchestrator.isRunning s = true →
  ty ∈ Orchestrator.SUBSCRIPTIONS →
  Orchestrator.addressed o (Orchestrator.id s) = true →
  Orchestrator.published now src ty p o s
  = Orchestrator.onMessage now (messageOf now src ty p o (Orchestrator.messageBus s))
      (posted now src ty p o s).
Proof.
  intros Hw Hrun Hty Ha. rewrite published_wired by done.
  rewrite (bool_decide_eq_true_2 _ Hty), Ha. cbn [andb].
  unfold Orchestrator.wrappedHandler.
  change (Orchestrator.isRunning (posted now src ty p o s)) with (Orchestrator.isRunning s).
  by rewrite Hrun.
Qed.

Lemma settle_lookup (l : list Orchestrator.Promise) p v :
  l !! p = Some Orchestrator.Pending →
  match l !! p with
  | Some Orchestrator.Pending => <[p := v]> l
  | _ => l
  end !! p = Some v.
Proof.
  intros Hp. rewrite Hp. apply list_lookup_insert_eq. by eapply lookup_lt_Some.
Qed.



Lemma steps_snoc s es e :
  Orchestrator.steps s (es ++ [e]) = Orchestrator.step (Orchestrator.steps s es) e.
Proof. unfold Orchestrator.steps. by rewrite foldl_app. Qed.

Lemma step_publish s now src ty p o :
  Orchestrator.step s (Orchestrator.EvPublish now src ty p o)
  = Orchestrator.published now src ty p o s.
Proof. reflexivity. Qed.




(** * Further properties of the core *)

(** ** Message bus: history, order of delivery, subscriptions *)

Section BusSessions.

Context {P F : Type}.
Implicit Types (b : MessageBus.t P F) (cs : list (MessageBus.Call P F)).

(** The fields that a call leaves in the history. *)
Lemma history_call b c :
  MessageBus.fields <$> MessageBus.messageHistory (MessageBus.call b c)
  = (MessageBus.fields <$> MessageBus.messageHistory b)
    ++ match c with
       | MessageBus.CallPublish now src ty p o =>
           [(ty, src, o ≫= MessageBus.opt_target, p, now,
             o ≫= MessageBus.opt_correlationId, o ≫= MessageBus.opt_replyTo)]
       | _ => []
       end.
Proof.
  destruct c as [a ty h|a ty|now src ty p o]; cbn [MessageBus.call].
  - by rewrite app_nil_r.
  - rewrite app_nil_r. unfold MessageBus.unsubscribe.
    by destruct (MessageBus.subscriptions b !! ty).
  - unfold MessageBus.publish, MessageBus.generateMessageId. cbn.
    by rewrite fmap_app.
Qed.

Lemma history_foldl cs b :
  MessageBus.fields <$> MessageBus.messageHistory (foldl MessageBus.call b cs)
  = (MessageBus.fields <$> MessageBus.messageHistory b)
    ++ omap (λ c, match c with
                  | MessageBus.CallPublish now src ty p o =>
                      Some (ty, src, o ≫= MessageBus.opt_target, p, now,
                            o ≫= MessageBus.opt_correlationId, o ≫= MessageBus.opt_replyTo)
                  | _ => None
                  end) cs.
Proof.
  revert b. induction cs as [|c cs IH]; intros b; cbn [foldl omap list_omap].
  - by rewrite app_nil_r.
  - rewrite IH, history_call. rewrite <- app_assoc. f_equal. by destruct c.
Qed.

(** The handler calls of an emit, in order. *)
Lemma emit_order ty (m : MessageBus.AgentMessage P) b :
  (λ c, (MessageBus.inv_agentId c, MessageBus.inv_handler c)) <$> MessageBus.emit ty m b
  = filter (λ l, MessageBus.delivers m l.1 = true) (MessageBus.listeners ty b)
  ∧ Forall (λ c, MessageBus.inv_message c = m) (MessageBus.emit ty m b).
Proof.
  unfold MessageBus.emit. induction (MessageBus.listeners ty b) as [|[a h] ls [IH1 IH2]].
  - split; [done|constructor].
  - cbn [omap list_omap fst snd]. rewrite filter_cons. cbn [fst].
    destruct (MessageBus.delivers m a) eqn:Hd.
    + rewrite decide_True by done. cbn [fmap list_fmap]. split.
      * cbn. f_equal. exact IH1.
      * constructor; [done|exact IH2].
    + rewrite decide_False by discriminate. by split.
Qed.

Lemma generateMessageId_inj now1 now2 (b1 b2 : MessageBus.t P F) :
  (MessageBus.generateMessageId now1 b1).1 = (MessageBus.generateMessageId now2 b2).1 →
  MessageBus.messageIdCounter b1 = MessageBus.messageIdCounter b2.
Proof.
  unfold MessageBus.generateMessageId. cbn [fst]. intros Heq.
  change ("msg_" +:+ ?x) with (String "m" (String "s" (String "g" (String "_" x)))) in Heq.
  injection Heq as Heq.
  change ("_" +:+ ?x) with (String "_" x) in Heq.
  apply plain_split in Heq as [_ Hc]; [|apply pretty_N_plain..].
  apply (inj pretty) in Hc. lia.
Qed.

Lemma stamped_new : MessageBus.stamped (MessageBus.new (P := P) (H := F)).
Proof. split; [constructor|]. intros m Hm. by apply elem_of_nil in Hm. Qed.

Lemma stamped_publish now src ty (p : P) o b :
  MessageBus.stamped b → MessageBus.stamped (MessageBus.publish now src ty p o b).2.
Proof.
  intros [Hnd Hall].
  set (m := (MessageBus.publish now src ty p o b).1.1).
  assert (MessageBus.messageHistory (MessageBus.publish now src ty p o b).2
          = MessageBus.messageHistory b ++ [m]) as Hh by reflexivity.
  assert (MessageBus.messageIdCounter (MessageBus.publish now src ty p o b).2
          = (MessageBus.messageIdCounter b + 1)%N) as Hc by reflexivity.
  assert (MessageBus.id m = (MessageBus.generateMessageId now b).1) as Hmid by reflexivity.
  unfold MessageBus.stamped. rewrite Hh, Hc. split.
  - rewrite fmap_app. cbn [fmap list_fmap].
    apply NoDup_app. split_and!; [done| |apply NoDup_singleton].
    intros i Hi ->%list_elem_of_singleton.
    apply list_elem_of_fmap in Hi as (m' & Hid & Hm).
    destruct (Hall m' Hm) as (now' & c' & Hid' & Hlt).
    rewrite Hmid, Hid' in Hid. apply generateMessageId_inj in Hid.
    cbn [MessageBus.messageIdCounter] in Hid. lia.
  - intros m' [Hm| ->%list_elem_of_singleton]%elem_of_app.
    + destruct (Hall m' Hm) as (now' & c' & Hid' & Hlt).
      exists now', c'. split; [exact Hid'|lia].
    + exists now, (MessageBus.messageIdCounter b). split; [|lia]. exact Hmid.
Qed.

Lemma stamped_call b c : MessageBus.stamped b → MessageBus.stamped (MessageBus.call b c).
Proof.
  intros Hs. destruct c as [a ty h|a ty|now src ty p o]; cbn [MessageBus.call].
  - exact Hs.
  - unfold MessageBus.unsubscribe. by destruct (MessageBus.subscriptions b !! ty).
  - by apply stamped_publish.
Qed.

Lemma stamped_run cs : MessageBus.stamped (MessageBus.run cs).
Proof.
  unfold MessageBus.run. generalize (stamped_new). generalize (MessageBus.new (P := P) (H := F)).
  induction cs as [|c cs IH]; intros b Hb; cbn [foldl]; [done|].
  by apply IH, stamped_call.
Qed.

Lemma getSubscribers_subscribe a ty h b ty' :
  MessageBus.getSubscribers ty' (MessageBus.subscribe a ty h b)
  = MessageBus.getSubscribers ty' b ++ (if bool_decide (ty' = ty) then [a] else []).
Proof.
  unfold MessageBus.getSubscribers, MessageBus.subscribe. cbn [MessageBus.subscriptions].
  case_bool_decide as Hty.
  - subst ty'. rewrite lookup_insert_eq.
    destruct (MessageBus.subscriptions b !! ty) as [subs|] eqn:Hs.
    + rewrite Hs. cbn. by rewrite fmap_app.
    + by rewrite lookup_insert_eq.
  - rewrite app_nil_r. rewrite lookup_insert_ne by done.
    destruct (MessageBus.subscriptions b !! ty) as [subs|] eqn:Hs; [done|].
    by rewrite lookup_insert_ne.
Qed.

Lemma getSubscribers_unsubscribe a ty b ty' :
  MessageBus.getSubscribers ty' (MessageBus.unsubscribe a ty b)
  = if bool_decide (ty' = ty)
    then filter (λ x, x ≠ a) (MessageBus.getSubscribers ty' b)
    else MessageBus.getSubscribers ty' b.
Proof.
  unfold MessageBus.getSubscribers, MessageBus.unsubscribe.
  destruct (MessageBus.subscriptions b !! ty) as [subs|] eqn:Hs; cbn [MessageBus.subscriptions].
  - case_bool_decide as Hty.
    + subst ty'. rewrite lookup_insert_eq, Hs. clear Hs.
      induction subs as [|x subs IH]; [done|].
      rewrite filter_cons. cbn [fmap list_fmap]. rewrite filter_cons.
      destruct (decide (MessageBus.agentId x ≠ a)); cbn [fmap list_fmap]; by rewrite IH.
    + by rewrite lookup_insert_ne.
  - case_bool_decide as Hty; [|done]. subst ty'. by rewrite Hs.
Qed.

End BusSessions.

(** X1.  The history of the bus holds one message for each [publish] call made
    since the bus was created, in the order of the calls, with the type,
    source, target, payload, time, correlation id and reply address the call
    gave; [subscribe] and [unsubscribe] never change it. *)
Theorem history_records_publishes {P F : Type} (cs : list (MessageBus.Call P F)) :
  MessageBus.fields <$> MessageBus.getHistory (MessageBus.run cs)
  = omap (λ c, match c with
               | MessageBus.CallPublish now src ty p o =>
                   Some (ty, src, o ≫= MessageBus.opt_target, p, now,
                         o ≫= MessageBus.opt_correlationId, o ≫= MessageBus.opt_replyTo)
               | _ => None
               end) cs.
Proof. unfold MessageBus.getHistory, MessageBus.run. by rewrite history_foldl. Qed.

(** X2.  No two messages of the history carry the same id, whatever the clock
    read at each publish (also when it stood still or went back). *)
Theorem message_ids_unique {P F : Type} (cs : list (MessageBus.Call P F)) :
  NoDup (MessageBus.id <$> MessageBus.getHistory (MessageBus.run cs)).
Proof. apply stamped_run. Qed.


(** X4.  [getSubscribers]: [subscribe] appends the agent to the list of its
    topic, once for each call; [unsubscribe] removes every entry of the agent
    from the list of its topic and keeps the other entries in order; both
    leave the lists of the other topics alone, and [publish] leaves all of
    them alone. *)
Theorem getSubscribers_laws {P F : Type} (b : MessageBus.t P F) (a : string)
    (ty ty' : MessageBus.MessageType) (h : F) :
  MessageBus.getSubscribers ty (MessageBus.subscribe a ty h b)
  = MessageBus.getSubscribers ty b ++ [a]
  ∧ MessageBus.getSubscribers ty (MessageBus.unsubscribe a ty b)
    = filter (λ x, x ≠ a) (MessageBus.getSubscribers ty b)
  ∧ (a ∉ MessageBus.getSubscribers ty (MessageBus.unsubscribe a ty b))
  ∧ (ty' ≠ ty →
     (MessageBus.getSubscribers ty' (MessageBus.subscribe a ty h b)
      = MessageBus.getSubscribers ty' b)
     ∧ (MessageBus.getSubscribers ty' (MessageBus.unsubscribe a ty b)
        = MessageBus.getSubscribers ty' b))
  ∧ (∀ now src (p : P) o,
       MessageBus.getSubscribers ty' (MessageBus.publish now src ty p o b).2
       = MessageBus.getSubscribers ty' b).
Proof.
  split_and!.
  - rewrite getSubscribers_subscribe. by rewrite bool_decide_eq_true_2.
  - rewrite getSubscribers_unsubscribe. by rewrite bool_decide_eq_true_2.
  - rewrite getSubscribers_unsubscribe, bool_decide_eq_true_2 by done.
    rewrite list_elem_of_filter. by intros [? _].
  - intros Hne. rewrite getSubscribers_subscribe, getSubscribers_unsubscribe.
    rewrite !bool_decide_eq_false_2 by done. by rewrite app_nil_r.
  - done.
Qed.

(** X5.  A message published with a non-empty target under which no handler
    was ever subscribed to the topic is recorded in the history and handed to
    nobody. *)
Theorem publish_unknown_target {P F : Type} (cs : list (MessageBus.Call P F)) (now : N)
    (source : string) (ty : MessageBus.MessageType) (payload : P)
    (options : option MessageBus.PublishOptions) (agentId : string) :
  options ≫= MessageBus.opt_target = Some agentId →
  agentId ≠ "" →
  (∀ h, (agentId, h) ∉ MessageBus.subscribed ty cs) →
  let '(message, calls, b') :=
    MessageBus.publish now source ty payload options (MessageBus.run cs) in
  calls = []
  ∧ MessageBus.getHistory b' = MessageBus.getHistory (MessageBus.run cs) ++ [message]
  ∧ MessageBus.target message = Some agentId.
Proof.
  intros Ht Hne Hnone. unfold MessageBus.publish, MessageBus.generateMessageId.
  cbn [MessageBus.getHistory MessageBus.messageHistory MessageBus.target].
  split_and!; [|done|done].
  apply (fmap_nil_inv (λ c, (MessageBus.inv_agentId c, MessageBus.inv_handler c))).
  rewrite (proj1 (emit_order _ _ _)), listeners_run.
  induction (MessageBus.subscribed ty cs) as [|[a h] ls IH]; [done|].
  rewrite filter_cons. cbn [fst]. rewrite decide_False.
  - apply IH. intros h' Hin. apply (Hnone h'). by apply list_elem_of_further.
  - rewrite delivers_spec. cbn [MessageBus.target]. rewrite Ht.
    intros [?|[[= ?]|[= ?]]]; [done|done|].
    subst a. apply (Hnone h). apply list_elem_of_here.
Qed.

Lemma publish_unknown_target_witness :
  let cs := [MessageBus.CallSubscribe "worker-a" MessageBus.TASK_ASSIGNED
               (Wire.ExternalHandler "h")] in
  let '(message, calls, b') :=
    MessageBus.publish 7 "task-queue" MessageBus.TASK_ASSIGNED (Wire.OtherPayload "x")
      (Some {| MessageBus.opt_target := Some "worker-b";
               MessageBus.opt_correlationId := None;
               MessageBus.opt_replyTo := None |})
      (MessageBus.run cs) in
  calls = []
  ∧ MessageBus.getHistory b' = MessageBus.getHistory (MessageBus.run cs) ++ [message]
  ∧ MessageBus.target message = Some "worker-b".
Proof.
  apply (publish_unknown_target
           [MessageBus.CallSubscribe "worker-a" MessageBus.TASK_ASSIGNED
              (Wire.ExternalHandler "h")]
           7 "task-queue" MessageBus.TASK_ASSIGNED (Wire.OtherPayload "x") _ "worker-b").
  - reflexivity.
  - discriminate.
  - intros h Hin. vm_compute in Hin. apply list_elem_of_singleton in Hin. discriminate Hin.
Defined.

(** ** Agent registry: registration, status, discovery *)

Section RegistrySessions.

Implicit Types (r : AgentRegistry.t) (idx : gmap string (list string)).

Lemma set_add_idemp (x : string) (l : list string) : set_add x (set_add x l) = set_add x l.
Proof.
  unfold set_add. destruct (bool_decide (x ∈ l)) eqn:Hx.
  - by rewrite Hx.
  - rewrite bool_decide_eq_true_2; [done|]. apply elem_of_app. right. apply list_elem_of_here.
Qed.

Lemma elem_of_set_add (x y : string) (l : list string) : y ∈ set_add x l ↔ y = x ∨ y ∈ l.
Proof.
  unfold set_add. case_bool_decide as Hx.
  - split; [by right|]. by intros [->|?].
  - rewrite elem_of_app, list_elem_of_singleton. tauto.
Qed.

Lemma NoDup_set_add (x : string) (l : list string) : NoDup l → NoDup (set_add x l).
Proof.
  intros Hl. unfold set_add. case_bool_decide as Hx; [done|].
  apply NoDup_app. split_and!; [done| |apply NoDup_singleton].
  by intros y Hy ->%list_elem_of_singleton.
Qed.

Lemma NoDup_set_delete (x : string) (l : list string) : NoDup l → NoDup (set_delete x l).
Proof. apply NoDup_filter. Qed.

Lemma index_capability_lookup id0 idx c n :
  AgentRegistry.index_capability id0 idx c !! n
  = if bool_decide (n = AgentRegistry.name c)
    then Some (set_add id0 (default [] (idx !! n)))
    else idx !! n.
Proof.
  unfold AgentRegistry.index_capability.
  destruct (idx !! AgentRegistry.name c) as [ids|] eqn:Hc; case_bool_decide as Hn.
  - subst n. by rewrite lookup_insert_eq, Hc.
  - by rewrite lookup_insert_ne.
  - subst n. by rewrite !lookup_insert_eq, Hc.
  - by rewrite !lookup_insert_ne.
Qed.

(** The loop of [register] adds the id to the index entry of every listed
    capability, creating the entry if there is none, and leaves every other
    entry as it was. *)
Lemma index_fold_lookup id0 caps idx n :
  foldl (AgentRegistry.index_capability id0) idx caps !! n
  = if bool_decide (n ∈ AgentRegistry.name <$> caps)
    then Some (set_add id0 (default [] (idx !! n)))
    else idx !! n.
Proof.
  revert idx. induction caps as [|c caps IH]; intros idx.
  - by rewrite bool_decide_eq_false_2 by apply not_elem_of_nil.
  - rewrite fmap_cons. cbn [foldl]. rewrite IH, index_capability_lookup.
    destruct (decide (n = AgentRegistry.name c)) as [Heq|Hne].
    + rewrite (bool_decide_eq_true_2 _ Heq).
      rewrite (bool_decide_eq_true_2 (n ∈ _ :: _)) by (rewrite Heq; apply list_elem_of_here).
      case_bool_decide; [|done]. cbn [from_option id]. by rewrite set_add_idemp.
    + rewrite (bool_decide_eq_false_2 _ Hne).
      rewrite (bool_decide_ext (n ∈ AgentRegistry.name c :: (AgentRegistry.name <$> caps))
                 (n ∈ AgentRegistry.name <$> caps)); [done|].
      rewrite elem_of_cons. tauto.
Qed.

Lemma register_eta now id0 ty caps meta r (bus : Wire.Bus) :
  AgentRegistry.register now id0 ty caps meta r bus
  = ({| AgentRegistry.id := id0; AgentRegistry.type := ty;
        AgentRegistry.capabilities := caps; AgentRegistry.status := AgentRegistry.INITIALIZING;
        AgentRegistry.registeredAt := now; AgentRegistry.lastHeartbeat := now;
        AgentRegistry.metadata := meta |},
     {| AgentRegistry.agents :=
          <[id0 := {| AgentRegistry.id := id0; AgentRegistry.type := ty;
                      AgentRegistry.capabilities := caps;
                      AgentRegistry.status := AgentRegistry.INITIALIZING;
                      AgentRegistry.registeredAt := now; AgentRegistry.lastHeartbeat := now;
                      AgentRegistry.metadata := meta |}]> (AgentRegistry.agents r);
        AgentRegistry.capabilityIndex :=
          foldl (AgentRegistry.index_capability id0) (AgentRegistry.capabilityIndex r) caps |},
     (MessageBus.publish now "registry" MessageBus.AGENT_REGISTERED
        (Wire.AgentRegisteredPayload id0 ty (AgentRegistry.name <$> caps)) None bus).2).
Proof. reflexivity. Qed.

(** The ids of the records that [findByCapability] returns, in a registry
    whose records are stored under their ids: the ids of the index entry that
    are registered. *)
Lemma findByCapability_ids n r :
  AgentRegistry.keyed r →
  AgentRegistry.id <$> AgentRegistry.findByCapability n r
  = filter (λ i, is_Some (AgentRegistry.agents r !! i))
      (default [] (AgentRegistry.capabilityIndex r !! n)).
Proof.
  intros Hk. unfold AgentRegistry.findByCapability.
  destruct (AgentRegistry.capabilityIndex r !! n) as [ids|]; [|done]. cbn [from_option id].
  induction ids as [|i ids IH]; [done|].
  cbn [omap list_omap]. rewrite filter_cons.
  destruct (AgentRegistry.agents r !! i) as [a|] eqn:Ha.
  - rewrite decide_True by done. cbn [fmap list_fmap]. rewrite (Hk _ _ Ha). by f_equal.
  - rewrite decide_False by (by intros [? ?]). exact IH.
Qed.

Lemma updateStatus_index now i st r (bus : Wire.Bus) :
  AgentRegistry.capabilityIndex (AgentRegistry.updateStatus now i st r bus).1
  = AgentRegistry.capabilityIndex r.
Proof.
  unfold AgentRegistry.updateStatus. destruct (AgentRegistry.agents r !! i); [|done].
  by case_bool_decide.
Qed.

Lemma updateStatus_agents now i st r (bus : Wire.Bus) :
  AgentRegistry.agents (AgentRegistry.updateStatus now i st r bus).1
  = match AgentRegistry.agents r !! i with
    | Some record => <[i := AgentRegistry.with_status st now record]> (AgentRegistry.agents r)
    | None => AgentRegistry.agents r
    end.
Proof.
  unfold AgentRegistry.updateStatus. destruct (AgentRegistry.agents r !! i); [|done].
  by case_bool_decide.
Qed.

Lemma indexed_register now id0 ty caps meta r (bus : Wire.Bus) :
  AgentRegistry.indexed r →
  AgentRegistry.indexed (AgentRegistry.register now id0 ty caps meta r bus).1.2.
Proof.
  intros Hi n ids. rewrite register_eta. cbn [fst snd AgentRegistry.capabilityIndex].
  rewrite index_fold_lookup. case_bool_decide; [|apply Hi].
  intros [= <-]. apply NoDup_set_add.
  destruct (AgentRegistry.capabilityIndex r !! n) as [l|] eqn:Hl; [by eapply Hi|constructor].
Qed.

Lemma indexed_unregister id0 r :
  AgentRegistry.indexed r → AgentRegistry.indexed (AgentRegistry.unregister id0 r).2.
Proof.
  intros Hi n ids. unfold AgentRegistry.unregister.
  destruct (AgentRegistry.agents r !! id0) as [record|]; cbn [snd]; [|apply Hi].
  cbn [AgentRegistry.capabilityIndex]. rewrite unindex_fold_lookup.
  case_bool_decide; [|apply Hi].
  destruct (AgentRegistry.capabilityIndex r !! n) as [l|] eqn:Hl; [|done].
  intros [= <-]. apply NoDup_set_delete. by eapply Hi.
Qed.

End RegistrySessions.

(** X6.  [register] stores the record under the id with status
    [INITIALIZING], leaves the other records alone, makes the agent findable
    under each capability it lists, does not make it ready, and announces the
    registration once, to everyone, with the names of the capabilities. *)
Theorem register_discoverable (now : N) (id0 type0 : string)
    (caps : list AgentRegistry.AgentCapability) (meta : Metadata)
    (r : AgentRegistry.t) (bus : Wire.Bus) :
  let '(record, r', bus') := AgentRegistry.register now id0 type0 caps meta r bus in
  AgentRegistry.getAgent id0 r' = Some record
  ∧ AgentRegistry.status record = AgentRegistry.INITIALIZING
  ∧ AgentRegistry.capabilities record = caps
  ∧ (∀ i, i ≠ id0 → AgentRegistry.getAgent i r' = AgentRegistry.getAgent i r)
  ∧ (∀ c, c ∈ caps → record ∈ AgentRegistry.findByCapability (AgentRegistry.name c) r')
  ∧ (∀ n, record ∉ AgentRegistry.findReadyByCapability n r')
  ∧ ∃ m, MessageBus.getHistory bus' = MessageBus.getHistory bus ++ [m]
         ∧ MessageBus.fields m
           = (MessageBus.AGENT_REGISTERED, "registry", None,
              Wire.AgentRegisteredPayload id0 type0 (AgentRegistry.name <$> caps),
              now, None, None).
Proof.
  rewrite register_eta. unfold AgentRegistry.getAgent. cbn [AgentRegistry.agents].
  split_and!.
  - apply lookup_insert_eq.
  - done.
  - done.
  - intros i Hi. by apply lookup_insert_ne.
  - intros c Hc. apply elem_of_findByCapability.
    exists (set_add id0 (default [] (AgentRegistry.capabilityIndex r !! AgentRegistry.name c))), id0.
    cbn [AgentRegistry.agents AgentRegistry.capabilityIndex]. split_and!.
    + rewrite index_fold_lookup. rewrite bool_decide_eq_true_2; [done|].
      apply list_elem_of_fmap. by exists c.
    + apply elem_of_set_add. by left.
    + apply lookup_insert_eq.
  - intros n Hin. apply elem_of_findReadyByCapability in Hin as [Hst _]. discriminate Hst.
  - eexists. split; [reflexivity|reflexivity].
Qed.

(** X7.  [updateStatus] moves that agent, and no other, in or out of the ready
    list of a capability: afterwards the agent is returned by
    [findReadyByCapability] exactly if the new status is [READY] and the agent
    is registered and indexed under the capability. *)
Theorem updateStatus_ready_list (now : N) (id0 : string) (st : AgentRegistry.AgentStatus)
    (r : AgentRegistry.t) (bus : Wire.Bus) (n : string) :
  AgentRegistry.keyed r →
  let r' := (AgentRegistry.updateStatus now id0 st r bus).1 in
  (id0 ∈ AgentRegistry.id <$> AgentRegistry.findReadyByCapability n r'
   ↔ st = AgentRegistry.READY ∧ id0 ∈ AgentRegistry.id <$> AgentRegistry.findByCapability n r)
  ∧ (∀ i, i ≠ id0 →
          i ∈ AgentRegistry.id <$> AgentRegistry.findReadyByCapability n r'
          ↔ i ∈ AgentRegistry.id <$> AgentRegistry.findReadyByCapability n r).
Proof.
  intros Hk. cbv zeta.
  pose proof (keyed_updateStatus now id0 st r bus Hk) as Hk'.
  assert (∀ i r0, AgentRegistry.keyed r0 →
            i ∈ AgentRegistry.id <$> AgentRegistry.findReadyByCapability n r0
            ↔ ∃ a, AgentRegistry.agents r0 !! i = Some a
                   ∧ AgentRegistry.status a = AgentRegistry.READY
                   ∧ i ∈ default [] (AgentRegistry.capabilityIndex r0 !! n)) as Hready.
  { intros i r0 Hk0. rewrite list_elem_of_fmap. split.
    - intros (a & -> & Ha). apply elem_of_findReadyByCapability in Ha as [Hst Ha].
      apply elem_of_findByCapability in Ha as (ids & j & Hids & Hj & Hlook).
      pose proof (Hk0 _ _ Hlook) as Hid. subst j.
      exists a. rewrite Hids. by split_and!.
    - intros (a & Ha & Hst & Hi). exists a. split; [by rewrite (Hk0 _ _ Ha)|].
      apply elem_of_findReadyByCapability. split; [done|].
      apply elem_of_findByCapability.
      destruct (AgentRegistry.capabilityIndex r0 !! n) as [ids|] eqn:Hids;
        [|by apply elem_of_nil in Hi].
      by exists ids, i. }
  assert (∀ i, i ∈ AgentRegistry.id <$> AgentRegistry.findByCapability n r
            ↔ is_Some (AgentRegistry.agents r !! i)
              ∧ i ∈ default [] (AgentRegistry.capabilityIndex r !! n)) as Hfound.
  { intros i. rewrite findByCapability_ids by done. rewrite list_elem_of_filter. tauto. }
  split.
  - rewrite Hready by done. rewrite Hfound, updateStatus_index, updateStatus_agents.
    destruct (AgentRegistry.agents r !! id0) as [record|] eqn:Hrec.
    + rewrite lookup_insert_eq. split.
      * intros (a & [= <-] & Hst & Hi). by split_and!.
      * intros (-> & _ & Hi). eexists. by split_and!.
    + rewrite Hrec. split.
      * by intros (a & [= ] & _).
      * by intros (_ & [? [=]] & _).
  - intros i Hi. rewrite !Hready by done. rewrite updateStatus_index, updateStatus_agents.
    destruct (AgentRegistry.agents r !! id0) as [record|] eqn:Hrec; [|done].
    by rewrite lookup_insert_ne.
Qed.

Lemma updateStatus_ready_list_witness :
  let r := (AgentRegistry.register 0 "worker-a" "Worker" [renderer] ∅
              AgentRegistry.new MessageBus.new).1.2 in
  let ready (st : AgentRegistry.AgentStatus) :=
    AgentRegistry.id <$>
      AgentRegistry.findReadyByCapability "render"
        (AgentRegistry.updateStatus 1 "worker-a" st r MessageBus.new).1 in
  "worker-a" ∈ ready AgentRegistry.READY ∧ "worker-a" ∉ ready AgentRegistry.BUSY.
Proof.
  cbv zeta.
  assert (AgentRegistry.keyed
            (AgentRegistry.register 0 "worker-a" "Worker" [renderer] ∅
               AgentRegistry.new MessageBus.new).1.2) as Hk
    by apply keyed_register, keyed_new.
  destruct (updateStatus_ready_list 1 "worker-a" AgentRegistry.READY _ MessageBus.new
              "render" Hk) as [Hready _].
  destruct (updateStatus_ready_list 1 "worker-a" AgentRegistry.BUSY _ MessageBus.new
              "render" Hk) as [Hbusy _].
  split.
  - apply Hready. split; [reflexivity|]. vm_compute. apply list_elem_of_here.
  - intros Hin. apply Hbusy in Hin as [Hst _]. discriminate Hst.
Defined.


(** X9.  [register] never takes an id out of the capability index.  When an
    agent that is found under a capability is registered again with a list of
    capabilities that leaves this capability out, [findByCapability] still
    returns the agent for it, now with a record that does not list the
    capability. *)
Theorem register_keeps_index_entries (now : N) (id0 type0 : string)
    (caps : list AgentRegistry.AgentCapability) (meta : Metadata)
    (r : AgentRegistry.t) (bus : Wire.Bus) (n : string) :
  AgentRegistry.keyed r →
  id0 ∈ AgentRegistry.id <$> AgentRegistry.findByCapability n r →
  n ∉ AgentRegistry.name <$> caps →
  let '(record, r', _) := AgentRegistry.register now id0 type0 caps meta r bus in
  record ∈ AgentRegistry.findByCapability n r'
  ∧ AgentRegistry.id record = id0
  ∧ n ∉ AgentRegistry.name <$> AgentRegistry.capabilities record.
Proof.
  intros Hk Hin Hn. rewrite register_eta. split_and!; [|done|done].
  rewrite findByCapability_ids in Hin by done.
  apply list_elem_of_filter in Hin as [_ Hin].
  destruct (AgentRegistry.capabilityIndex r !! n) as [ids|] eqn:Hids;
    [|by apply elem_of_nil in Hin].
  apply elem_of_findByCapability. exists ids, id0.
  cbn [AgentRegistry.agents AgentRegistry.capabilityIndex]. split_and!.
  - rewrite index_fold_lookup. by rewrite bool_decide_eq_false_2.
  - exact Hin.
  - apply lookup_insert_eq.
Qed.

Lemma register_keeps_index_entries_witness :
  let r := (AgentRegistry.register 0 "worker-a" "Worker" [renderer] ∅
              AgentRegistry.new MessageBus.new).1.2 in
  let '(record, r', _) :=
    AgentRegistry.register 1 "worker-a" "Worker" [] ∅ r MessageBus.new in
  record ∈ AgentRegistry.findByCapability "render" r'
  ∧ AgentRegistry.id record = "worker-a"
  ∧ "render" ∉ AgentRegistry.name <$> AgentRegistry.capabilities record.
Proof.
  apply (register_keeps_index_entries 1 "worker-a" "Worker" [] ∅ _ MessageBus.new "render").
  - apply keyed_register, keyed_new.
  - vm_compute. apply list_elem_of_here.
  - apply not_elem_of_nil.
Defined.

(** ** Task queue: submission, life cycle of a task, statistics *)

Section QueueLifecycle.

Implicit Types (s : TaskQueue.t) (m : gmap string TaskQueue.Task) (k : TaskQueue.Task).

Lemma lifecycle_frame s s' :
  TaskQueue.tasks s' = TaskQueue.tasks s → lifecycle s → lifecycle s'.
Proof. intros Ht Hl x k. rewrite Ht. apply Hl. Qed.

Lemma lifecycle_insert s x k :
  TaskQueue.sane x k → lifecycle s →
  lifecycle (TaskQueue.with_tasks (<[x := k]> (TaskQueue.tasks s)) s).
Proof.
  intros Hk Hl y ky. cbn [TaskQueue.tasks TaskQueue.with_tasks].
  rewrite lookup_insert. case_decide as Hy; [|apply Hl].
  subst y. by intros [= <-].
Qed.

Lemma lifecycle_scan s s' :
  scan_tasks (TaskQueue.tasks s) (TaskQueue.tasks s') → lifecycle s → lifecycle s'.
Proof.
  intros Hscan Hl x k' Hk'. destruct (Hscan x) as [E|(k & w & Hk & Hp & E)].
  - apply (Hl x). by rewrite <- E.
  - rewrite E in Hk'. injection Hk' as <-.
    destruct (Hl x k Hk) as (Hid & _ & _ & _ & _ & _ & Hrc & _).
    unfold TaskQueue.sane. cbn. split_and!; try done; try by intros [?|?].
Qed.

Lemma lifecycle_enqueue tid s : lifecycle s → lifecycle (TaskQueue.enqueue tid s).
Proof.
  apply lifecycle_frame. unfold TaskQueue.enqueue. by destruct (TaskQueue.tasks s !! tid).
Qed.

Lemma lifecycle_processQueue now s : lifecycle s → lifecycle (TaskQueue.processQueue now s).
Proof. apply lifecycle_scan. apply processQueue_scan. Qed.

Lemma lifecycle_handleTaskCompletion now tid res s :
  lifecycle s → lifecycle (TaskQueue.handleTaskCompletion now tid res s).
Proof.
  intros Hl. unfold TaskQueue.handleTaskCompletion.
  destruct (TaskQueue.tasks s !! tid) as [k|] eqn:Hk; [|done].
  destruct (Hl tid k Hk) as (Hid & Hnc & Hpa & Haa & Hst & Hca & Hrc & Hf).
  match goal with
  | |- lifecycle (let '(task1, s1) := ?X in _) =>
      assert (lifecycle X.2) as Hs1; [|destruct X as [task1 s1]]
  end.
  { destruct (Wire.success res); cbn [snd].
    - apply lifecycle_insert; [|done]. unfold TaskQueue.sane. cbn.
      split_and!; try done; try (by intros [?|?]); try by eexists.
    - case_bool_decide as Hlt; cbn [snd].
      + apply lifecycle_enqueue, lifecycle_insert; [|done]. unfold TaskQueue.sane. cbn.
        split_and!; try done; try (by intros [?|?]); lia.
      + apply lifecycle_insert; [|done]. unfold TaskQueue.sane. cbn.
        split_and!; try done; try (by intros [?|?]); try (by eexists); lia. }
  cbn [snd] in Hs1. apply lifecycle_processQueue.
  destruct (TaskQueue.assignedTo task1) as [worker|]; [|done].
  destruct (truthy (Some worker)); [|done].
  revert Hs1. by apply lifecycle_frame.
Qed.

Lemma lifecycle_published now src ty p o s :
  lifecycle s → lifecycle (TaskQueue.published now src ty p o s).
Proof.
  intros Hl. unfold TaskQueue.published.
  destruct (MessageBus.publish _ _ _ _ _ _) as [[msg calls] bus'].
  assert (lifecycle (TaskQueue.with_messageBus bus' s)) as Hl'
    by (revert Hl; by apply lifecycle_frame).
  revert Hl'. generalize (TaskQueue.with_messageBus bus' s).
  induction calls as [|c calls IH]; intros s0 Hs0; cbn [foldl]; [done|].
  apply IH. unfold TaskQueue.deliver.
  destruct (MessageBus.inv_handler c); try done.
  destruct (MessageBus.payload _); try done.
  by apply lifecycle_handleTaskCompletion.
Qed.

Lemma lifecycle_startTask now tid s : lifecycle s → lifecycle (TaskQueue.startTask now tid s).
Proof.
  intros Hl. unfold TaskQueue.startTask.
  destruct (TaskQueue.tasks s !! tid) as [k|] eqn:Hk; [|done].
  case_bool_decide as Hst; [|done].
  destruct (Hl tid k Hk) as (Hid & Hnc & Hpa & Haa & _ & Hca & Hrc & Hf).
  apply lifecycle_insert; [|done]. unfold TaskQueue.sane. cbn.
  split_and!; try done; try (by intros [?|?]); try by eexists.
  intros _. apply Haa. by left.
Qed.

Lemma lifecycle_submit now ty cap p o s :
  lifecycle s → lifecycle (TaskQueue.submit now ty cap p o s).2.
Proof.
  intros Hl. unfold TaskQueue.submit. cbv zeta. cbn [snd].
  apply lifecycle_enqueue. intros x k. cbn [TaskQueue.tasks TaskQueue.id].
  rewrite lookup_insert. case_decide as Hx; [|apply Hl].
  intros [= <-]. unfold TaskQueue.sane. cbn.
  split_and!; try done; try by intros [?|?].
Qed.

Lemma lifecycle_call s c : lifecycle s → lifecycle (TaskQueue.call s c).
Proof.
  intros Hl. destruct c; cbn [TaskQueue.call].
  - by apply lifecycle_submit.
  - by apply lifecycle_processQueue.
  - by apply lifecycle_startTask.
  - unfold TaskQueue.completeTask. destruct (TaskQueue.tasks s !! taskId); [|done].
    by apply lifecycle_published.
  - unfold TaskQueue.failTask. destruct (TaskQueue.tasks s !! taskId); [|done].
    by apply lifecycle_published.
  - destruct (AgentRegistry.register _ _ _ _ _ _ _) as [[? r] b].
    revert Hl. by apply lifecycle_frame.
  - revert Hl. by apply lifecycle_frame.
  - revert Hl. by apply lifecycle_frame.
  - revert Hl. by apply lifecycle_frame.
  - revert Hl. by apply lifecycle_frame.
  - revert Hl. by apply lifecycle_frame.
  - by apply lifecycle_published.
Qed.

Lemma lifecycle_run cs : lifecycle (TaskQueue.run cs).
Proof.
  unfold TaskQueue.run.
  assert (lifecycle (TaskQueue.new MessageBus.new AgentRegistry.new)) as H0.
  { intros x k Hk. cbn in Hk. by rewrite lookup_empty in Hk. }
  revert H0. generalize (TaskQueue.new MessageBus.new AgentRegistry.new).
  induction cs as [|c cs IH]; intros s Hs; cbn [foldl]; [done|].
  by apply IH, lifecycle_call.
Qed.

(** Counting by status splits a list of tasks. *)
Lemma count_total (l : list TaskQueue.Task) :
  length l
  = TaskQueue.count TaskQueue.PENDING l + TaskQueue.count TaskQueue.ASSIGNED l
    + TaskQueue.count TaskQueue.IN_PROGRESS l + TaskQueue.count TaskQueue.COMPLETED l
    + TaskQueue.count TaskQueue.FAILED l + TaskQueue.count TaskQueue.CANCELLED l.
Proof.
  unfold TaskQueue.count. induction l as [|k l IH]; [done|].
  rewrite !filter_cons. cbn [length]. rewrite IH.
  destruct (TaskQueue.status k);
    repeat first [rewrite decide_True by done | rewrite decide_False by done];
    cbn [length]; lia.
Qed.

End QueueLifecycle.

(** X10.  After any calls on a fresh core, [submit] stores a new task under
    an id that no stored task has, so it overwrites nothing; the task is
    pending, unassigned, with no retry counted and with the defaults for the
    options left out; its id enters the backlog once; and [submit] itself
    assigns nothing and publishes nothing, also when a capable agent is
    ready. *)
Theorem submit_fresh (cs : list TaskQueue.Call) (now : N) (type0 cap : string)
    (payload : Unknown) (options : option TaskQueue.SubmitOptions) :
  let s := TaskQueue.run cs in
  let '(task, s') := TaskQueue.submit now type0 cap payload options s in
  TaskQueue.tasks s !! TaskQueue.id task = None
  ∧ TaskQueue.tasks s' = <[TaskQueue.id task := task]> (TaskQueue.tasks s)
  ∧ TaskQueue.getTask (TaskQueue.id task) s' = Some task
  ∧ TaskQueue.status task = TaskQueue.PENDING
  ∧ TaskQueue.assignedTo task = None
  ∧ TaskQueue.retryCount task = 0%Z
  ∧ TaskQueue.priority task = default TaskQueue.NORMAL (options ≫= TaskQueue.opt_priority)
  ∧ TaskQueue.maxRetries task = default 3%Z (options ≫= TaskQueue.opt_maxRetries)
  ∧ TaskQueue.dependencies task = default [] (options ≫= TaskQueue.opt_dependencies)
  ∧ (∃ front back, TaskQueue.pendingQueue s = front ++ back
                   ∧ TaskQueue.pendingQueue s' = front ++ TaskQueue.id task :: back)
  ∧ TaskQueue.registry s' = TaskQueue.registry s
  ∧ TaskQueue.messageBus s' = TaskQueue.messageBus s.
Proof.
  cbv zeta. destruct (sound_run cs) as [_ Hm].
  set (s := TaskQueue.run cs) in *.
  unfold TaskQueue.submit, TaskQueue.getTask. cbv zeta.
  set (c := (TaskQueue.taskIdCounter s + 1)%N).
  assert (TaskQueue.tasks s !! TaskQueue.generateTaskId now c = None) as Hfresh.
  { destruct (TaskQueue.tasks s !! TaskQueue.generateTaskId now c) eqn:Hl; [|done].
    destruct (Hm (TaskQueue.generateTaskId now c)) as (now' & c' & Heq & Hle); [by rewrite Hl|].
    apply generateTaskId_inj in Heq as [_ <-]. unfold c in Hle. lia. }
  unfold TaskQueue.enqueue. cbn [TaskQueue.tasks TaskQueue.id].
  rewrite lookup_insert_eq.
  cbn [TaskQueue.tasks TaskQueue.with_pendingQueue TaskQueue.pendingQueue TaskQueue.registry
       TaskQueue.messageBus TaskQueue.status TaskQueue.assignedTo TaskQueue.retryCount
       TaskQueue.priority TaskQueue.maxRetries TaskQueue.dependencies].
  split_and!; try done.
  - apply lookup_insert_eq.
  - match goal with
    | |- context [TaskQueue.enqueue_at ?m ?k ?t ?q] =>
        destruct (enqueue_at_position m k t q) as (front & back & Hq & Hq' & _)
    end.
    by exists front, back.
Qed.

(** X11.  After any calls on a fresh core, every stored task is stored under
    its own id, is not cancelled, has no worker while it is pending and has
    one while it is assigned or in progress, has a start time while it is in
    progress and an end time once it is completed or failed, has a retry
    count that is not negative, and, if it is failed, a retry count that has
    reached [maxRetries]. *)
Theorem task_lifecycle (cs : list TaskQueue.Call) : TaskQueue.lifecycle (TaskQueue.run cs).
Proof. apply lifecycle_run. Qed.

(** X12.  [getStats] after any calls on a fresh core: the total is the number
    of stored tasks, and the four counters it reports add up to the total less
    the tasks that are assigned and not yet started, which it counts in no
    counter. *)
Theorem getStats_accounting (cs : list TaskQueue.Call) :
  let s := TaskQueue.run cs in
  let stats := TaskQueue.getStats s in
  TaskQueue.totalTasks stats = size (TaskQueue.tasks s)
  ∧ TaskQueue.totalTasks stats
    = TaskQueue.pending stats + TaskQueue.inProgress stats + TaskQueue.completed stats
      + TaskQueue.failed stats
      + TaskQueue.count TaskQueue.ASSIGNED (map_to_list (TaskQueue.tasks s)).*2.
Proof.
  cbv zeta. unfold TaskQueue.getStats. cbv zeta.
  cbn [TaskQueue.totalTasks TaskQueue.pending TaskQueue.inProgress TaskQueue.completed
       TaskQueue.failed].
  split; [by rewrite length_fmap, length_map_to_list|].
  rewrite (count_total (map_to_list (TaskQueue.tasks (TaskQueue.run cs))).*2).
  assert (TaskQueue.count TaskQueue.CANCELLED
            (map_to_list (TaskQueue.tasks (TaskQueue.run cs))).*2 = 0) as ->; [|lia].
  unfold TaskQueue.count. apply length_zero_iff_nil.
  pose proof (lifecycle_run cs) as Hl.
  assert (Forall (λ k, TaskQueue.status k ≠ TaskQueue.CANCELLED)
            (map_to_list (TaskQueue.tasks (TaskQueue.run cs))).*2) as Hall.
  { apply Forall_forall. intros k Hk.
    apply list_elem_of_fmap in Hk as ([x k'] & -> & Hk).
    apply elem_of_map_to_list in Hk. by destruct (Hl x k' Hk) as (_ & ? & _). }
  induction Hall as [|k l Hk Hall IH]; [done|].
  rewrite filter_cons. by rewrite decide_False.
Qed.

Section QueueReports.

Implicit Types (s : TaskQueue.t) (m : gmap string TaskQueue.Task) (k : TaskQueue.Task).

(** The task after a list of failure reports: each report counts once. *)
Lemma failTask_fold (reports : list (N * string)) tid s k :
  wired s →
  TaskQueue.tasks s !! tid = Some k →
  let s' := foldl (λ s0 r, TaskQueue.failTask r.1 tid r.2 s0) s reports in
  wired s'
  ∧ ∃ k', TaskQueue.tasks s' !! tid = Some k'
          ∧ TaskQueue.retryCount k' = (TaskQueue.retryCount k + Z.of_nat (length reports))%Z
          ∧ TaskQueue.maxRetries k' = TaskQueue.maxRetries k.
Proof.
  intros Hw Hk. cbv zeta. induction reports as [|[now e] reports IH] using rev_ind.
  - split; [done|]. exists k. split_and!; [done|cbn; lia|done].
  - rewrite foldl_app. cbn [foldl fst snd].
    destruct IH as (Hw' & k' & Hk' & Hrc & Hmax).
    destruct (failTask_spec now tid e _ k' Hw' Hk') as (Hw'' & k'' & Hk'' & Hrc' & Hmax' & _).
    split; [done|]. exists k''. split_and!; [done| |congruence].
    rewrite Hrc', Hrc, length_app. cbn [length]. lia.
Qed.

(** What [handleTaskCompletion] does to the task of a success report. *)
Lemma completeTask_task now tid result0 s k :
  wired s →
  TaskQueue.tasks s !! tid = Some k →
  TaskQueue.tasks (TaskQueue.completeTask now tid result0 s) !! tid
  = Some (TaskQueue.assign k TaskQueue.COMPLETED (TaskQueue.assignedTo k)
            (TaskQueue.startedAt k) (Some now) (Some result0) (TaskQueue.error k)
            (TaskQueue.retryCount k)).
Proof.
  intros Hw Hk. unfold TaskQueue.completeTask. rewrite Hk.
  rewrite publishCompleted_wired by done.
  unfold TaskQueue.handleTaskCompletion.
  cbn [TaskQueue.tasks TaskQueue.with_messageBus Wire.success Wire.data]. rewrite Hk.
  match goal with |- context [TaskQueue.processQueue now ?S] => set (s2 := S) end.
  assert (TaskQueue.tasks s2 !! tid
          = Some (TaskQueue.assign k TaskQueue.COMPLETED (TaskQueue.assignedTo k)
                    (TaskQueue.startedAt k) (Some now) (Some result0) (TaskQueue.error k)
                    (TaskQueue.retryCount k))) as Hk2.
  { unfold s2. cbn [TaskQueue.assignedTo TaskQueue.assign].
    destruct (TaskQueue.assignedTo k) as [worker|];
      [destruct (truthy (Some worker))|];
      cbn [TaskQueue.tasks TaskQueue.with_tasks TaskQueue.with_registry];
      by rewrite lookup_insert_eq. }
  destruct (processQueue_scan now s2) as (Hscan & _).
  destruct (Hscan tid) as [E|(k0 & w & Hk0 & Hp0 & E)].
  - by rewrite E, Hk2.
  - rewrite Hk2 in Hk0. injection Hk0 as <-. discriminate Hp0.
Qed.

End QueueReports.



(** X14.  [completeTask] and [failTask] for an id that is not stored, and
    [startTask] for an id that is not stored or whose task is not assigned,
    change nothing and publish nothing.  [completeTask] for a stored task,
    whatever its status, leaves it completed with the given result, which
    [getTaskResult] then returns, and with the end time set; its worker, retry
    count and start time stay as they were. *)
Theorem completeTask_result (s : TaskQueue.t) (now : N) (tid : string) (result0 : Unknown)
    (error0 : string) :
  wired s →
  match TaskQueue.tasks s !! tid with
  | None =>
      TaskQueue.completeTask now tid result0 s = s
      ∧ TaskQueue.failTask now tid error0 s = s
      ∧ TaskQueue.startTask now tid s = s
  | Some k =>
      let s' := TaskQueue.completeTask now tid result0 s in
      (TaskQueue.status k ≠ TaskQueue.ASSIGNED → TaskQueue.startTask now tid s = s)
      ∧ TaskQueue.getTaskResult tid s' = Some result0
      ∧ ∃ k', TaskQueue.getTask tid s' = Some k'
              ∧ TaskQueue.status k' = TaskQueue.COMPLETED
              ∧ TaskQueue.completedAt k' = Some now
              ∧ TaskQueue.assignedTo k' = TaskQueue.assignedTo k
              ∧ TaskQueue.startedAt k' = TaskQueue.startedAt k
              ∧ TaskQueue.retryCount k' = TaskQueue.retryCount k
  end.
Proof.
  intros Hw. destruct (TaskQueue.tasks s !! tid) as [k|] eqn:Hk.
  - cbv zeta. unfold TaskQueue.getTaskResult, TaskQueue.getTask.
    rewrite (completeTask_task now tid result0 s k Hw Hk). split_and!.
    + intros Hst. unfold TaskQueue.startTask. rewrite Hk. by rewrite bool_decide_eq_false_2.
    + done.
    + eexists. split; [done|]. by split_and!.
  - unfold TaskQueue.completeTask, TaskQueue.failTask, TaskQueue.startTask. by rewrite Hk.
Qed.

Lemma completeTask_result_witness :
  let s := TaskQueue.run retrySession in
  let s' := TaskQueue.completeTask 9 "task_2_1" "page" s in
  TaskQueue.getTaskResult "task_2_1" s' = Some "page"
  ∧ TaskQueue.status <$> TaskQueue.getTask "task_2_1" s' = Some TaskQueue.COMPLETED
  ∧ TaskQueue.completeTask 9 "task_0_0" "page" s = s.
Proof.
  cbv zeta.
  pose proof (completeTask_result (TaskQueue.run retrySession) 9 "task_2_1" "page" "boom"
                (wired_run retrySession)) as Hknown.
  pose proof (completeTask_result (TaskQueue.run retrySession) 9 "task_0_0" "page" "boom"
                (wired_run retrySession)) as Hunknown.
  assert (TaskQueue.status <$> TaskQueue.tasks (TaskQueue.run retrySession) !! "task_2_1"
          = Some TaskQueue.ASSIGNED) as Hk by (vm_compute; reflexivity).
  assert (TaskQueue.tasks (TaskQueue.run retrySession) !! "task_0_0" = None) as Hn
    by (vm_compute; reflexivity).
  destruct (TaskQueue.tasks (TaskQueue.run retrySession) !! "task_2_1") as [k|];
    [|discriminate Hk].
  rewrite Hn in Hunknown. cbv zeta in Hknown.
  destruct Hknown as (_ & Hres & k' & Hk' & Hst & _).
  destruct Hunknown as (Hsame & _).
  split; [exact Hres|]. split; [by rewrite Hk', <- Hst|exact Hsame].
Defined.

(** ** Task queue: what one scan of the backlog does *)

Section QueueScan.

Implicit Types (s : TaskQueue.t) (m : gmap string TaskQueue.Task) (k : TaskQueue.Task)
  (r : AgentRegistry.t).

(** A scan makes no agent ready. *)
Lemma ready_scan now r r' n a :
  scan_registry now r r' →
  a ∈ AgentRegistry.findReadyByCapability n r' → a ∈ AgentRegistry.findReadyByCapability n r.
Proof.
  intros [Hidx Hag]. rewrite !elem_of_findReadyByCapability, !elem_of_findByCapability.
  intros (Hst & ids & i & Hids & Hi & Ha). split; [done|].
  exists ids, i. rewrite <- Hidx. split_and!; [done|done|].
  destruct (Hag i) as [E|(a0 & _ & _ & E)]; [by rewrite <- E|].
  rewrite E in Ha. injection Ha as <-. discriminate Hst.
Qed.

Lemma ready_scan_nil now r r' n :
  scan_registry now r r' →
  AgentRegistry.findReadyByCapability n r = [] → AgentRegistry.findReadyByCapability n r' = [].
Proof.
  intros Hscan Hnil. destruct (AgentRegistry.findReadyByCapability n r') as [|a l] eqn:Hl; [done|].
  assert (a ∈ AgentRegistry.findReadyByCapability n r) as Hin.
  { eapply ready_scan; [done|]. rewrite Hl. apply list_elem_of_here. }
  rewrite Hnil in Hin. by apply elem_of_nil in Hin.
Qed.

(** One turn of the loop either passes over the entry or assigns it. *)
Lemma step_skipped_or_assigned now s acc tid :
  (skipped s tid ∧ TaskQueue.processQueue_step now (s, acc) tid = (s, acc))
  ∨ ∃ k a rest,
      TaskQueue.tasks s !! tid = Some k
      ∧ TaskQueue.status k = TaskQueue.PENDING
      ∧ AgentRegistry.findReadyByCapability (TaskQueue.requiredCapability k)
          (TaskQueue.registry s) = a :: rest
      ∧ TaskQueue.processQueue_step now (s, acc) tid
        = (TaskQueue.assignTask now tid k a s, acc ++ [tid]).
Proof.
  unfold TaskQueue.processQueue_step, skipped.
  destruct (TaskQueue.tasks s !! tid) as [k|] eqn:Hk; [|by left].
  case_bool_decide as Hst; cbn [negb]; [|left; split; [by left|done]].
  destruct (TaskQueue.areDependenciesMet (TaskQueue.tasks s) k) eqn:Hd; cbn [negb];
    [|left; split; [right; by left|done]].
  destruct (AgentRegistry.findReadyByCapability _ _) as [|a rest] eqn:Hf;
    [left; split; [right; by right|done]|].
  right. by exists k, a, rest.
Qed.

Lemma step_skipped now s acc tid :
  skipped s tid → TaskQueue.processQueue_step now (s, acc) tid = (s, acc).
Proof.
  intros Hsk. destruct (step_skipped_or_assigned now s acc tid)
    as [[_ ?]|(k & a & rest & Hk & Hp & Hf & _)]; [done|].
  unfold skipped in Hsk. rewrite Hk in Hsk.
  unfold TaskQueue.processQueue_step. rewrite Hk.
  destruct Hsk as [Hst|[Hd|Hn]].
  - by rewrite bool_decide_eq_false_2.
  - rewrite bool_decide_eq_true_2 by done. by rewrite Hd.
  - rewrite Hn in Hf. discriminate Hf.
Qed.

Lemma fold_skipped now l s acc :
  Forall (skipped s) l → foldl (TaskQueue.processQueue_step now) (s, acc) l = (s, acc).
Proof.
  induction 1 as [|t l Ht Hl IH]; cbn [foldl]; [done|]. by rewrite step_skipped.
Qed.

(** An entry that a scan would pass over is one it would pass over after a
    scan. *)
Lemma skipped_scan now s s' tid :
  scan_tasks (TaskQueue.tasks s) (TaskQueue.tasks s') →
  scan_registry now (TaskQueue.registry s) (TaskQueue.registry s') →
  skipped s tid → skipped s' tid.
Proof.
  intros Ht Hr. unfold skipped.
  destruct (Ht tid) as [E|(k & w & Hk & Hp & E)].
  - rewrite E. destruct (TaskQueue.tasks s !! tid) as [k|]; [|done].
    intros [Hst|[Hd|Hn]].
    + by left.
    + right. left. by eapply deps_unmet_scan.
    + right. right. by eapply ready_scan_nil.
  - rewrite E. intros _. by left.
Qed.

(** After the loop of [processQueue], every entry it did not assign is one
    that a turn of the loop passes over. *)
Lemma scan_fold_skipped now l s acc :
  AgentRegistry.keyed (TaskQueue.registry s) →
  let r := foldl (TaskQueue.processQueue_step now) (s, acc) l in
  ∀ t, t ∈ l → t ∉ r.2 → skipped r.1 t.
Proof.
  revert s acc. induction l as [|t0 l IH]; intros s acc Hkey; cbv zeta.
  { intros t Ht. by apply elem_of_nil in Ht. }
  cbn [foldl]. intros t Ht Hnot.
  pose proof (step_registry now s acc t0 Hkey) as [_ Hkey1].
  destruct (TaskQueue.processQueue_step now (s, acc) t0) as [s1 acc1] eqn:Hstep.
  cbn [fst] in Hkey1.
  destruct (decide (t ∈ l)) as [Hin|Hnin]; [by apply (IH s1 acc1 Hkey1)|].
  apply elem_of_cons in Ht as [->|?]; [|done].
  destruct (step_skipped_or_assigned now s acc t0)
    as [[Hsk Heq]|(k & a & rest & _ & _ & _ & Heq)]; rewrite Hstep in Heq.
  - injection Heq as -> ->.
    destruct (scan_fold now l s acc) as (Hscan & _).
    destruct (scan_fold_registry now l s acc Hkey) as (Hreg & _).
    by eapply skipped_scan.
  - injection Heq as _ ->. destruct Hnot. apply scan_fold_acc_mono.
    apply elem_of_app. right. apply list_elem_of_here.
Qed.

Lemma filter_none_assigned (l : list string) :
  filter (λ i, negb (bool_decide (i ∈ @nil string))) l = l.
Proof.
  induction l as [|x l IH]; [done|].
  rewrite filter_cons, decide_True; [by rewrite IH|].
  rewrite bool_decide_eq_false_2; [done|apply not_elem_of_nil].
Qed.

End QueueScan.

(** X15.  [processQueue] is idempotent: called again with nothing changed in
    between, it assigns nothing, publishes nothing and leaves the core exactly
    as the first call left it. *)
Theorem processQueue_idempotent (now1 now2 : N) (s : TaskQueue.t) :
  AgentRegistry.keyed (TaskQueue.registry s) →
  TaskQueue.processQueue now2 (TaskQueue.processQueue now1 s) = TaskQueue.processQueue now1 s.
Proof.
  intros Hkey. rewrite (processQueue_unfold now2).
  rewrite (processQueue_unfold now1 s). cbv zeta.
  pose proof (scan_fold_skipped now1 (TaskQueue.pendingQueue s) s [] Hkey) as Hsk.
  destruct (scan_fold now1 (TaskQueue.pendingQueue s) s []) as (_ & Hq & _).
  cbv zeta in Hsk, Hq.
  destruct (foldl (TaskQueue.processQueue_step now1) (s, []) (TaskQueue.pendingQueue s))
    as [s1 acc1] eqn:Hfold.
  cbn [fst snd] in *.
  cbn [TaskQueue.pendingQueue TaskQueue.with_pendingQueue].
  rewrite fold_skipped.
  - cbn [fst snd TaskQueue.pendingQueue TaskQueue.with_pendingQueue].
    by rewrite filter_none_assigned.
  - apply Forall_forall. intros t Ht. apply list_elem_of_filter in Ht as [Hnot Ht].
    rewrite Hq in Ht. apply (Hsk t Ht).
    intros Hin. rewrite bool_decide_eq_true_2 in Hnot by done. done.
Qed.

Lemma processQueue_idempotent_witness :
  let s := TaskQueue.processQueue 7 (TaskQueue.run contendedSession) in
  TaskQueue.processQueue 8 s = s
  ∧ TaskQueue.pendingQueue s = ["task_5_2"].
Proof.
  split.
  - apply (processQueue_idempotent 7 8 (TaskQueue.run contendedSession)). apply keyed_run.
  - vm_compute. reflexivity.
Defined.

Section QueueTargets.

Implicit Types (s : TaskQueue.t) (k : TaskQueue.Task) (r : AgentRegistry.t).

(** The agents that the loop of [processQueue] assigns tasks to: each was
    ready, is busy afterwards, and gets one task. *)
Lemma scan_fold_targets now l s acc :
  AgentRegistry.keyed (TaskQueue.registry s) →
  let s' := (foldl (TaskQueue.processQueue_step now) (s, acc) l).1 in
  ∃ more,
    TaskQueue.assignments s' = TaskQueue.assignments s ++ more
    ∧ NoDup more.*2
    ∧ ∀ x, x ∈ more →
        ∃ w a, x.2 = Some w
               ∧ AgentRegistry.agents (TaskQueue.registry s) !! w = Some a
               ∧ AgentRegistry.status a = AgentRegistry.READY
               ∧ AgentRegistry.agents (TaskQueue.registry s') !! w
                 = Some (AgentRegistry.with_status AgentRegistry.BUSY now a).
Proof.
  revert s acc. induction l as [|t l IH]; intros s acc Hkey; cbv zeta; cbn [foldl].
  { exists []. rewrite app_nil_r. split_and!; [done|constructor|].
    intros x Hx. by apply elem_of_nil in Hx. }
  cbv zeta in IH.
  pose proof (step_registry now s acc t Hkey) as [_ Hkey1].
  destruct (step_skipped_or_assigned now s acc t)
    as [[_ Heq]|(k & a & rest & Hk & Hp & Hf & Heq)]; rewrite Heq in Hkey1 |- *;
    [by apply IH|].
  destruct (findReady_head _ _ _ _ Hkey Hf) as [Ha Hready].
  cbn [fst] in Hkey1.
  set (s1 := TaskQueue.assignTask now t k a s) in *.
  assert (AgentRegistry.agents (TaskQueue.registry s1)
          = <[AgentRegistry.id a := AgentRegistry.with_status AgentRegistry.BUSY now a]>
              (AgentRegistry.agents (TaskQueue.registry s))) as Hag1.
  { unfold s1. rewrite assignTask_registry, updateStatus_agents. by rewrite Ha. }
  destruct (IH s1 (acc ++ [t]) Hkey1) as (more & Hmsg & Hnd & Hall).
  destruct (scan_fold_registry now l s1 (acc ++ [t]) Hkey1) as [[_ Hscan] _].
  exists ((TaskQueue.id k, Some (AgentRegistry.id a)) :: more). split_and!.
  - rewrite Hmsg. unfold s1. by rewrite assignments_assignTask, <- app_assoc.
  - rewrite fmap_cons. cbn [snd]. constructor; [|done].
    intros Hin. apply list_elem_of_fmap in Hin as (x & Hx2 & Hx).
    destruct (Hall x Hx) as (w & a1 & Hw & Ha1 & Hst1 & _).
    rewrite Hw in Hx2. injection Hx2 as <-.
    rewrite Hag1, lookup_insert_eq in Ha1. injection Ha1 as <-. discriminate Hst1.
  - intros x [->|Hx]%elem_of_cons.
    + exists (AgentRegistry.id a), a. cbn [snd]. split_and!; [done|done|done|].
      destruct (Hscan (AgentRegistry.id a)) as [E|(a0 & Ha0 & Hst0 & _)].
      * by rewrite E, Hag1, lookup_insert_eq.
      * rewrite Hag1, lookup_insert_eq in Ha0. injection Ha0 as <-. discriminate Hst0.
    + destruct (Hall x Hx) as (w & a1 & Hw & Ha1 & Hst1 & Hend).
      exists w, a1. split_and!; [done| |done|done].
      rewrite Hag1 in Ha1. rewrite lookup_insert in Ha1.
      case_decide as Hid; [|done]. injection Ha1 as <-. discriminate Hst1.
Qed.

End QueueTargets.

(** X16.  One call of [processQueue] gives each agent at most one task: the
    assignment messages it publishes are targeted at pairwise different
    agents, each of which was ready before the call and is busy after it. *)
Theorem processQueue_one_task_per_agent (now : N) (s : TaskQueue.t) :
  AgentRegistry.keyed (TaskQueue.registry s) →
  let s' := TaskQueue.processQueue now s in
  ∃ more,
    TaskQueue.assignments s' = TaskQueue.assignments s ++ more
    ∧ NoDup more.*2
    ∧ ∀ x, x ∈ more →
        ∃ w a, x.2 = Some w
               ∧ AgentRegistry.agents (TaskQueue.registry s) !! w = Some a
               ∧ AgentRegistry.status a = AgentRegistry.READY
               ∧ AgentRegistry.agents (TaskQueue.registry s') !! w
                 = Some (AgentRegistry.with_status AgentRegistry.BUSY now a).
Proof.
  intros Hkey. cbv zeta. rewrite processQueue_registry.
  destruct (scan_fold_targets now (TaskQueue.pendingQueue s) s [] Hkey) as (more & Hmsg & Hrest).
  exists more. split; [|exact Hrest].
  rewrite processQueue_unfold. cbv zeta. exact Hmsg.
Qed.

Lemma processQueue_one_task_per_agent_witness :
  let s := TaskQueue.run prioritySession in
  let s' := TaskQueue.processQueue 5 s in
  ∃ more,
    TaskQueue.assignments s' = TaskQueue.assignments s ++ more
    ∧ NoDup more.*2
    ∧ length more = 3.
Proof.
  cbv zeta.
  destruct (processQueue_one_task_per_agent 5 (TaskQueue.run prioritySession)
              (keyed_run prioritySession)) as (more & Hmsg & Hnd & _).
  exists more. split; [exact Hmsg|]. split; [exact Hnd|].
  assert (length (TaskQueue.assignments (TaskQueue.processQueue 5 (TaskQueue.run prioritySession)))
          = length (TaskQueue.assignments (TaskQueue.run prioritySession)) + 3) as Hlen
    by (vm_compute; reflexivity).
  rewrite Hmsg, length_app in Hlen. lia.
Defined.

(** ** A worker's handling of an assignment *)

Section WorkerFacts.

Implicit Types (s : TaskQueue.t) (k : TaskQueue.Task) (r : AgentRegistry.t).

(** A message of the history stays in it. *)
Lemma updateStatus_history now i st r (bus : Wire.Bus) msg :
  msg ∈ MessageBus.messageHistory bus →
  msg ∈ MessageBus.messageHistory (AgentRegistry.updateStatus now i st r bus).2.
Proof.
  intros Hin. unfold AgentRegistry.updateStatus.
  destruct (AgentRegistry.agents r !! i); [|done].
  case_bool_decide; [|done]. cbn. apply elem_of_app. by left.
Qed.

Lemma assignTask_history now tid k a s msg :
  msg ∈ MessageBus.messageHistory (TaskQueue.messageBus s) →
  msg ∈ MessageBus.messageHistory (TaskQueue.messageBus (TaskQueue.assignTask now tid k a s)).
Proof.
  intros Hin. unfold TaskQueue.assignTask. cbv zeta.
  cbn [TaskQueue.messageBus TaskQueue.with_messageBus TaskQueue.with_registry
       TaskQueue.with_tasks TaskQueue.registry].
  unfold MessageBus.publish, MessageBus.generateMessageId. cbn [snd MessageBus.messageHistory].
  apply elem_of_app. left. by apply updateStatus_history.
Qed.

Lemma scan_fold_history now l s acc msg :
  msg ∈ MessageBus.messageHistory (TaskQueue.messageBus s) →
  msg ∈ MessageBus.messageHistory
          (TaskQueue.messageBus (foldl (TaskQueue.processQueue_step now) (s, acc) l).1).
Proof.
  revert s acc. induction l as [|t l IH]; intros s acc Hin; cbn [foldl]; [done|].
  destruct (step_skipped_or_assigned now s acc t)
    as [[_ Heq]|(k & a & rest & _ & _ & _ & Heq)]; rewrite Heq; apply IH; [done|].
  by apply assignTask_history.
Qed.

Lemma processQueue_history now s msg :
  msg ∈ MessageBus.messageHistory (TaskQueue.messageBus s) →
  msg ∈ MessageBus.messageHistory (TaskQueue.messageBus (TaskQueue.processQueue now s)).
Proof.
  intros Hin. rewrite processQueue_unfold. cbv zeta.
  cbn [TaskQueue.messageBus TaskQueue.with_pendingQueue]. by apply scan_fold_history.
Qed.

Lemma handleTaskCompletion_history now tid res s msg :
  msg ∈ MessageBus.messageHistory (TaskQueue.messageBus s) →
  msg ∈ MessageBus.messageHistory
          (TaskQueue.messageBus (TaskQueue.handleTaskCompletion now tid res s)).
Proof.
  intros Hin. unfold TaskQueue.handleTaskCompletion.
  destruct (TaskQueue.tasks s !! tid) as [k|]; [|done].
  match goal with
  | |- context [let '(task1, s1) := ?X in _] =>
      assert (TaskQueue.messageBus X.2 = TaskQueue.messageBus s) as Hs1;
      [|destruct X as [task1 s1]]
  end.
  { destruct (Wire.success res); cbn [snd]; [done|].
    case_bool_decide; cbn [snd]; [|done].
    unfold TaskQueue.enqueue. by destruct (TaskQueue.tasks _ !! tid). }
  cbn [snd] in Hs1. apply processQueue_history.
  destruct (TaskQueue.assignedTo task1) as [worker|]; [|by rewrite Hs1].
  destruct (truthy (Some worker)); [|by rewrite Hs1].
  cbn [TaskQueue.messageBus TaskQueue.with_registry]. rewrite Hs1.
  by apply updateStatus_history.
Qed.

(** The completion message that [completeTask] publishes. *)
Lemma completeTask_message now tid result0 s k :
  wired s →
  TaskQueue.tasks s !! tid = Some k →
  ∃ msg, msg ∈ MessageBus.messageHistory
                 (TaskQueue.messageBus (TaskQueue.completeTask now tid result0 s))
         ∧ MessageBus.fields msg
           = (MessageBus.TASK_COMPLETED, or_else (TaskQueue.assignedTo k) "unknown", None,
              Wire.TaskCompletedPayload tid
                {| Wire.taskId := tid; Wire.success := true; Wire.data := Some result0;
                   Wire.error := None;
                   Wire.executionTimeMs := TaskQueue.executionTime now k |},
              now, None, None).
Proof.
  intros Hw Hk. unfold TaskQueue.completeTask. rewrite Hk.
  rewrite publishCompleted_wired by done.
  eexists. split.
  - apply handleTaskCompletion_history.
    cbn [TaskQueue.messageBus TaskQueue.with_messageBus].
    unfold MessageBus.publish, MessageBus.generateMessageId. cbn [snd MessageBus.messageHistory].
    apply elem_of_app. right. apply list_elem_of_here.
  - reflexivity.
Qed.

(** The agents that are registered stay registered through the queue's
    handling of a report. *)
Lemma updateStatus_known now i st r (bus : Wire.Bus) w :
  is_Some (AgentRegistry.agents (AgentRegistry.updateStatus now i st r bus).1 !! w)
  ↔ is_Some (AgentRegistry.agents r !! w).
Proof.
  rewrite updateStatus_agents. destruct (AgentRegistry.agents r !! i) as [rec|] eqn:Hrec; [|done].
  rewrite lookup_insert. case_decide as Hi; [|done]. subst i. rewrite Hrec. split; by eauto.
Qed.

Lemma scan_registry_known now r r' w :
  scan_registry now r r' →
  is_Some (AgentRegistry.agents r' !! w) ↔ is_Some (AgentRegistry.agents r !! w).
Proof.
  intros [_ Hag]. destruct (Hag w) as [E|(a & Ha & _ & E)]; [by rewrite E|].
  rewrite E, Ha. split; by eauto.
Qed.

Lemma handleTaskCompletion_known now tid res s w :
  AgentRegistry.keyed (TaskQueue.registry s) →
  is_Some (AgentRegistry.agents
             (TaskQueue.registry (TaskQueue.handleTaskCompletion now tid res s)) !! w)
  ↔ is_Some (AgentRegistry.agents (TaskQueue.registry s) !! w).
Proof.
  intros Hkey. unfold TaskQueue.handleTaskCompletion.
  destruct (TaskQueue.tasks s !! tid) as [k|]; [|done].
  match goal with
  | |- context [let '(task1, s1) := ?X in _] =>
      assert (TaskQueue.registry X.2 = TaskQueue.registry s) as Hs1;
      [|destruct X as [task1 s1]]
  end.
  { destruct (Wire.success res); cbn [snd]; [done|].
    case_bool_decide; cbn [snd]; [|done].
    unfold TaskQueue.enqueue. by destruct (TaskQueue.tasks _ !! tid). }
  cbn [snd] in Hs1.
  match goal with |- context [TaskQueue.processQueue now ?S] => set (s2 := S) end.
  assert (AgentRegistry.keyed (TaskQueue.registry s2)
          ∧ (is_Some (AgentRegistry.agents (TaskQueue.registry s2) !! w)
             ↔ is_Some (AgentRegistry.agents (TaskQueue.registry s) !! w))) as [Hkey2 Hknown].
  { unfold s2. destruct (TaskQueue.assignedTo task1) as [worker|]; [|by rewrite Hs1].
    destruct (truthy (Some worker)); [|by rewrite Hs1].
    cbn [TaskQueue.registry TaskQueue.with_registry]. rewrite Hs1.
    split; [by apply keyed_updateStatus|apply updateStatus_known]. }
  destruct (processQueue_keyed now s2 Hkey2) as [Hscan _].
  rewrite <- Hknown. by eapply scan_registry_known.
Qed.

(** A scan that finds no ready agent for the capability of a pending task
    leaves the task pending and in the backlog. *)
Lemma scan_fold_no_ready now l s acc tid k :
  AgentRegistry.keyed (TaskQueue.registry s) →
  TaskQueue.tasks s !! tid = Some k →
  AgentRegistry.findReadyByCapability (TaskQueue.requiredCapability k) (TaskQueue.registry s)
  = [] →
  let r := foldl (TaskQueue.processQueue_step now) (s, acc) l in
  TaskQueue.tasks r.1 !! tid = Some k ∧ (tid ∈ r.2 → tid ∈ acc).
Proof.
  revert s acc. induction l as [|t l IH]; intros s acc Hkey Hk Hn; cbv zeta; cbn [foldl].
  { done. }
  cbv zeta in IH.
  destruct (decide (t = tid)) as [->|Hne].
  - rewrite step_skipped; [by apply IH|].
    unfold skipped. rewrite Hk. right. by right.
  - pose proof (step_registry now s acc t Hkey) as [Hscan Hkey1].
    pose proof (step_other now s acc t tid (not_eq_sym Hne)) as Hother.
    pose proof (step_acc now s acc t tid) as Hacc.
    destruct (TaskQueue.processQueue_step now (s, acc) t) as [s1 acc1].
    cbn [fst snd] in *.
    destruct (IH s1 acc1 Hkey1) as [Hk' Hin'].
    + by rewrite Hother.
    + by eapply ready_scan_nil.
    + split; [done|]. intros Hin. destruct (Hacc (Hin' Hin)) as [?|?]; [done|congruence].
Qed.

Lemma processQueue_no_ready now s tid k :
  AgentRegistry.keyed (TaskQueue.registry s) →
  TaskQueue.tasks s !! tid = Some k →
  AgentRegistry.findReadyByCapability (TaskQueue.requiredCapability k) (TaskQueue.registry s)
  = [] →
  TaskQueue.tasks (TaskQueue.processQueue now s) !! tid = Some k
  ∧ (tid ∈ TaskQueue.pendingQueue s → tid ∈ TaskQueue.pendingQueue (TaskQueue.processQueue now s)).
Proof.
  intros Hkey Hk Hn. rewrite processQueue_unfold. cbv zeta.
  destruct (scan_fold_no_ready now (TaskQueue.pendingQueue s) s [] tid k Hkey Hk Hn)
    as [Hk' Hacc].
  destruct (scan_fold now (TaskQueue.pendingQueue s) s []) as (_ & Hq & _).
  cbv zeta in Hq.
  cbn [TaskQueue.tasks TaskQueue.pendingQueue TaskQueue.with_pendingQueue].
  split; [done|]. intros Hin. apply list_elem_of_filter. rewrite Hq. split; [|done].
  rewrite bool_decide_eq_false_2; [done|].
  intros Hin'. apply Hacc in Hin'. by apply elem_of_nil in Hin'.
Qed.

End WorkerFacts.

(** X17.  A worker that handles the assignment of a task assigned to it and
    whose [processTask] returns a result leaves the task completed with that
    result, started at the time the handling began and ended at the time it
    ended; the completion message it publishes reports the time between the
    two as [executionTimeMs]; and the worker is ready at the end. *)
Theorem worker_completes_task (started ended : N) (w tid taskType : string)
    (payload0 : Unknown) (meta : Metadata) (m : Wire.Message) (result0 : Unknown)
    (s : TaskQueue.t) (k : TaskQueue.Task) (a : AgentRegistry.AgentRecord) :
  wired s →
  AgentRegistry.keyed (TaskQueue.registry s) →
  MessageBus.payload m = Wire.TaskAssignedPayload tid taskType payload0 meta →
  TaskQueue.tasks s !! tid = Some k →
  TaskQueue.status k = TaskQueue.ASSIGNED →
  AgentRegistry.agents (TaskQueue.registry s) !! w = Some a →
  let s' := AutonomousAgent.handleTaskAssignment started ended w m
              (AutonomousAgent.Returned result0) s in
  (∃ k', TaskQueue.getTask tid s' = Some k'
         ∧ TaskQueue.status k' = TaskQueue.COMPLETED
         ∧ TaskQueue.startedAt k' = Some started
         ∧ TaskQueue.completedAt k' = Some ended
         ∧ TaskQueue.result k' = Some result0
         ∧ TaskQueue.assignedTo k' = TaskQueue.assignedTo k)
  ∧ (∃ a', AgentRegistry.agents (TaskQueue.registry s') !! w = Some a'
           ∧ AgentRegistry.status a' = AgentRegistry.READY
           ∧ AgentRegistry.lastHeartbeat a' = ended)
  ∧ ∃ msg, msg ∈ MessageBus.getHistory (TaskQueue.messageBus s')
           ∧ MessageBus.fields msg
             = (MessageBus.TASK_COMPLETED, or_else (TaskQueue.assignedTo k) "unknown", None,
                Wire.TaskCompletedPayload tid
                  {| Wire.taskId := tid; Wire.success := true; Wire.data := Some result0;
                     Wire.error := None;
                     Wire.executionTimeMs := (Z.of_N ended - Z.of_N started)%Z |},
                ended, None, None).
Proof.
  intros Hw Hkey Hm Hk Hst Ha. cbv zeta.
  unfold AutonomousAgent.handleTaskAssignment, AutonomousAgent.handleTaskAssignment_end,
    AutonomousAgent.handleTaskAssignment_begin.
  rewrite Hm. cbn [AutonomousAgent.payload_taskId]. cbv zeta.
  set (s0 := TaskQueue.with_registry _ s).
  assert (s0 = TaskQueue.call s (TaskQueue.CallUpdateStatus started w AgentRegistry.BUSY))
    as Hs0 by reflexivity.
  set (s1 := TaskQueue.startTask started tid s0).
  assert (s1 = TaskQueue.call s0 (TaskQueue.CallStartTask started tid)) as Hs1 by reflexivity.
  assert (wired s1) as Hw1 by (rewrite Hs1, Hs0; by do 2 apply wired_call).
  assert (AgentRegistry.keyed (TaskQueue.registry s1)) as Hkey1
    by (rewrite Hs1, Hs0; by do 2 apply keyed_call).
  set (k1 := TaskQueue.assign k TaskQueue.IN_PROGRESS (TaskQueue.assignedTo k) (Some started)
               (TaskQueue.completedAt k) (TaskQueue.result k) (TaskQueue.error k)
               (TaskQueue.retryCount k)).
  assert (TaskQueue.tasks s1 !! tid = Some k1) as Hk1.
  { unfold s1, TaskQueue.startTask.
    change (TaskQueue.tasks s0) with (TaskQueue.tasks s). rewrite Hk.
    rewrite bool_decide_eq_true_2 by done.
    cbn [TaskQueue.tasks TaskQueue.with_tasks]. apply lookup_insert_eq. }
  assert (is_Some (AgentRegistry.agents (TaskQueue.registry s1) !! w)) as Hknown1.
  { unfold s1, TaskQueue.startTask.
    change (TaskQueue.tasks s0) with (TaskQueue.tasks s). rewrite Hk.
    rewrite bool_decide_eq_true_2 by done.
    cbn [TaskQueue.registry TaskQueue.with_tasks]. unfold s0.
    cbn [TaskQueue.registry TaskQueue.with_registry]. apply updateStatus_known. by eexists. }
  set (s2 := TaskQueue.completeTask ended tid result0 s1).
  assert (is_Some (AgentRegistry.agents (TaskQueue.registry s2) !! w)) as [a2 Ha2].
  { unfold s2, TaskQueue.completeTask. rewrite Hk1.
    rewrite publishCompleted_wired by done.
    apply handleTaskCompletion_known; done. }
  split_and!.
  - unfold TaskQueue.getTask. cbn [TaskQueue.tasks TaskQueue.with_registry].
    unfold s2. rewrite (completeTask_task ended tid result0 s1 k1 Hw1 Hk1).
    eexists. split; [done|]. by split_and!.
  - cbn [TaskQueue.registry TaskQueue.with_registry].
    rewrite updateStatus_agents, Ha2, lookup_insert_eq.
    eexists. split; [done|]. by split.
  - destruct (completeTask_message ended tid result0 s1 k1 Hw1 Hk1) as (msg & Hin & Hf).
    exists msg. split; [|exact Hf].
    unfold MessageBus.getHistory. cbn [TaskQueue.messageBus TaskQueue.with_registry].
    by apply updateStatus_history.
Qed.

Lemma worker_completes_task_witness :
  let s := TaskQueue.run retrySession in
  let m : Wire.Message :=
    {| MessageBus.id := "msg_3_4"; MessageBus.type := MessageBus.TASK_ASSIGNED;
       MessageBus.source := "task-queue"; MessageBus.target := Some "w1";
       MessageBus.payload := Wire.TaskAssignedPayload "task_2_1" "job" "page" ∅;
       MessageBus.timestamp := 3; MessageBus.correlationId := None;
       MessageBus.replyTo := None |} in
  let s' := AutonomousAgent.handleTaskAssignment 10 25 "w1" m
              (AutonomousAgent.Returned "html") s in
  (∃ k', TaskQueue.getTask "task_2_1" s' = Some k'
         ∧ TaskQueue.status k' = TaskQueue.COMPLETED
         ∧ TaskQueue.result k' = Some "html")
  ∧ ∃ a', AgentRegistry.agents (TaskQueue.registry s') !! "w1" = Some a'
          ∧ AgentRegistry.status a' = AgentRegistry.READY.
Proof.
  cbv zeta.
  assert (∃ k, TaskQueue.tasks (TaskQueue.run retrySession) !! "task_2_1" = Some k
               ∧ TaskQueue.status k = TaskQueue.ASSIGNED) as (k & Hk & Hst).
  { eexists. split; [evaluate_lhs; reflexivity|reflexivity]. }
  assert (∃ a, AgentRegistry.agents (TaskQueue.registry (TaskQueue.run retrySession)) !! "w1"
               = Some a) as (a & Ha).
  { eexists. evaluate_lhs. reflexivity. }
  destruct (worker_completes_task 10 25 "w1" "task_2_1" "job" "page" ∅
              {| MessageBus.id := "msg_3_4"; MessageBus.type := MessageBus.TASK_ASSIGNED;
                 MessageBus.source := "task-queue"; MessageBus.target := Some "w1";
                 MessageBus.payload := Wire.TaskAssignedPayload "task_2_1" "job" "page" ∅;
                 MessageBus.timestamp := 3; MessageBus.correlationId := None;
                 MessageBus.replyTo := None |}
              "html" (TaskQueue.run retrySession) k a
              (wired_run retrySession) (keyed_run retrySession) eq_refl Hk Hst Ha)
    as ((k' & Hk' & Hst' & _ & _ & Hres & _) & (a' & Ha' & Hready & _) & _).
  split.
  - exists k'. split; [exact Hk'|]. split; [exact Hst'|exact Hres].
  - exists a'. split; [exact Ha'|exact Hready].
Defined.

(** X18.  A failed attempt with retries left is not dispatched again by the
    handling of the failure.  When the worker's [processTask] throws, the task
    has retries left and no agent is ready for its capability at that moment
    (the worker itself being busy with it), then after the worker's handler
    has ended the task is pending in the backlog with one more retry counted,
    and the worker is ready and found for the capability: the two wait for
    the next call of [processQueue]. *)
Theorem failed_task_waits (ended : N) (w tid taskType : string) (payload0 : Unknown)
    (meta : Metadata) (m : Wire.Message) (e : string) (s : TaskQueue.t)
    (k : TaskQueue.Task) (a : AgentRegistry.AgentRecord) :
  wired s →
  AgentRegistry.keyed (TaskQueue.registry s) →
  MessageBus.payload m = Wire.TaskAssignedPayload tid taskType payload0 meta →
  TaskQueue.tasks s !! tid = Some k →
  (TaskQueue.retryCount k + 1 < TaskQueue.maxRetries k)%Z →
  AgentRegistry.agents (TaskQueue.registry s) !! w = Some a →
  a ∈ AgentRegistry.findByCapability (TaskQueue.requiredCapability k) (TaskQueue.registry s) →
  AgentRegistry.findReadyByCapability (TaskQueue.requiredCapability k) (TaskQueue.registry s)
  = [] →
  let s' := AutonomousAgent.handleTaskAssignment_end ended w m (AutonomousAgent.Threw e) s in
  (∃ k', TaskQueue.tasks s' !! tid = Some k'
         ∧ TaskQueue.status k' = TaskQueue.PENDING
         ∧ TaskQueue.assignedTo k' = None
         ∧ TaskQueue.retryCount k' = (TaskQueue.retryCount k + 1)%Z)
  ∧ tid ∈ TaskQueue.pendingQueue s'
  ∧ ∃ a', a' ∈ AgentRegistry.findReadyByCapability (TaskQueue.requiredCapability k)
                 (TaskQueue.registry s')
          ∧ AgentRegistry.id a' = w.
Proof.
  intros Hw Hkey Hm Hk Hlt Ha Hcap Hnone. cbv zeta.
  unfold AutonomousAgent.handleTaskAssignment_end.
  rewrite Hm. cbn [AutonomousAgent.payload_taskId]. cbv zeta.
  set (s1 := TaskQueue.failTask ended tid e s).
  set (k1 := TaskQueue.assign k TaskQueue.PENDING None (TaskQueue.startedAt k)
               (TaskQueue.completedAt k) (TaskQueue.result k) (TaskQueue.error k)
               (TaskQueue.retryCount k + 1)).
  assert (∃ s2, s1 = TaskQueue.processQueue ended s2
                ∧ TaskQueue.registry s2 = TaskQueue.registry s
                ∧ TaskQueue.tasks s2 !! tid = Some k1
                ∧ tid ∈ TaskQueue.pendingQueue s2) as (s2 & Hs1 & Hr2 & Hk2 & Hq2).
  { unfold s1, TaskQueue.failTask. rewrite Hk. rewrite publishCompleted_wired by done.
    unfold TaskQueue.handleTaskCompletion.
    cbn [TaskQueue.tasks TaskQueue.with_messageBus Wire.success]. rewrite Hk.
    rewrite bool_decide_eq_true_2 by done.
    cbn [TaskQueue.assignedTo TaskQueue.assign].
    eexists. split; [reflexivity|].
    unfold TaskQueue.enqueue. cbn [TaskQueue.tasks TaskQueue.with_tasks].
    rewrite lookup_insert_eq.
    cbn [TaskQueue.tasks TaskQueue.registry TaskQueue.pendingQueue TaskQueue.with_pendingQueue
         TaskQueue.with_tasks].
    split_and!; [done|apply lookup_insert_eq|].
    apply elem_of_enqueue_at. by left. }
  assert (AgentRegistry.keyed (TaskQueue.registry s2)) as Hkey2 by (by rewrite Hr2).
  destruct (processQueue_no_ready ended s2 tid k1 Hkey2 Hk2) as [Hk1 Hq1];
    [by rewrite Hr2|].
  destruct (processQueue_keyed ended s2 Hkey2) as [[Hidx Hag] Hkey1].
  rewrite <- Hs1 in Hk1, Hq1, Hidx, Hag, Hkey1. rewrite Hr2 in Hidx, Hag.
  cbn [TaskQueue.tasks TaskQueue.pendingQueue TaskQueue.registry TaskQueue.with_registry].
  split_and!.
  - exists k1. by split_and!.
  - by apply Hq1.
  - assert (∃ a1, AgentRegistry.agents (TaskQueue.registry s1) !! w = Some a1) as [a1 Ha1].
    { destruct (Hag w) as [E|(a0 & _ & _ & E)]; rewrite E; by eauto. }
    exists (AgentRegistry.with_status AgentRegistry.READY ended a1). split.
    + apply elem_of_findReadyByCapability. split; [done|].
      apply elem_of_findByCapability in Hcap as (ids & i & Hids & Hi & Hlook).
      assert (i = w) as -> by (rewrite <- (Hkey _ _ Hlook); by apply Hkey).
      apply elem_of_findByCapability. exists ids, w.
      rewrite updateStatus_index, updateStatus_agents, Ha1, Hidx. split_and!; [done|done|].
      apply lookup_insert_eq.
    + cbn. by apply Hkey1.
Qed.

Lemma failed_task_waits_witness :
  let s := TaskQueue.run retrySession in
  let m : Wire.Message :=
    {| MessageBus.id := "msg_3_4"; MessageBus.type := MessageBus.TASK_ASSIGNED;
       MessageBus.source := "task-queue"; MessageBus.target := Some "w1";
       MessageBus.payload := Wire.TaskAssignedPayload "task_2_1" "job" "page" ∅;
       MessageBus.timestamp := 3; MessageBus.correlationId := None;
       MessageBus.replyTo := None |} in
  let s' := AutonomousAgent.handleTaskAssignment_end 25 "w1" m (AutonomousAgent.Threw "boom") s in
  (∃ k', TaskQueue.tasks s' !! "task_2_1" = Some k'
         ∧ TaskQueue.status k' = TaskQueue.PENDING
         ∧ TaskQueue.retryCount k' = 1%Z)
  ∧ "task_2_1" ∈ TaskQueue.pendingQueue s'
  ∧ ∃ a', a' ∈ AgentRegistry.findReadyByCapability "render" (TaskQueue.registry s')
          ∧ AgentRegistry.id a' = "w1".
Proof.
  cbv zeta.
  assert (∃ k, TaskQueue.tasks (TaskQueue.run retrySession) !! "task_2_1" = Some k
               ∧ TaskQueue.retryCount k = 0%Z ∧ TaskQueue.maxRetries k = 2%Z
               ∧ TaskQueue.requiredCapability k = "render") as (k & Hk & Hrc & Hmax & Hcap).
  { eexists. split; [evaluate_lhs; reflexivity|]. by split_and!. }
  assert (∃ a, AgentRegistry.agents (TaskQueue.registry (TaskQueue.run retrySession)) !! "w1"
               = Some a
               ∧ AgentRegistry.findByCapability "render"
                   (TaskQueue.registry (TaskQueue.run retrySession)) = [a]) as (a & Ha & Hf).
  { eexists. split; [evaluate_lhs; reflexivity|vm_compute; reflexivity]. }
  destruct (failed_task_waits 25 "w1" "task_2_1" "job" "page" ∅
              {| MessageBus.id := "msg_3_4"; MessageBus.type := MessageBus.TASK_ASSIGNED;
                 MessageBus.source := "task-queue"; MessageBus.target := Some "w1";
                 MessageBus.payload := Wire.TaskAssignedPayload "task_2_1" "job" "page" ∅;
                 MessageBus.timestamp := 3; MessageBus.correlationId := None;
                 MessageBus.replyTo := None |}
              "boom" (TaskQueue.run retrySession) k a
              (wired_run retrySession) (keyed_run retrySession) eq_refl Hk)
    as ((k' & Hk' & Hst' & _ & Hrc') & Hq & (a' & Ha' & Hid)).
  - rewrite Hrc, Hmax. lia.
  - exact Ha.
  - rewrite Hcap, Hf. apply list_elem_of_here.
  - rewrite Hcap. vm_compute. reflexivity.
  - rewrite Hcap in Ha'. rewrite Hrc in Hrc'.
    split; [|split].
    + exists k'. split; [exact Hk'|]. split; [exact Hst'|exact Hrc'].
    + exact Hq.
    + exists a'. split; [exact Ha'|exact Hid].
Defined.

(** ** The registry inside the core *)

Section RegistryInCore.

Implicit Types (s : TaskQueue.t) (r : AgentRegistry.t).

Lemma handleTaskCompletion_index now tid res s :
  AgentRegistry.keyed (TaskQueue.registry s) →
  AgentRegistry.capabilityIndex
    (TaskQueue.registry (TaskQueue.handleTaskCompletion now tid res s))
  = AgentRegistry.capabilityIndex (TaskQueue.registry s).
Proof.
  intros Hkey. unfold TaskQueue.handleTaskCompletion.
  destruct (TaskQueue.tasks s !! tid) as [k|]; [|done].
  match goal with
  | |- context [let '(task1, s1) := ?X in _] =>
      assert (TaskQueue.registry X.2 = TaskQueue.registry s) as Hs1;
      [|destruct X as [task1 s1]]
  end.
  { destruct (Wire.success res); cbn [snd]; [done|].
    case_bool_decide; cbn [snd]; [|done].
    unfold TaskQueue.enqueue. by destruct (TaskQueue.tasks _ !! tid). }
  cbn [snd] in Hs1.
  match goal with |- context [TaskQueue.processQueue now ?S] => set (s2 := S) end.
  assert (AgentRegistry.keyed (TaskQueue.registry s2)
          ∧ AgentRegistry.capabilityIndex (TaskQueue.registry s2)
            = AgentRegistry.capabilityIndex (TaskQueue.registry s)) as [Hkey2 Hidx2].
  { unfold s2. destruct (TaskQueue.assignedTo task1) as [worker|]; [|by rewrite Hs1].
    destruct (truthy (Some worker)); [|by rewrite Hs1].
    cbn [TaskQueue.registry TaskQueue.with_registry]. rewrite Hs1.
    split; [by apply keyed_updateStatus|apply updateStatus_index]. }
  destruct (processQueue_keyed now s2 Hkey2) as [[Hidx _] _]. by rewrite Hidx.
Qed.

Lemma published_index now src ty p o s :
  AgentRegistry.keyed (TaskQueue.registry s) →
  AgentRegistry.capabilityIndex (TaskQueue.registry (TaskQueue.published now src ty p o s))
  = AgentRegistry.capabilityIndex (TaskQueue.registry s).
Proof.
  intros Hk. unfold TaskQueue.published.
  destruct (MessageBus.publish _ _ _ _ _ _) as [[msg calls] bus'].
  change (TaskQueue.registry s)
    with (TaskQueue.registry (TaskQueue.with_messageBus bus' s)) in Hk |- *.
  revert Hk. generalize (TaskQueue.with_messageBus bus' s).
  induction calls as [|c calls IH]; intros s0 Hk; cbn [foldl]; [done|].
  assert (AgentRegistry.keyed (TaskQueue.registry (TaskQueue.deliver now s0 c))
          ∧ AgentRegistry.capabilityIndex (TaskQueue.registry (TaskQueue.deliver now s0 c))
            = AgentRegistry.capabilityIndex (TaskQueue.registry s0)) as [Hk' Hi'].
  { unfold TaskQueue.deliver.
    destruct (MessageBus.inv_handler c); try done.
    destruct (MessageBus.payload _); try done.
    split; [by apply keyed_handleTaskCompletion|by apply handleTaskCompletion_index]. }
  rewrite IH by done. exact Hi'.
Qed.

Lemma indexed_call s c :
  AgentRegistry.keyed (TaskQueue.registry s) →
  AgentRegistry.indexed (TaskQueue.registry s) →
  AgentRegistry.indexed (TaskQueue.registry (TaskQueue.call s c)).
Proof.
  intros Hk Hi.
  assert (∀ r', AgentRegistry.capabilityIndex r'
                = AgentRegistry.capabilityIndex (TaskQueue.registry s) →
                AgentRegistry.indexed r') as Hsame.
  { intros r' Heq n ids. rewrite Heq. apply Hi. }
  destruct c; cbn [TaskQueue.call].
  - apply Hsame. unfold TaskQueue.submit, TaskQueue.enqueue. cbv zeta. cbn [snd].
    by destruct (_ !! _).
  - apply Hsame. by destruct (processQueue_keyed now s Hk) as [[? _] _].
  - apply Hsame. unfold TaskQueue.startTask. destruct (_ !! _); [|done]. by case_bool_decide.
  - apply Hsame. unfold TaskQueue.completeTask. destruct (_ !! _); [|done].
    by apply published_index.
  - apply Hsame. unfold TaskQueue.failTask. destruct (_ !! _); [|done].
    by apply published_index.
  - pose proof (indexed_register now id0 type0 capabilities0 metadata0
      (TaskQueue.registry s) (TaskQueue.messageBus s) Hi) as Hi'.
    by destruct (AgentRegistry.register _ _ _ _ _ _ _) as [[? r] b].
  - by apply indexed_unregister.
  - apply Hsame. apply updateStatus_index.
  - apply Hsame. unfold AgentRegistry.heartbeat. cbn [TaskQueue.registry TaskQueue.with_registry fst].
    by destruct (_ !! _).
  - by apply Hsame.
  - by apply Hsame.
  - apply Hsame. by apply published_index.
Qed.

Lemma indexed_run cs : AgentRegistry.indexed (TaskQueue.registry (TaskQueue.run cs)).
Proof.
  assert (∀ s, AgentRegistry.keyed (TaskQueue.registry s) →
               AgentRegistry.indexed (TaskQueue.registry s) →
               AgentRegistry.keyed (TaskQueue.registry (foldl TaskQueue.call s cs))
               ∧ AgentRegistry.indexed (TaskQueue.registry (foldl TaskQueue.call s cs))) as Hgo.
  { induction cs as [|c cs IH]; intros s Hk Hi; cbn [foldl]; [done|].
    apply IH; [by apply keyed_call|by apply indexed_call]. }
  apply Hgo.
  - apply keyed_new.
  - intros n ids Hn. cbn in Hn. by rewrite lookup_empty in Hn.
Qed.

End RegistryInCore.

(** X19.  After any calls on a fresh core, also calls that register an agent
    twice or with a capability listed twice, [findByCapability] returns each
    agent at most once. *)
Theorem findByCapability_no_duplicates (cs : list TaskQueue.Call) (n : string) :
  NoDup (AgentRegistry.id <$>
           AgentRegistry.findByCapability n (TaskQueue.registry (TaskQueue.run cs))).
Proof.
  rewrite findByCapability_ids by apply keyed_run.
  apply NoDup_filter.
  destruct (AgentRegistry.capabilityIndex (TaskQueue.registry (TaskQueue.run cs)) !! n)
    as [ids|] eqn:Hids; [|constructor].
  by eapply indexed_run.
Qed.

(** ** Pipeline coordinator: ended runs, a stopped coordinator, its own errors *)



Section CoordinatorStopped.

Implicit Types (s : Orchestrator.t).

Lemma deliver_stopped now s calls :
  Orchestrator.isRunning s = false → foldl (Orchestrator.deliver now) s calls = s.
Proof.
  intros Hs. induction calls as [|c calls IH]; cbn [foldl]; [done|].
  assert (Orchestrator.deliver now s c = s) as ->; [|done].
  unfold Orchestrator.deliver, Orchestrator.wrappedHandler.
  destruct (MessageBus.inv_handler c); try done. by rewrite Hs.
Qed.

End CoordinatorStopped.



(** X22.  The coordinator's own error report fails its run.  When a handler
    of the started coordinator throws while a run is running, [handleError]
    publishes a worker-error message that the coordinator itself receives: the
    run is failed and its promise rejected with the message of the error. *)
Theorem handler_error_fails_run (now0 : N) (id0 : string) (es : list Orchestrator.Event)
    (now : N) (error : string) (m : option Wire.Message) :
  let s := Orchestrator.steps (Orchestrator.init now0 id0) es in
  let s' := Orchestrator.handleError now error m s in
  Orchestrator.isRunning s = true →
  Orchestrator.status (Orchestrator.pipelineState s) = running →
  Orchestrator.status (Orchestrator.pipelineState s') = failed
  ∧ (∃ p, Orchestrator.rejectCompletion s = Some p
          ∧ Orchestrator.promises s !! p = Some Orchestrator.Pending
          ∧ Orchestrator.promises s' !! p
            = Some (Orchestrator.Rejected ("Pipeline failed: " +:+ error)))
  ∧ ∃ msg, last (MessageBus.getHistory (Orchestrator.messageBus s')) = Some msg
           ∧ MessageBus.fields msg
             = (MessageBus.AGENT_ERROR, Orchestrator.id s, None,
                Wire.AgentErrorPayload (Orchestrator.id s) error (MessageBus.id <$> m),
                now, None, None).
Proof.
  cbv zeta. intros Hrun Hst.
  pose proof (consistent_steps now0 id0 es) as Hc.
  set (s := Orchestrator.steps (Orchestrator.init now0 id0) es) in *.
  destruct Hc as (Hw & _ & _ & Hp). destruct (Hp Hst) as (p & _ & Hrej & Hpend & _).
  unfold Orchestrator.handleError.
  assert (MessageBus.AGENT_ERROR ∈ Orchestrator.SUBSCRIPTIONS) as Hty
    by (vm_compute; repeat constructor).
  rewrite (published_observed now (Orchestrator.id s) _ _ None s Hw Hrun Hty eq_refl).
  unfold Orchestrator.onMessage.
  change (MessageBus.type (messageOf _ _ _ _ _ _)) with MessageBus.AGENT_ERROR.
  cbv iota.
  set (msg := messageOf now (Orchestrator.id s) MessageBus.AGENT_ERROR
                (Wire.AgentErrorPayload (Orchestrator.id s) error (MessageBus.id <$> m)) None
                (Orchestrator.messageBus s)).
  set (s1 := posted now (Orchestrator.id s) MessageBus.AGENT_ERROR
               (Wire.AgentErrorPayload (Orchestrator.id s) error (MessageBus.id <$> m)) None s).
  destruct (handleAgentError_running now msg s1 Hst) as (Hst1 & _ & _ & _ & _ & Hsettle).
  change (Orchestrator.rejectCompletion s1) with (Orchestrator.rejectCompletion s) in Hsettle.
  rewrite Hrej in Hsettle. destruct Hsettle as [Hcalls Hproms].
  split_and!.
  - exact Hst1.
  - exists p. split_and!; [done|done|]. rewrite Hproms. by apply settle_lookup.
  - exists msg. split; [|reflexivity].
    unfold Orchestrator.handleAgentError. cbv zeta.
    cbn [Orchestrator.pipelineState Orchestrator.logEvent].
    rewrite (bool_decide_eq_true_2 _ Hst).
    cbn [Orchestrator.rejectCompletion Orchestrator.markFailed Orchestrator.with_pipelineState
         Orchestrator.logEvent].
    change (Orchestrator.rejectCompletion s1) with (Orchestrator.rejectCompletion s).
    rewrite Hrej. cbn [Orchestrator.messageBus Orchestrator.settle].
    unfold MessageBus.getHistory, s1, posted. cbn [Orchestrator.messageBus Orchestrator.with_bus snd].
    unfold MessageBus.publish, MessageBus.generateMessageId. cbn [snd MessageBus.messageHistory].
    apply last_snoc.
Qed.

Lemma handler_error_fails_run_witness :
  let s := Orchestrator.steps (Orchestrator.init 0 "orchestrator-agent")
             [Orchestrator.EvStart 1; Orchestrator.EvRunPipeline 2 "raw" (Some ["faq"])] in
  let s' := Orchestrator.handleError 3 "product is undefined" None s in
  Orchestrator.status (Orchestrator.pipelineState s) = running
  ∧ Orchestrator.status (Orchestrator.pipelineState s') = failed
  ∧ ∃ p, Orchestrator.promises s' !! p
         = Some (Orchestrator.Rejected "Pipeline failed: product is undefined").
Proof.
  cbv zeta.
  destruct (handler_error_fails_run 0 "orchestrator-agent"
              [Orchestrator.EvStart 1; Orchestrator.EvRunPipeline 2 "raw" (Some ["faq"])]
              3 "product is undefined" None) as (Hst' & (p & _ & _ & Hrej) & _);
    [vm_compute; reflexivity..|].
  split; [vm_compute; reflexivity|]. split; [exact Hst'|]. exists p. exact Hrej.
Defined.

Section CoordinatorPromises.

Implicit Types (s : Orchestrator.t) (m : Wire.Message).

(** A change that keeps the promises, or settles the promise created last,
    keeps every earlier promise. *)
Lemma settle_other (l : list Orchestrator.Promise) q v p :
  p ≠ q →
  match l !! q with
  | Some Orchestrator.Pending => <[q := v]> l
  | _ => l
  end !! p = l !! p.
Proof.
  intros Hne. destruct (l !! q) as [[| |]|]; try done. by apply list_lookup_insert_ne.
Qed.

Lemma current_frame s s' :
  Orchestrator.resolveCompletion s' = Orchestrator.resolveCompletion s →
  Orchestrator.rejectCompletion s' = Orchestrator.rejectCompletion s →
  length (Orchestrator.promises s') = length (Orchestrator.promises s) →
  current s → current s'.
Proof. unfold current. by intros -> -> ->. Qed.

Lemma current_handleAgentError now m s :
  current s →
  let s' := Orchestrator.handleAgentError now m s in
  current s'
  ∧ length (Orchestrator.promises s') = length (Orchestrator.promises s)
  ∧ ∀ p, S p < length (Orchestrator.promises s) →
         Orchestrator.promises s' !! p = Orchestrator.promises s !! p.
Proof.
  intros Hc. cbv zeta.
  destruct (decide (Orchestrator.status (Orchestrator.pipelineState s) = running)) as [Hst|Hst].
  - destruct (handleAgentError_running now m s Hst) as (_ & _ & Hres & Hrej & _ & Hset).
    destruct (Orchestrator.rejectCompletion s) as [q|] eqn:Hq.
    + destruct Hset as [_ Hpr].
      assert (length (Orchestrator.promises (Orchestrator.handleAgentError now m s))
              = length (Orchestrator.promises s)) as Hlen by (by rewrite Hpr, settle_length).
      split_and!; [by eapply current_frame; [| | |exact Hc]; [done|by rewrite Hrej|done]|done|].
      intros p Hp. rewrite Hpr. apply settle_other.
      specialize (Hc q (or_intror Hq)). lia.
    + destruct Hset as [_ Hpr].
      split_and!; [|by rewrite Hpr|by rewrite Hpr].
      eapply current_frame; [| | |exact Hc]; [done|by rewrite Hrej|by rewrite Hpr].
  - destruct (handleAgentError_not_running now m s Hst) as (_ & _ & Hres & Hrej & Hpr & _).
    split_and!; [|by rewrite Hpr|by rewrite Hpr].
    eapply current_frame; [| | |exact Hc]; [done|done|by rewrite Hpr].
Qed.

Lemma current_handlePageAssembled now m s :
  current s →
  let s' := Orchestrator.handlePageAssembled now m s in
  current s'
  ∧ length (Orchestrator.promises s') = length (Orchestrator.promises s)
  ∧ ∀ p, S p < length (Orchestrator.promises s) →
         Orchestrator.promises s' !! p = Orchestrator.promises s !! p.
Proof.
  intros Hc. cbv zeta. unfold Orchestrator.handlePageAssembled.
  set (s1 := Orchestrator.recordPage now m s).
  assert (current s1) as Hc1 by exact Hc.
  assert (Orchestrator.promises s1 = Orchestrator.promises s) as Hpr1 by reflexivity.
  rewrite <- Hpr1.
  destruct (decide (Orchestrator.status (Orchestrator.pipelineState s1) = running)) as [Hst|Hst].
  - destruct (covers_cases (Orchestrator.expectedPages (Orchestrator.pipelineState s1))
                (Orchestrator.receivedPages (Orchestrator.pipelineState s1))) as [Hcov|Hcov].
    + destruct (checkPipelineCompletion_done now s1 Hst Hcov)
        as (_ & _ & _ & _ & _ & _ & _ & Hres & Hrej & _ & _ & Hset).
      destruct (Orchestrator.resolveCompletion s1) as [q|] eqn:Hq.
      * destruct Hset as [_ Hpr].
        assert (length (Orchestrator.promises (Orchestrator.checkPipelineCompletion now s1))
                = length (Orchestrator.promises s1)) as Hlen by (by rewrite Hpr, settle_length).
        split_and!; [by eapply current_frame; [| | |exact Hc1]; [by rewrite Hres|done|done]|done|].
        intros p Hp. rewrite Hpr. apply settle_other.
        specialize (Hc1 q (or_introl Hq)). lia.
      * destruct Hset as [_ Hpr].
        split_and!; [|by rewrite Hpr|by rewrite Hpr].
        eapply current_frame; [| | |exact Hc1]; [by rewrite Hres|done|by rewrite Hpr].
    + rewrite checkPipelineCompletion_idle by (by intros [_ ?]). by split_and!.
  - rewrite checkPipelineCompletion_idle by (by intros [? _]). by split_and!.
Qed.

Lemma current_wrappedHandler now m s :
  current s →
  let s' := Orchestrator.wrappedHandler now m s in
  current s'
  ∧ length (Orchestrator.promises s') = length (Orchestrator.promises s)
  ∧ ∀ p, S p < length (Orchestrator.promises s) →
         Orchestrator.promises s' !! p = Orchestrator.promises s !! p.
Proof.
  intros Hc. cbv zeta. unfold Orchestrator.wrappedHandler.
  destruct (Orchestrator.isRunning s); cbn [negb]; [|done].
  unfold Orchestrator.onMessage.
  destruct (MessageBus.type m);
    first [ by apply current_handleAgentError
          | by apply current_handlePageAssembled
          | done
          | idtac ].
  - unfold Orchestrator.handleProductModelReady. cbv zeta.
    by destruct (Orchestrator.payload_product _).
  - unfold Orchestrator.handleQuestionsGenerated. cbv zeta.
    by destruct (Orchestrator.payload_questionSet _).
Qed.

Lemma current_published now src ty pl o s :
  current s →
  let s' := Orchestrator.published now src ty pl o s in
  current s'
  ∧ length (Orchestrator.promises s') = length (Orchestrator.promises s)
  ∧ ∀ p, S p < length (Orchestrator.promises s) →
         Orchestrator.promises s' !! p = Orchestrator.promises s !! p.
Proof.
  intros Hc. cbv zeta. unfold Orchestrator.published.
  rewrite (publish_eta now src ty pl o (Orchestrator.messageBus s)).
  fold (posted now src ty pl o s).
  assert (current (posted now src ty pl o s)) as Hc0 by exact Hc.
  change (Orchestrator.promises s) with (Orchestrator.promises (posted now src ty pl o s)).
  revert Hc0. generalize (posted now src ty pl o s).
  induction (MessageBus.emit _ _ _) as [|c cs IH]; intros s0 Hc0; cbn [foldl]; [done|].
  assert (current (Orchestrator.deliver now s0 c)
          ∧ length (Orchestrator.promises (Orchestrator.deliver now s0 c))
            = length (Orchestrator.promises s0)
          ∧ ∀ p, S p < length (Orchestrator.promises s0) →
                 Orchestrator.promises (Orchestrator.deliver now s0 c) !! p
                 = Orchestrator.promises s0 !! p) as (Hc1 & Hn1 & Hl1).
  { unfold Orchestrator.deliver. destruct (MessageBus.inv_handler c); try done.
    by apply current_wrappedHandler. }
  destruct (IH (Orchestrator.deliver now s0 c) Hc1) as (Hc2 & Hn2 & Hl2).
  split_and!; [done|by rewrite Hn2|].
  intros p Hp. rewrite Hl2 by (by rewrite Hn1). by apply Hl1.
Qed.

Lemma current_step s e :
  current s →
  let s' := Orchestrator.step s e in
  current s'
  ∧ (length (Orchestrator.promises s) ≤ length (Orchestrator.promises s'))%nat
  ∧ ∀ p, S p < length (Orchestrator.promises s) →
         Orchestrator.promises s' !! p = Orchestrator.promises s !! p.
Proof.
  intros Hc. cbv zeta. destruct e; cbn [Orchestrator.step];
    first [ by split_and!
          | destruct (current_published now source ty payload options s Hc)
              as (? & Hlen & ?); split_and!; [done|by rewrite Hlen|done]
          | idtac ].
  - unfold Orchestrator.runPipeline. cbv zeta. cbn [snd]. split_and!.
    + intros q. cbn. intros [[= <-]|[= <-]]; rewrite length_app; cbn; lia.
    + cbn. rewrite length_app. lia.
    + intros p Hp. cbn. apply lookup_app_l. lia.
  - destruct (current_published now (Orchestrator.id s) MessageBus.AGENT_ERROR
                (Wire.AgentErrorPayload (Orchestrator.id s) error (MessageBus.id <$> m)) None
                s Hc) as (? & Hlen & ?).
    split_and!; [done| |done]. unfold Orchestrator.handleError. by rewrite Hlen.
Qed.

Lemma current_steps s es :
  current s →
  current (Orchestrator.steps s es)
  ∧ ∀ p, S p < length (Orchestrator.promises s) →
         Orchestrator.promises (Orchestrator.steps s es) !! p = Orchestrator.promises s !! p.
Proof.
  revert s. induction es as [|e es IH]; intros s Hc; cbn [Orchestrator.steps foldl]; [done|].
  destruct (current_step s e Hc) as (Hc' & Hn & Hl).
  destruct (IH _ Hc') as (Hc'' & Hl'). split; [done|].
  intros p Hp. rewrite <- Hl by done. apply Hl'. lia.
Qed.

Lemma current_init now0 id0 : current (Orchestrator.init now0 id0).
Proof. intros q [Hq|Hq]; discriminate Hq. Qed.

End CoordinatorPromises.

(** X23.  A run that is still pending when [runPipeline] is called again is
    abandoned: the new call replaces the [resolve] and [reject] functions the
    coordinator holds, and from then on no event changes a promise created
    before it, so the earlier caller's promise is never settled. *)
Theorem earlier_promises_are_frozen (now0 : N) (id0 : string) (es : list Orchestrator.Event)
    (now : N) (rawData : Unknown) (pagesToGenerate : option (list string))
    (later : list Orchestrator.Event) (p : nat) :
  let s := Orchestrator.steps (Orchestrator.init now0 id0) es in
  let s' := Orchestrator.steps (Orchestrator.runPipeline now rawData pagesToGenerate s).2 later in
  p < length (Orchestrator.promises s) →
  Orchestrator.promises s' !! p = Orchestrator.promises s !! p.
Proof.
  cbv zeta. intros Hp.
  destruct (current_steps (Orchestrator.init now0 id0) es (current_init now0 id0)) as [Hc _].
  set (s := Orchestrator.steps (Orchestrator.init now0 id0) es) in *.
  destruct (current_step s (Orchestrator.EvRunPipeline now rawData pagesToGenerate) Hc)
    as (Hc1 & _ & _).
  cbn [Orchestrator.step] in Hc1.
  destruct (current_steps _ later Hc1) as [_ Hl].
  rewrite Hl.
  - unfold Orchestrator.runPipeline. cbv zeta. cbn. by apply lookup_app_l.
  - unfold Orchestrator.runPipeline. cbv zeta. cbn. rewrite length_app. cbn. lia.
Qed.

Lemma earlier_promises_are_frozen_witness :
  let s := Orchestrator.steps (Orchestrator.init 0 "orchestrator-agent")
             [Orchestrator.EvStart 1; Orchestrator.EvRunPipeline 2 "raw" (Some ["faq"])] in
  let s' := Orchestrator.steps (Orchestrator.runPipeline 3 "raw" (Some ["faq"]) s).2
              [Orchestrator.EvPublish 4 "page-assembly-agent" MessageBus.PAGE_ASSEMBLED
                 (Wire.PageAssembledPayload "faq" "content") None] in
  Orchestrator.promises s !! 0 = Some Orchestrator.Pending
  ∧ Orchestrator.promises s' !! 0 = Some Orchestrator.Pending
  ∧ Orchestrator.status (Orchestrator.pipelineState s') = completed.
Proof.
  cbv zeta.
  assert (Orchestrator.promises
            (Orchestrator.steps (Orchestrator.init 0 "orchestrator-agent")
               [Orchestrator.EvStart 1; Orchestrator.EvRunPipeline 2 "raw" (Some ["faq"])])
          = [Orchestrator.Pending]) as Hpr by (vm_compute; reflexivity).
  pose proof (earlier_promises_are_frozen 0 "orchestrator-agent"
                [Orchestrator.EvStart 1; Orchestrator.EvRunPipeline 2 "raw" (Some ["faq"])]
                3 "raw" (Some ["faq"])
                [Orchestrator.EvPublish 4 "page-assembly-agent" MessageBus.PAGE_ASSEMBLED
                   (Wire.PageAssembledPayload "faq" "content") None] 0) as Hfrozen.
  cbv zeta in Hfrozen. rewrite Hpr in Hfrozen.
  split; [by rewrite Hpr|]. split; [apply Hfrozen; cbn; lia|].
  vm_compute. reflexivity.
Defined.

Section CoordinatorLog.

Implicit Types (s : Orchestrator.t) (m : Wire.Message).

Lemma numbered_frame s s' :
  Orchestrator.executionLog s' = Orchestrator.executionLog s →
  Orchestrator.stepCounter s' = Orchestrator.stepCounter s →
  numbered s → numbered s'.
Proof. unfold numbered. by intros -> ->. Qed.

Lemma numbered_logEvent now ev a st msg s :
  numbered s → numbered (Orchestrator.logEvent now ev a st msg s).
Proof.
  intros [Hsteps Hc]. unfold numbered.
  cbn [Orchestrator.executionLog Orchestrator.stepCounter Orchestrator.logEvent].
  rewrite fmap_app, length_app. cbn [length fmap list_fmap Orchestrator.ExecutionLogEntry.step].
  rewrite Hsteps, Hc. split; [|lia].
  rewrite Nat.add_1_r, seq_S, fmap_app. cbn [fmap list_fmap]. do 2 f_equal. lia.
Qed.

Lemma numbered_handleAgentError now m s :
  numbered s → numbered (Orchestrator.handleAgentError now m s).
Proof.
  intros Hn. unfold Orchestrator.handleAgentError. cbv zeta.
  pose proof (numbered_logEvent now "agent-error"
                (Orchestrator.payload_agentId (MessageBus.payload m)) "failed"
                (Orchestrator.payload_error (MessageBus.payload m)) s Hn) as Hn1.
  case_bool_decide; [|done].
  destruct (Orchestrator.rejectCompletion _); revert Hn1; by apply numbered_frame.
Qed.

Lemma numbered_checkPipelineCompletion now s :
  numbered s → numbered (Orchestrator.checkPipelineCompletion now s).
Proof.
  intros Hn. unfold Orchestrator.checkPipelineCompletion. cbv zeta.
  destruct (_ && _); [|done].
  match goal with
  | |- context [Orchestrator.publish now ?ty ?pl (Orchestrator.logEvent now ?ev ?a ?st ?msg ?s0)] =>
      pose proof (numbered_logEvent now ev a st msg s0) as Hn1
  end.
  destruct (Orchestrator.resolveCompletion _);
    (eapply numbered_frame; [| |apply Hn1; revert Hn; by apply numbered_frame]; done).
Qed.

Lemma numbered_wrappedHandler now m s :
  numbered s → numbered (Orchestrator.wrappedHandler now m s).
Proof.
  intros Hn. unfold Orchestrator.wrappedHandler.
  destruct (Orchestrator.isRunning s); cbn [negb]; [|done].
  unfold Orchestrator.onMessage.
  destruct (MessageBus.type m);
    first [ exact Hn
          | by apply numbered_handleAgentError
          | idtac ].
  - unfold Orchestrator.handleProductModelReady. cbv zeta.
    destruct (Orchestrator.payload_product _);
      [apply numbered_logEvent|]; revert Hn; by apply numbered_frame.
  - unfold Orchestrator.handleQuestionsGenerated. cbv zeta.
    destruct (Orchestrator.payload_questionSet _);
      [apply numbered_logEvent|]; revert Hn; by apply numbered_frame.
  - unfold Orchestrator.handleContentBlocksReady. cbv zeta.
    apply numbered_logEvent. revert Hn. by apply numbered_frame.
  - unfold Orchestrator.handlePageAssembled, Orchestrator.recordPage. cbv zeta.
    apply numbered_checkPipelineCompletion, numbered_logEvent.
    revert Hn. by apply numbered_frame.
Qed.

Lemma numbered_published now src ty pl o s :
  numbered s → numbered (Orchestrator.published now src ty pl o s).
Proof.
  intros Hn. unfold Orchestrator.published.
  rewrite (publish_eta now src ty pl o (Orchestrator.messageBus s)).
  fold (posted now src ty pl o s).
  assert (numbered (posted now src ty pl o s)) as Hn0 by exact Hn.
  revert Hn0. generalize (posted now src ty pl o s).
  induction (MessageBus.emit _ _ _) as [|c cs IH]; intros s0 Hs0; cbn [foldl]; [done|].
  apply IH. unfold Orchestrator.deliver.
  destruct (MessageBus.inv_handler c); try done. by apply numbered_wrappedHandler.
Qed.

Lemma numbered_runPipeline now raw pgs s :
  numbered (Orchestrator.runPipeline now raw pgs s).2.
Proof.
  unfold Orchestrator.runPipeline. cbv zeta. cbn [snd].
  apply numbered_logEvent.
  match goal with
  | |- numbered (Orchestrator.publish now ?ty2 ?p2
                   (Orchestrator.publish now ?ty1 ?p1
                      (Orchestrator.logEvent now ?ev ?a ?st ?msg ?s0))) =>
      apply (numbered_frame (Orchestrator.logEvent now ev a st msg s0)); [done|done|];
      apply numbered_logEvent
  end.
  split; reflexivity.
Qed.

Lemma numbered_step s e : numbered s → numbered (Orchestrator.step s e).
Proof.
  intros Hn. destruct e; cbn [Orchestrator.step];
    first [ exact Hn
          | by apply numbered_published
          | by apply numbered_runPipeline
          | idtac ].
Qed.

Lemma numbered_steps now0 id0 es :
  numbered (Orchestrator.steps (Orchestrator.init now0 id0) es).
Proof.
  unfold Orchestrator.steps.
  assert (numbered (Orchestrator.init now0 id0)) as Hi by (split; reflexivity).
  revert Hi. generalize (Orchestrator.init now0 id0).
  induction es as [|e es IH]; intros s Hs; cbn [foldl]; [done|].
  by apply IH, numbered_step.
Qed.

End CoordinatorLog.


Section CoordinatorRun.

Implicit Types (s : Orchestrator.t) (m : Wire.Message).

Lemma steps_app s es1 es2 :
  Orchestrator.steps s (es1 ++ es2) = Orchestrator.steps (Orchestrator.steps s es1) es2.
Proof. unfold Orchestrator.steps. by rewrite foldl_app. Qed.

Lemma expected_requested (l : list string) (acc : list string) (x : string) :
  x ∈ foldl (λ acc x, set_add x acc) acc l ↔ x ∈ acc ∨ x ∈ l.
Proof.
  revert acc. induction l as [|y l IH]; intros acc; cbn [foldl].
  - rewrite elem_of_nil. tauto.
  - rewrite IH, elem_of_set_add, elem_of_cons. tauto.
Qed.

Lemma arrived_snoc l a :
  Orchestrator.arrived (l ++ [a])
  = set_add (Orchestrator.payload_pageType a.2) (Orchestrator.arrived l).
Proof. unfold Orchestrator.arrived. by rewrite foldl_app. Qed.

Lemma pagesArrive_snoc l a :
  Orchestrator.pagesArrive (l ++ [a])
  = Orchestrator.pagesArrive l
    ++ [Orchestrator.EvPublish a.1.1 a.1.2 MessageBus.PAGE_ASSEMBLED a.2 None].
Proof. unfold Orchestrator.pagesArrive. by rewrite fmap_app. Qed.

(** The run after the pages of [l] have arrived. *)
Lemma run_pages now0 id0 es now raw pgs (l : list (N * string * Wire.Payload)) :
  let s := Orchestrator.steps (Orchestrator.init now0 id0) es in
  let p := (Orchestrator.runPipeline now raw pgs s).1 in
  let s1 := (Orchestrator.runPipeline now raw pgs s).2 in
  let s2 := Orchestrator.steps s1 (Orchestrator.pagesArrive l) in
  let expected := Orchestrator.expectedPages (Orchestrator.pipelineState s1) in
  Orchestrator.isRunning s = true →
  Orchestrator.isRunning s2 = true
  ∧ Orchestrator.expectedPages (Orchestrator.pipelineState s2) = expected
  ∧ Orchestrator.receivedPages (Orchestrator.pipelineState s2) = Orchestrator.arrived l
  ∧ Orchestrator.resolveCompletion s2 = Some p
  ∧ (l ≠ [] ∧ covers expected (Orchestrator.arrived l) →
     Orchestrator.status (Orchestrator.pipelineState s2) = completed
     ∧ ∃ output, Orchestrator.promises s2 !! p = Some (Orchestrator.Fulfilled output))
  ∧ (¬ (l ≠ [] ∧ covers expected (Orchestrator.arrived l)) →
     Orchestrator.status (Orchestrator.pipelineState s2) = running
     ∧ Orchestrator.promises s2 !! p = Some Orchestrator.Pending).
Proof.
  cbv zeta. intros Hrun.
  set (s := Orchestrator.steps (Orchestrator.init now0 id0) es) in *.
  set (s1 := (Orchestrator.runPipeline now raw pgs s).2).
  set (p := (Orchestrator.runPipeline now raw pgs s).1).
  set (expected := Orchestrator.expectedPages (Orchestrator.pipelineState s1)).
  induction l as [|a l IH] using rev_ind.
  - cbn. split_and!; try done.
    + by intros [? _].
    + intros _. split; [done|]. unfold p. cbn. apply list_lookup_middle. done.
  - destruct IH as (Hrun2 & Hexp & Hrec & Hres & Hdone & Hnot).
    rewrite pagesArrive_snoc, steps_app, arrived_snoc.
    set (t := Orchestrator.steps s1 (Orchestrator.pagesArrive l)) in *.
    assert (Orchestrator.wired t) as Hw.
    { pose proof (consistent_steps now0 id0
                    (es ++ [Orchestrator.EvRunPipeline now raw pgs]
                        ++ Orchestrator.pagesArrive l)) as Hc.
      rewrite steps_app, steps_app in Hc. by destruct Hc as [Hc _]. }
    assert (Orchestrator.steps t
              [Orchestrator.EvPublish a.1.1 a.1.2 MessageBus.PAGE_ASSEMBLED a.2 None]
            = Orchestrator.published a.1.1 a.1.2 MessageBus.PAGE_ASSEMBLED a.2 None t)
      as -> by reflexivity.
    rewrite (published_observed _ _ _ _ None t Hw Hrun2); [| |reflexivity].
    2:{ vm_compute. repeat constructor. }
    unfold Orchestrator.onMessage.
    change (MessageBus.type (messageOf _ _ _ _ _ _)) with MessageBus.PAGE_ASSEMBLED.
    cbv iota. unfold Orchestrator.handlePageAssembled.
    set (t1 := Orchestrator.recordPage _ _ _).
    assert (Orchestrator.receivedPages (Orchestrator.pipelineState t1)
            = set_add (Orchestrator.payload_pageType a.2) (Orchestrator.arrived l)) as Hrec1
      by (rewrite <- Hrec; reflexivity).
    assert (Orchestrator.expectedPages (Orchestrator.pipelineState t1) = expected) as Hexp1
      by (rewrite <- Hexp; reflexivity).
    assert (l ++ [a] ≠ []) as Hne by (by destruct l).
    assert ((l ≠ [] ∧ covers expected (Orchestrator.arrived l))
            ∨ ¬ (l ≠ [] ∧ covers expected (Orchestrator.arrived l))) as [Hold|Hold].
    { destruct l as [|b l]; [right; by intros [? _]|].
      destruct (covers_cases expected (Orchestrator.arrived (b :: l))); [left|right]; try done.
      by intros [_ ?]. }
    + destruct (Hdone Hold) as (Hst & output & Hout).
      rewrite checkPipelineCompletion_idle.
      2:{ intros [Hst1 _]. change (Orchestrator.status (Orchestrator.pipelineState t1))
            with (Orchestrator.status (Orchestrator.pipelineState t)) in Hst1. congruence. }
      split_and!.
      * exact Hrun2.
      * exact Hexp1.
      * exact Hrec1.
      * exact Hres.
      * intros _. split; [exact Hst|]. by exists output.
      * intros Hn. destruct Hn. split; [done|]. apply covers_set_add. by destruct Hold.
    + destruct (Hnot Hold) as (Hst & Hpend).
      destruct (covers_cases expected
                  (set_add (Orchestrator.payload_pageType a.2) (Orchestrator.arrived l)))
        as [Hcov|Hcov].
      * match goal with
        | |- context [Orchestrator.checkPipelineCompletion ?n t1] =>
            destruct (checkPipelineCompletion_done n t1 Hst)
              as (Hst' & _ & _ & Hexp' & Hrec' & _ & Hrun' & Hres' & _ & _ & _ & Hsettle);
              [by rewrite Hexp1, Hrec1|]
        end.
        change (Orchestrator.resolveCompletion t1) with (Orchestrator.resolveCompletion t)
          in Hsettle, Hres'.
        rewrite Hres in Hsettle. destruct Hsettle as [_ Hproms].
        split_and!.
        -- by rewrite Hrun'.
        -- by rewrite Hexp'.
        -- by rewrite Hrec'.
        -- by rewrite Hres'.
        -- intros _. split; [done|]. eexists. rewrite Hproms. by apply settle_lookup.
        -- intros Hn. destruct Hn. by split.
      * rewrite checkPipelineCompletion_idle.
        2:{ intros [_ Hc]. apply Hcov. by rewrite <- Hexp1, <- Hrec1. }
        split_and!.
        -- exact Hrun2.
        -- exact Hexp1.
        -- exact Hrec1.
        -- exact Hres.
        -- intros [_ Hc]. done.
        -- intros _. split; [exact Hst|exact Hpend].
Qed.

End CoordinatorRun.



Section CoordinatorOutput.

Implicit Types (s : Orchestrator.t) (m : Wire.Message).

Lemma sameStart_refl s : sameStart s s.
Proof. by split. Qed.

Lemma sameStart_trans s1 s2 s3 : sameStart s1 s2 → sameStart s2 s3 → sameStart s1 s3.
Proof. intros [H1 H2] [H3 H4]. split; [congruence|tauto]. Qed.

Lemma dated_sameStart s s' : sameStart s s' → dated s → dated s'.
Proof. intros [H1 H2] Hd Hst. rewrite H1. apply Hd. intros Hi. by apply Hst, H2. Qed.

Lemma sameStart_handleAgentError now m s :
  sameStart s (Orchestrator.handleAgentError now m s).
Proof.
  unfold Orchestrator.handleAgentError. cbv zeta.
  case_bool_decide as Hst; [|by split].
  cbn [Orchestrator.pipelineState Orchestrator.logEvent] in Hst.
  destruct (Orchestrator.rejectCompletion _); (split; [reflexivity|congruence]).
Qed.

Lemma sameStart_checkPipelineCompletion now s :
  sameStart s (Orchestrator.checkPipelineCompletion now s).
Proof.
  unfold Orchestrator.checkPipelineCompletion. cbv zeta.
  destruct (forallb _ _); cbn [andb]; [|by split].
  case_bool_decide as Hst; [|by split].
  destruct (Orchestrator.resolveCompletion _); (split; [reflexivity|congruence]).
Qed.

Lemma sameStart_wrappedHandler now m s :
  sameStart s (Orchestrator.wrappedHandler now m s).
Proof.
  unfold Orchestrator.wrappedHandler.
  destruct (Orchestrator.isRunning s); cbn [negb]; [|by split].
  unfold Orchestrator.onMessage.
  destruct (MessageBus.type m);
    first [ apply sameStart_refl | apply sameStart_handleAgentError | idtac ].
  - unfold Orchestrator.handleProductModelReady. cbv zeta.
    by destruct (Orchestrator.payload_product _).
  - unfold Orchestrator.handleQuestionsGenerated. cbv zeta.
    by destruct (Orchestrator.payload_questionSet _).
  - by split.
  - unfold Orchestrator.handlePageAssembled.
    eapply sameStart_trans; [|apply sameStart_checkPipelineCompletion]. by split.
Qed.

Lemma sameStart_published now src ty pl o s :
  sameStart s (Orchestrator.published now src ty pl o s).
Proof.
  unfold Orchestrator.published.
  rewrite (publish_eta now src ty pl o (Orchestrator.messageBus s)).
  fold (posted now src ty pl o s).
  assert (sameStart s (posted now src ty pl o s)) as Hn0 by (by split).
  revert Hn0. generalize (posted now src ty pl o s).
  induction (MessageBus.emit _ _ _) as [|c cs IH]; intros s0 Hs0; cbn [foldl]; [done|].
  apply IH. eapply sameStart_trans; [exact Hs0|]. unfold Orchestrator.deliver.
  destruct (MessageBus.inv_handler c); try apply sameStart_refl.
  apply sameStart_wrappedHandler.
Qed.

Lemma dated_step s e : dated s → dated (Orchestrator.step s e).
Proof.
  intros Hd. destruct e; cbn [Orchestrator.step];
    first [ exact Hd
          | revert Hd; apply dated_sameStart, sameStart_published
          | intros _; by eexists ].
Qed.

Lemma dated_steps now0 id0 es :
  dated (Orchestrator.steps (Orchestrator.init now0 id0) es).
Proof.
  unfold Orchestrator.steps.
  assert (dated (Orchestrator.init now0 id0)) as Hi by (by intros []).
  revert Hi. generalize (Orchestrator.init now0 id0).
  induction es as [|e es IH]; intros s Hs; cbn [foldl]; [done|].
  by apply IH, dated_step.
Qed.

(** What a completing [checkPipelineCompletion] logs and publishes, and the
    output it resolves with. *)
Lemma checkPipelineCompletion_output now s :
  Orchestrator.status (Orchestrator.pipelineState s) = running →
  covers (Orchestrator.expectedPages (Orchestrator.pipelineState s))
         (Orchestrator.receivedPages (Orchestrator.pipelineState s)) →
  let s' := Orchestrator.checkPipelineCompletion now s in
  let output := Orchestrator.resolution now s in
  Orchestrator.Output.executionLog output = Orchestrator.executionLog s'
  ∧ (∃ entry, Orchestrator.executionLog s' = Orchestrator.executionLog s ++ [entry]
              ∧ Orchestrator.ExecutionLogEntry.event entry = "pipeline-complete"
              ∧ Orchestrator.ExecutionLogEntry.timestamp entry = now)
  ∧ Orchestrator.Output.summary output
    = {| Wire.totalEvents := length (Orchestrator.executionLog s);
         Wire.startedAt := default 0%N (Orchestrator.startedAt (Orchestrator.pipelineState s));
         Wire.completedAt := now;
         Wire.durationMs :=
           (Z.of_N now
            - Z.of_N (default 0%N (Orchestrator.startedAt (Orchestrator.pipelineState s))))%Z;
         Wire.pagesGenerated := Orchestrator.receivedPages (Orchestrator.pipelineState s) |}
  ∧ ∃ msg, last (MessageBus.messageHistory (Orchestrator.messageBus s')) = Some msg
           ∧ MessageBus.payload msg
             = Wire.PipelineCompletePayload
                 (Orchestrator.pages (Orchestrator.pipelineState s))
                 (Orchestrator.Output.summary output).
Proof.
  intros Hst Hcov. unfold Orchestrator.checkPipelineCompletion. cbv zeta.
  rewrite (proj2 (allReceived_covers _ _) Hcov), (bool_decide_eq_true_2 _ Hst).
  cbn [andb].
  cbn [Orchestrator.resolveCompletion Orchestrator.publish Orchestrator.with_bus
       Orchestrator.logEvent Orchestrator.with_pipelineState Orchestrator.markCompleted].
  destruct (Orchestrator.resolveCompletion s) as [p|] eqn:Hres;
    (split_and!;
       [reflexivity
       |eexists; split_and!; reflexivity
       |reflexivity
       |eexists; split;
          [unfold MessageBus.publish, MessageBus.generateMessageId; cbn; apply last_snoc
          |reflexivity]]).
Qed.

End CoordinatorOutput.

(** X26.  The output of a completed run.  When the page that completes a run
    arrives, the promise is fulfilled with an output whose summary gives the
    start time that [runPipeline] recorded (a run that was started always has
    one), the time of completion, their difference and the received page
    types; whose log is the coordinator's own log, which ends with the
    completion entry; and whose [totalEvents], counted before that entry was
    written, is one less than the length of that log.  The completion message
    carries the same summary. *)
Theorem completed_run_output (now0 : N) (id0 : string) (es : list Orchestrator.Event)
    (now : N) (source : string) (payload : Wire.Payload)
    (options : option MessageBus.PublishOptions) :
  let s := Orchestrator.steps (Orchestrator.init now0 id0) es in
  let s' := Orchestrator.published now source MessageBus.PAGE_ASSEMBLED payload options s in
  let ps := Orchestrator.pipelineState s in
  let received := set_add (Orchestrator.payload_pageType payload) (Orchestrator.receivedPages ps) in
  Orchestrator.isRunning s = true →
  Orchestrator.addressed options (Orchestrator.id s) = true →
  Orchestrator.status ps = running →
  covers (Orchestrator.expectedPages ps) received →
  ∃ p output started,
    Orchestrator.resolveCompletion s = Some p
    ∧ Orchestrator.promises s' !! p = Some (Orchestrator.Fulfilled output)
    ∧ Orchestrator.startedAt ps = Some started
    ∧ Orchestrator.Output.summary output
      = {| Wire.totalEvents := S (length (Orchestrator.getExecutionLog s));
           Wire.startedAt := started;
           Wire.completedAt := now;
           Wire.durationMs := (Z.of_N now - Z.of_N started)%Z;
           Wire.pagesGenerated := received |}
    ∧ Orchestrator.Output.executionLog output = Orchestrator.getExecutionLog s'
    ∧ length (Orchestrator.getExecutionLog s')
      = S (Wire.totalEvents (Orchestrator.Output.summary output))
    ∧ (∃ entry, last (Orchestrator.getExecutionLog s') = Some entry
                ∧ Orchestrator.ExecutionLogEntry.event entry = "pipeline-complete"
                ∧ Orchestrator.ExecutionLogEntry.timestamp entry = now)
    ∧ ∃ msg, last (MessageBus.getHistory (Orchestrator.messageBus s')) = Some msg
             ∧ MessageBus.type msg = MessageBus.PIPELINE_COMPLETE
             ∧ MessageBus.payload msg
               = Wire.PipelineCompletePayload
                   (Orchestrator.pages (Orchestrator.pipelineState s'))
                   (Orchestrator.Output.summary output).
Proof.
  cbv zeta. intros Hrun Ha Hst Hcov.
  pose proof (consistent_steps now0 id0 es) as Hc.
  pose proof (dated_steps now0 id0 es) as Hd.
  set (s := Orchestrator.steps (Orchestrator.init now0 id0) es) in *.
  destruct Hc as (Hw & _ & _ & Hp). destruct (Hp Hst) as (p & Hres & _ & Hpend & _).
  destruct Hd as [started Hstarted]; [by rewrite Hst|].
  rewrite published_observed; [|done|done| |done].
  2:{ vm_compute. repeat constructor. }
  unfold Orchestrator.onMessage.
  change (MessageBus.type (messageOf _ _ _ _ _ _)) with MessageBus.PAGE_ASSEMBLED.
  cbv iota. unfold Orchestrator.handlePageAssembled.
  set (s1 := Orchestrator.recordPage now _ _).
  assert (Orchestrator.status (Orchestrator.pipelineState s1) = running) as Hst1 by exact Hst.
  assert (covers (Orchestrator.expectedPages (Orchestrator.pipelineState s1))
                 (Orchestrator.receivedPages (Orchestrator.pipelineState s1))) as Hcov1
    by exact Hcov.
  destruct (checkPipelineCompletion_done now s1 Hst1 Hcov1)
    as (_ & _ & Hpages & _ & _ & _ & _ & _ & _ & _ & (msg0 & Hlast0 & Hty0 & _) & Hsettle).
  destruct (checkPipelineCompletion_output now s1 Hst1 Hcov1)
    as (Hlog & (entry & Hentry & Hev & Hts) & Hsum & (msg & Hlast & Hpl)).
  change (Orchestrator.resolveCompletion s1) with (Orchestrator.resolveCompletion s) in Hsettle.
  rewrite Hres in Hsettle. destruct Hsettle as [_ Hproms].
  assert (Orchestrator.executionLog s1
          = Orchestrator.executionLog s
            ++ [{| Orchestrator.ExecutionLogEntry.step := (Orchestrator.stepCounter s + 1)%N;
                   Orchestrator.ExecutionLogEntry.event := "page-assembled";
                   Orchestrator.ExecutionLogEntry.agentId := Some source;
                   Orchestrator.ExecutionLogEntry.status := "completed";
                   Orchestrator.ExecutionLogEntry.timestamp := now;
                   Orchestrator.ExecutionLogEntry.message :=
                     Some (show (Orchestrator.payload_pageType payload)
                           +:+ " page assembled") |}]) as Hlog1 by reflexivity.
  assert (Orchestrator.startedAt (Orchestrator.pipelineState s1) = Some started) as Hstarted1
    by exact Hstarted.
  exists p, (Orchestrator.resolution now s1), started.
  unfold Orchestrator.getExecutionLog, MessageBus.getHistory.
  split_and!.
  - exact Hres.
  - rewrite Hproms. by apply settle_lookup.
  - exact Hstarted.
  - rewrite Hsum, Hstarted1, Hlog1, length_app. cbn [length default from_option id].
    rewrite Nat.add_1_r. reflexivity.
  - exact Hlog.
  - rewrite Hsum, Hentry, length_app. cbn [length Wire.totalEvents]. lia.
  - exists entry. split_and!; [|done|done]. rewrite Hentry. apply last_snoc.
  - exists msg. split_and!; [exact Hlast| |].
    + rewrite Hlast in Hlast0. by injection Hlast0 as ->.
    + rewrite Hpl, Hpages. reflexivity.
Qed.

Lemma completed_run_output_witness :
  let s := Orchestrator.steps (Orchestrator.init 0 "orchestrator-agent")
             [Orchestrator.EvStart 1; Orchestrator.EvRunPipeline 2 "raw" (Some ["faq"])] in
  let s' := Orchestrator.published 7 "page-assembly-agent" MessageBus.PAGE_ASSEMBLED
              (Wire.PageAssembledPayload "faq" "content") None s in
  Orchestrator.status (Orchestrator.pipelineState s) = running
  ∧ ∃ p output,
      Orchestrator.promises s' !! p = Some (Orchestrator.Fulfilled output)
      ∧ Orchestrator.Output.summary output
        = {| Wire.totalEvents := 3; Wire.startedAt := 2%N; Wire.completedAt := 7%N;
             Wire.durationMs := 5%Z; Wire.pagesGenerated := [Some "faq"] |}
      ∧ length (Orchestrator.Output.executionLog output) = 4.
Proof.
  cbv zeta.
  assert (Orchestrator.status (Orchestrator.pipelineState
            (Orchestrator.steps (Orchestrator.init 0 "orchestrator-agent")
               [Orchestrator.EvStart 1; Orchestrator.EvRunPipeline 2 "raw" (Some ["faq"])]))
          = running) as Hst by (vm_compute; reflexivity).
  destruct (completed_run_output 0 "orchestrator-agent"
              [Orchestrator.EvStart 1; Orchestrator.EvRunPipeline 2 "raw" (Some ["faq"])]
              7 "page-assembly-agent" (Wire.PageAssembledPayload "faq" "content") None)
    as (p & output & started & _ & Hout & Hstarted & Hsum & Hlog & Hlen & _).
  - vm_compute. reflexivity.
  - vm_compute. reflexivity.
  - exact Hst.
  - intros x Hx.
    assert (x = "faq") as -> by (vm_compute in Hx; by apply list_elem_of_singleton in Hx).
    vm_compute. repeat constructor.
  - split; [exact Hst|]. exists p, output. split; [exact Hout|].
    assert (Some started = Some 2%N) as [= ->] by (rewrite <- Hstarted; vm_compute; reflexivity).
    split.
    + etrans; [exact Hsum|]. vm_compute. reflexivity.
    + rewrite Hlog, Hlen, Hsum. vm_compute. reflexivity.
Defined.

Section CoordinatorProgressOnly.

Implicit Types (s : Orchestrator.t) (m : Wire.Message).

Lemma progress_step s e :
  Orchestrator.wired s → Orchestrator.progress e →
  let ps := Orchestrator.pipelineState s in
  let ps' := Orchestrator.pipelineState (Orchestrator.step s e) in
  Orchestrator.status ps' = Orchestrator.status ps
  ∧ Orchestrator.startedAt ps' = Orchestrator.startedAt ps
  ∧ Orchestrator.expectedPages ps' = Orchestrator.expectedPages ps
  ∧ Orchestrator.receivedPages ps' = Orchestrator.receivedPages ps
  ∧ Orchestrator.pages ps' = Orchestrator.pages ps
  ∧ Orchestrator.promises (Orchestrator.step s e) = Orchestrator.promises s
  ∧ Orchestrator.settleCalls (Orchestrator.step s e) = Orchestrator.settleCalls s.
Proof.
  intros Hw He. cbv zeta.
  destruct e as [| | |now src ty pl o| | |]; cbn [Orchestrator.step]; try done.
  rewrite published_wired by done.
  destruct (_ && _); [|done].
  unfold Orchestrator.wrappedHandler.
  destruct (negb _); [done|].
  unfold Orchestrator.onMessage.
  change (MessageBus.type (messageOf now src ty pl o (Orchestrator.messageBus s))) with ty.
  destruct He as [He1 He2].
  destruct ty; try done.
  - unfold Orchestrator.handleProductModelReady. cbv zeta.
    by destruct (Orchestrator.payload_product _).
  - unfold Orchestrator.handleQuestionsGenerated. cbv zeta.
    by destruct (Orchestrator.payload_questionSet _).
Qed.

End CoordinatorProgressOnly.


